(** * HAL orb: parameter resolution, interpolation and shading

    A shallow embedding of [src/HAL.tsx] (and of the second copy of the
    component, whose fragment shader draws the reflections differently).

    Numbers.  The TypeScript side only adds, subtracts, multiplies, divides
    and compares, so JavaScript numbers are read as exact rationals [Q]:
    every definition of [Module Hal] computes.  The GLSL side needs square
    roots, powers and trigonometry, so GLSL floats are read as real numbers
    [R] in [Module Glsl] and [Module Frag].  Rounding, overflow and NaN are
    outside both readings. *)

From Stdlib Require Import QArith Qminmax Qabs.
From Stdlib Require Import ZArith List Bool String Ascii.
From Stdlib Require Import Reals Qreals Qround.
From Stdlib Require Lqa Lra Lia.
Import ListNotations.

(* ====================================================================== *)
(** ** The TypeScript component *)
(* ====================================================================== *)

Module Hal.

Local Open Scope Q_scope.

(** [type HALPreset = 'idle' | 'listening' | 'thinking' | 'speaking' | 'asleep'] *)
Inductive HALPreset : Set :=
  | idle | listening | thinking | speaking | asleep.

Definition HALPreset_eqb (p q : HALPreset) : bool :=
  match p, q with
  | idle, idle | listening, listening | thinking, thinking
  | speaking, speaking | asleep, asleep => true
  | _, _ => false
  end.

(** [Required<HALAnimationParams>]: the seven scalars, all present. *)
Record AnimationParams : Set := mkAnim {
  pulseSpeed : Q;
  pulseAmount : Q;
  cloudSpeed : Q;
  cloudIntensity : Q;
  highlightDrift : Q;
  highlightSize : Q;
  highlightPulse : Q
}.

(** [HALAnimationParams]: every field optional; [None] is an absent key. *)
Record HALAnimationParams : Set := mkAnimOpt {
  o_pulseSpeed : option Q;
  o_pulseAmount : option Q;
  o_cloudSpeed : option Q;
  o_cloudIntensity : option Q;
  o_highlightDrift : option Q;
  o_highlightSize : option Q;
  o_highlightPulse : option Q
}.

(** [[number, number, number]] *)
Definition rgb : Set := (Q * Q * Q)%type.

(** [a[0]], [a[1]], [a[2]] *)
Definition idx0 (a : rgb) : Q := fst (fst a).
Definition idx1 (a : rgb) : Q := snd (fst a).
Definition idx2 (a : rgb) : Q := snd a.

(** [Array.prototype.map] on a three-element tuple. *)
Definition map3 (f : Q -> Q) (c : rgb) : rgb :=
  let '(r, g, b) := c in (f r, f g, f b).

(** [HALColorScheme] as the props carry it: every field optional. *)
Record HALColorScheme : Set := mkSchemeOpt {
  o_base : option rgb;
  o_mid : option rgb;
  o_highlight : option rgb
}.

(** A colour scheme whose three fields are present: the entries of
    [PRESET_COLORS], the results of [generateColorScheme] and the local
    [colors] of [targetState], which the source reads with [!]. *)
Record ColorScheme : Set := mkScheme {
  base : rgb;
  mid : rgb;
  highlight : rgb
}.

Definition PRESET_ANIMATIONS (p : HALPreset) : AnimationParams :=
  match p with
  | idle => {|
      pulseSpeed := 0.8;
      pulseAmount := 0.02;
      cloudSpeed := 0.12;
      cloudIntensity := 0.35;
      highlightDrift := 0.25;
      highlightSize := 0.35;
      highlightPulse := 0.1 |}
  | listening => {|
      pulseSpeed := 2.5;
      pulseAmount := 0.05;
      cloudSpeed := 0.35;
      cloudIntensity := 0.5;
      highlightDrift := 0.0;
      highlightSize := 0.5;
      highlightPulse := 0.25 |}
  | thinking => {|
      pulseSpeed := 2.5;
      pulseAmount := 0.05;
      cloudSpeed := 0.4;
      cloudIntensity := 0.55;
      highlightDrift := 1.2;
      highlightSize := 0.65;
      highlightPulse := 0.12 |}
  | speaking => {|
      pulseSpeed := 6.0;
      pulseAmount := 0.08;
      cloudSpeed := 0.85;
      cloudIntensity := 0.7;
      highlightDrift := 3.2;
      highlightSize := 1.2;
      highlightPulse := 0.2 |}
  | asleep => {|
      pulseSpeed := 0.2;
      pulseAmount := 0.01;
      cloudSpeed := 0.04;
      cloudIntensity := 0.15;
      highlightDrift := 0.08;
      highlightSize := 0.12;
      highlightPulse := 0.02 |}
  end.

(** [PRESET_COLORS.blue] *)
Definition PRESET_COLORS_blue : ColorScheme := {|
  base := (0.08, 0.18, 0.55);
  mid := (0.15, 0.35, 0.75);
  highlight := (0.5, 0.75, 1.0) |}.

(** [PRESET_COLORS.red] *)
Definition PRESET_COLORS_red : ColorScheme := {|
  base := (0.6, 0.08, 0.15);
  mid := (0.85, 0.15, 0.25);
  highlight := (1.0, 0.5, 0.6) |}.

Definition LISTENING_COLOR : ColorScheme := PRESET_COLORS_red.

(* ---------------------------------------------------------------------- *)
(** *** [hexToRgb] *)

Definition ascii_in (lo hi c : ascii) : bool :=
  ((nat_of_ascii lo <=? nat_of_ascii c) && (nat_of_ascii c <=? nat_of_ascii hi))%nat.

(** The character class [[a-f\d]] under the [i] flag. *)
Definition class_af_d (c : ascii) : bool :=
  ascii_in "a" "f" c || ascii_in "A" "F" c || ascii_in "0" "9" c.

(** One capture group [([a-f\d]{2})]: the two characters and the rest. *)
Definition group2 (s : string) : option (string * string) :=
  match s with
  | String c1 (String c2 rest) =>
      if class_af_d c1 && class_af_d c2
      then Some (String c1 (String c2 EmptyString), rest)
      else None
  | _ => None
  end.

(** [([a-f\d]{2})([a-f\d]{2})([a-f\d]{2})$] from the current position. *)
Definition groups_to_end (s : string) : option (string * string * string) :=
  match group2 s with
  | Some (g1, s1) =>
      match group2 s1 with
      | Some (g2, s2) =>
          match group2 s2 with
          | Some (g3, EmptyString) => Some (g1, g2, g3)
          | _ => None
          end
      | None => None
      end
  | None => None
  end.

(** [/^#?([a-f\d]{2})([a-f\d]{2})([a-f\d]{2})$/i.exec(hex)]: the greedy
    [#?] first takes a leading [#] and backtracks to taking nothing. *)
Definition regex_exec (hex : string) : option (string * string * string) :=
  match hex with
  | String "#" rest =>
      match groups_to_end rest with
      | Some r => Some r
      | None => groups_to_end hex
      end
  | _ => groups_to_end hex
  end.

(** The value of a digit in radix 16, as [parseInt] reads it. *)
Definition digit16 (c : ascii) : option Z :=
  let n := Z.of_nat (nat_of_ascii c) in
  if ascii_in "0" "9" c then Some (n - 48)%Z
  else if ascii_in "a" "f" c then Some (n - 87)%Z
  else if ascii_in "A" "F" c then Some (n - 55)%Z
  else None.

(** [parseInt(s, 16)] accumulates the longest prefix of radix-16 digits. *)
Fixpoint parseInt16_from (acc : Z) (s : string) : Z :=
  match s with
  | EmptyString => acc
  | String c rest =>
      match digit16 c with
      | Some d => parseInt16_from (16 * acc + d)%Z rest
      | None => acc
      end
  end.

(** [parseInt(s, 16)]; [None] is NaN (no digit to read).  White space, a
    sign and a [0x] prefix cannot occur in a capture group of the pattern
    above and are not read here. *)
Definition parseInt16 (s : string) : option Z :=
  match s with
  | EmptyString => None
  | String c _ =>
      match digit16 c with
      | Some _ => Some (parseInt16_from 0 s)
      | None => None
      end
  end.

(** [parseInt(g, 16) / 255]; the NaN case cannot arise for a capture group
    (lemma [channel_of_group]) and is given the value 0 to stay in [Q]. *)
Definition channel (g : string) : Q :=
  match parseInt16 g with
  | Some n => inject_Z n / 255
  | None => 0
  end.

Definition hexToRgb (hex : string) : rgb :=
  match regex_exec hex with
  | None => (0.15, 0.35, 0.75)
  | Some (g1, g2, g3) => (channel g1, channel g2, channel g3)
  end.

(* ---------------------------------------------------------------------- *)
(** *** [generateColorScheme], [lerp], [lerpColor] *)

Definition Qeqb0 (x : Q) : bool := Qeq_bool x 0.
Definition Qltb (x y : Q) : bool := negb (Qle_bool y x).

Definition generateColorScheme (baseRgb : rgb) : ColorScheme :=
  let '(r, g, b) := baseRgb in
  let luminance := 0.299 * r + 0.587 * g + 0.114 * b in
  let max := Qmax (Qmax r g) b in
  let min := Qmin (Qmin r g) b in
  let saturation := if Qeqb0 max then 0 else (max - min) / max in
  if Qltb saturation 0.1 then
    {| base := (luminance * 0.4, luminance * 0.4, luminance * 0.4);
       mid := (luminance * 0.8, luminance * 0.8, luminance * 0.8);
       highlight := (0.95, 0.95, 0.95) |}
  else
    {| base := (r * 0.5, g * 0.5, b * 0.5);
       mid := (Qmin 1 (r * 1.2), Qmin 1 (g * 1.2), Qmin 1 (b * 1.2));
       highlight := (Qmin 1 (r * 0.5 + 0.5),
                     Qmin 1 (g * 0.5 + 0.5),
                     Qmin 1 (b * 0.5 + 0.5)) |}.

Definition lerp (a b t : Q) : Q := a + (b - a) * t.

Definition lerpColor (a b : rgb) (t : Q) : rgb :=
  (lerp (idx0 a) (idx0 b) t, lerp (idx1 a) (idx1 b) t, lerp (idx2 a) (idx2 b) t).

(* ---------------------------------------------------------------------- *)
(** *** Props and [targetState] *)

(** [reflections?: boolean | HALReflectionOptions] *)
Inductive Reflections : Set :=
  | ReflBool (b : bool)
  | ReflOptions (enabled : option bool) (intensity : option Q).

(** The props that the core reads.  [presetColors] is a
    [Partial<Record<HALPreset, string>>]. *)
Record HALProps : Type := mkProps {
  preset : HALPreset;
  color : option string;
  presetColors : option (HALPreset -> option string);
  colorScheme : option HALColorScheme;
  animation : option HALAnimationParams;
  transitionSpeed : Q;
  reflections : Reflections
}.

(** The destructuring defaults of the component. *)
Definition default_props : HALProps := {|
  preset := idle;
  color := None;
  presetColors := None;
  colorScheme := None;
  animation := None;
  transitionSpeed := 1.0;
  reflections := ReflBool false |}.

(** A string in a condition: the empty string is falsy. *)
Definition truthy (s : string) : bool :=
  match s with EmptyString => false | String _ _ => true end.

(** [presetColors?.[p]], kept only when truthy. *)
Definition presetColor (pc : option (HALPreset -> option string)) (p : HALPreset)
  : option string :=
  match pc with
  | None => None
  | Some m =>
      match m p with
      | Some s => if truthy s then Some s else None
      | None => None
      end
  end.

(** [x || d] on an optional array (an array is always truthy). *)
Definition or_default {A : Type} (x : option A) (d : A) : A :=
  match x with Some v => v | None => d end.

(** [{ ...presetAnim, ...animation }] *)
Definition spread_animation (presetAnim : AnimationParams)
  (animation : option HALAnimationParams) : AnimationParams :=
  match animation with
  | None => presetAnim
  | Some a => {|
      pulseSpeed := or_default (o_pulseSpeed a) (pulseSpeed presetAnim);
      pulseAmount := or_default (o_pulseAmount a) (pulseAmount presetAnim);
      cloudSpeed := or_default (o_cloudSpeed a) (cloudSpeed presetAnim);
      cloudIntensity := or_default (o_cloudIntensity a) (cloudIntensity presetAnim);
      highlightDrift := or_default (o_highlightDrift a) (highlightDrift presetAnim);
      highlightSize := or_default (o_highlightSize a) (highlightSize presetAnim);
      highlightPulse := or_default (o_highlightPulse a) (highlightPulse presetAnim) |}
  end.

(** The [if / else if] chain of [targetState] that assigns [colors]. *)
Definition resolve_colors (props : HALProps) : ColorScheme :=
  match colorScheme props with
  | Some cs => {|
      base := or_default (o_base cs) (base PRESET_COLORS_blue);
      mid := or_default (o_mid cs) (mid PRESET_COLORS_blue);
      highlight := or_default (o_highlight cs) (highlight PRESET_COLORS_blue) |}
  | None =>
      if HALPreset_eqb (preset props) listening then
        match presetColor (presetColors props) listening with
        | Some listeningHex => generateColorScheme (hexToRgb listeningHex)
        | None => LISTENING_COLOR
        end
      else
        match presetColor (presetColors props) (preset props) with
        | Some hex => generateColorScheme (hexToRgb hex)
        | None =>
            match color props with
            | Some c =>
                if truthy c then generateColorScheme (hexToRgb c)
                else PRESET_COLORS_blue
            | None => PRESET_COLORS_blue
            end
        end
  end.

(** The block under [// Dim colors for asleep state]. *)
Definition dim_for_asleep (props : HALProps) (colors : ColorScheme) : ColorScheme :=
  if HALPreset_eqb (preset props) asleep
     && match colorScheme props with Some _ => false | None => true end
  then {|
    base := map3 (fun c => c * 0.5) (base colors);
    mid := map3 (fun c => c * 0.5) (mid colors);
    highlight := map3 (fun c => c * 0.5) (highlight colors) |}
  else colors.

(** The object [targetState] returns, also the shape of
    [currentParamsRef.current].  The source spreads the seven animation
    scalars next to the three colours ([...anim]); here they stay together
    in the field [anim], and the colour [highlight] is [p_highlight]. *)
Record Params : Set := mkParams {
  baseColor : rgb;
  midColor : rgb;
  p_highlight : rgb;
  anim : AnimationParams
}.

Definition targetState (props : HALProps) : Params :=
  let presetAnim := PRESET_ANIMATIONS (preset props) in
  let anim := spread_animation presetAnim (animation props) in
  let colors := dim_for_asleep props (resolve_colors props) in
  {| baseColor := base colors;
     midColor := mid colors;
     p_highlight := highlight colors;
     anim := anim |}.

(* ---------------------------------------------------------------------- *)
(** *** One frame of [render]: the interpolation *)

(** [const t = 0.015 * transitionSpeed] *)
Definition render_t (transitionSpeed : Q) : Q := 0.015 * transitionSpeed.

(** The assignments of [render] to [current], in source order. *)
Definition advance (current target : Params) (transitionSpeed : Q) : Params :=
  let t := render_t transitionSpeed in
  let c := anim current in
  let g := anim target in
  {| baseColor := lerpColor (baseColor current) (baseColor target) t;
     midColor := lerpColor (midColor current) (midColor target) t;
     p_highlight := lerpColor (p_highlight current) (p_highlight target) t;
     anim := {|
       highlightSize := lerp (highlightSize c) (highlightSize g) t;
       highlightPulse := lerp (highlightPulse c) (highlightPulse g) t;
       cloudIntensity := lerp (cloudIntensity c) (cloudIntensity g) t;
       pulseAmount := lerp (pulseAmount c) (pulseAmount g) t;
       pulseSpeed := pulseSpeed g;
       cloudSpeed := cloudSpeed g;
       highlightDrift := highlightDrift g |} |}.

(** [reflectionValue] of [render]. *)
Definition reflectionValue (reflections : Reflections) : Q :=
  match reflections with
  | ReflBool true => 0.6
  | ReflBool false => 0
  | ReflOptions (Some true) intensity => or_default intensity 0.6
  | ReflOptions _ _ => 0
  end.

(** [clamp(x, lo, hi)] as the specification uses it. *)
Definition clamp (x lo hi : Q) : Q := Qmin (Qmax x lo) hi.

End Hal.

(* ====================================================================== *)
(** ** GLSL built-ins over the reals *)
(* ====================================================================== *)

Module Glsl.

Local Open Scope R_scope.

Record vec2 : Type := Vec2 { v2x : R; v2y : R }.
Record vec3 : Type := Vec3 { v3x : R; v3y : R; v3z : R }.
Record vec4 : Type := Vec4 { v4x : R; v4y : R; v4z : R; v4w : R }.

(** Component-wise application, for the operators and built-ins that GLSL
    lifts to vectors. *)
Definition map2v (f : R -> R) (a : vec2) : vec2 :=
  Vec2 (f (v2x a)) (f (v2y a)).
Definition zip2v (f : R -> R -> R) (a b : vec2) : vec2 :=
  Vec2 (f (v2x a) (v2x b)) (f (v2y a) (v2y b)).
Definition map3v (f : R -> R) (a : vec3) : vec3 :=
  Vec3 (f (v3x a)) (f (v3y a)) (f (v3z a)).
Definition zip3v (f : R -> R -> R) (a b : vec3) : vec3 :=
  Vec3 (f (v3x a) (v3x b)) (f (v3y a) (v3y b)) (f (v3z a) (v3z b)).
Definition map4v (f : R -> R) (a : vec4) : vec4 :=
  Vec4 (f (v4x a)) (f (v4y a)) (f (v4z a)) (f (v4w a)).
Definition zip4v (f : R -> R -> R) (a b : vec4) : vec4 :=
  Vec4 (f (v4x a) (v4x b)) (f (v4y a) (v4y b)) (f (v4z a) (v4z b)) (f (v4w a) (v4w b)).

(** [vec3(s)] and [vec4(s)] *)
Definition splat3 (s : R) : vec3 := Vec3 s s s.
Definition splat4 (s : R) : vec4 := Vec4 s s s s.

(** [floor]: the greatest integer below the argument. *)
Definition floor (x : R) : R := IZR (Int_part x).

Definition abs (x : R) : R := Rabs x.

(** [step(edge, x)] is 0.0 if [x < edge] and 1.0 otherwise. *)
Definition step (edge x : R) : R :=
  if Rlt_dec x edge then 0 else 1.

Definition clamp (x minVal maxVal : R) : R :=
  Rmin (Rmax x minVal) maxVal.

(** [mix(x, y, a) = x * (1 - a) + y * a] *)
Definition mix (x y a : R) : R := x * (1 - a) + y * a.

(** [smoothstep(edge0, edge1, x)]: the Hermite polynomial of the clamped
    ratio.  The shader also calls it with [edge0 > edge1] (ambient
    occlusion); the defining formula is applied there as well. *)
Definition smoothstep (edge0 edge1 x : R) : R :=
  let t := clamp ((x - edge0) / (edge1 - edge0)) 0 1 in
  t * t * (3 - 2 * t).

(** [pow(x, y)].  Every call of the shader has [x >= 0] and [y > 0]; the
    value at [x = 0] is 0. *)
Definition pow (x y : R) : R :=
  if Rle_dec x 0 then 0 else Rpower x y.

Definition dot2 (a b : vec2) : R := v2x a * v2x b + v2y a * v2y b.
Definition dot3 (a b : vec3) : R := v3x a * v3x b + v3y a * v3y b + v3z a * v3z b.
Definition dot4 (a b : vec4) : R :=
  v4x a * v4x b + v4y a * v4y b + v4z a * v4z b + v4w a * v4w b.

Definition length2 (a : vec2) : R := sqrt (dot2 a a).
Definition length3 (a : vec3) : R := sqrt (dot3 a a).

(** [normalize(a)]: [a / length(a)].  GLSL leaves the zero vector
    undefined; here the division by zero yields the zero vector. *)
Definition normalize3 (a : vec3) : vec3 :=
  map3v (fun c => c / length3 a) a.

(** The two-argument [atan(y, x)]: the angle of the point [(x, y)]. *)
Definition atan2 (y x : R) : R :=
  if Rlt_dec 0 x then atan (y / x)
  else if Rlt_dec x 0 then
    (if Rle_dec 0 y then atan (y / x) + PI else atan (y / x) - PI)
  else if Rlt_dec 0 y then PI / 2
  else if Rlt_dec y 0 then - (PI / 2)
  else 0.

End Glsl.

(* ====================================================================== *)
(** ** The fragment shader *)
(* ====================================================================== *)

Module Frag.

Import Glsl.
Local Open Scope R_scope.

Record Uniforms : Type := mkUniforms {
  u_time : R;
  u_resolution : vec2;
  u_baseColor : vec3;
  u_midColor : vec3;
  u_highlight : vec3;
  u_pulseSpeed : R;
  u_pulseAmount : R;
  u_cloudSpeed : R;
  u_cloudIntensity : R;
  u_highlightDrift : R;
  u_highlightSize : R;
  u_highlightPulse : R;
  u_reflections : R
}.

(* ---------------------------------------------------------------------- *)
(** *** Simplex noise *)

Definition mod289 (x : R) : R := x - floor (x * (1 / 289)) * 289.
Definition mod289_3 (x : vec3) : vec3 := map3v mod289 x.
Definition mod289_4 (x : vec4) : vec4 := map4v mod289 x.
Definition permute (x : vec4) : vec4 :=
  mod289_4 (map4v (fun c => ((c * 34) + 1) * c) x).
Definition taylorInvSqrt (r : vec4) : vec4 :=
  map4v (fun c => 1.79284291400159 - 0.85373472095314 * c) r.

Definition snoise (v : vec3) : R :=
  let C := Vec2 (1 / 6) (1 / 3) in
  let D := Vec4 0 0.5 1 2 in
  let Cyyy := splat3 (v2y C) in
  let Cxxx := splat3 (v2x C) in
  let Dyyy := splat3 (v4y D) in
  let i := map3v floor (map3v (fun c => c + dot3 v Cyyy) v) in
  let x0 := map3v (fun c => c + dot3 i Cxxx) (zip3v Rminus v i) in
  let g := zip3v step (Vec3 (v3y x0) (v3z x0) (v3x x0)) x0 in
  let l := map3v (fun c => 1 - c) g in
  let lzxy := Vec3 (v3z l) (v3x l) (v3y l) in
  let i1 := zip3v Rmin g lzxy in
  let i2 := zip3v Rmax g lzxy in
  let x1 := zip3v Rplus (zip3v Rminus x0 i1) Cxxx in
  let x2 := zip3v Rplus (zip3v Rminus x0 i2) Cyyy in
  let x3 := zip3v Rminus x0 Dyyy in
  let i := mod289_3 i in
  let p :=
    permute (zip4v Rplus
      (map4v (fun c => c + v3x i)
        (permute (zip4v Rplus
          (map4v (fun c => c + v3y i)
            (permute (map4v (fun c => v3z i + c)
                       (Vec4 0 (v3z i1) (v3z i2) 1))))
          (Vec4 0 (v3y i1) (v3y i2) 1))))
      (Vec4 0 (v3x i1) (v3x i2) 1)) in
  let n_ := 0.142857142857 in
  let ns := Vec3 (n_ * v4w D - v4x D) (n_ * v4y D - v4z D) (n_ * v4z D - v4x D) in
  let j := map4v (fun c => c - 49 * floor (c * v3z ns * v3z ns)) p in
  let x_ := map4v (fun c => floor (c * v3z ns)) j in
  let y_ := zip4v (fun jc xc => floor (jc - 7 * xc)) j x_ in
  let x := map4v (fun c => c * v3x ns + v3y ns) x_ in
  let y := map4v (fun c => c * v3x ns + v3y ns) y_ in
  let h := zip4v (fun xc yc => 1 - abs xc - abs yc) x y in
  let b0 := Vec4 (v4x x) (v4y x) (v4x y) (v4y y) in
  let b1 := Vec4 (v4z x) (v4w x) (v4z y) (v4w y) in
  let s0 := map4v (fun c => floor c * 2 + 1) b0 in
  let s1 := map4v (fun c => floor c * 2 + 1) b1 in
  let sh := map4v (fun c => - step c 0) h in
  let a0 := Vec4 (v4x b0 + v4x s0 * v4x sh) (v4z b0 + v4z s0 * v4x sh)
                 (v4y b0 + v4y s0 * v4y sh) (v4w b0 + v4w s0 * v4y sh) in
  let a1 := Vec4 (v4x b1 + v4x s1 * v4z sh) (v4z b1 + v4z s1 * v4z sh)
                 (v4y b1 + v4y s1 * v4w sh) (v4w b1 + v4w s1 * v4w sh) in
  let p0 := Vec3 (v4x a0) (v4y a0) (v4x h) in
  let p1 := Vec3 (v4z a0) (v4w a0) (v4y h) in
  let p2 := Vec3 (v4x a1) (v4y a1) (v4z h) in
  let p3 := Vec3 (v4z a1) (v4w a1) (v4w h) in
  let norm := taylorInvSqrt
    (Vec4 (dot3 p0 p0) (dot3 p1 p1) (dot3 p2 p2) (dot3 p3 p3)) in
  let p0 := map3v (fun c => c * v4x norm) p0 in
  let p1 := map3v (fun c => c * v4y norm) p1 in
  let p2 := map3v (fun c => c * v4z norm) p2 in
  let p3 := map3v (fun c => c * v4w norm) p3 in
  let m := map4v (fun c => Rmax (0.6 - c) 0)
    (Vec4 (dot3 x0 x0) (dot3 x1 x1) (dot3 x2 x2) (dot3 x3 x3)) in
  let m := zip4v Rmult m m in
  42 * dot4 (zip4v Rmult m m)
            (Vec4 (dot3 p0 x0) (dot3 p1 x1) (dot3 p2 x2) (dot3 p3 x3)).

(** The loop of [fbm]: [n] further iterations from the given accumulator,
    amplitude and frequency. *)
Fixpoint fbm_loop (n : nat) (p : vec3) (value amplitude frequency : R) : R :=
  match n with
  | O => value
  | S k =>
      fbm_loop k p
        (value + amplitude * snoise (map3v (fun c => c * frequency) p))
        (amplitude * 0.5) (frequency * 2)
  end.

Definition fbm (p : vec3) : R := fbm_loop 6 p 0 0.5 1.

(* ---------------------------------------------------------------------- *)
(** *** Vector arithmetic used by [main] *)

Definition add2 (a b : vec2) : vec2 := zip2v Rplus a b.
Definition sub2 (a b : vec2) : vec2 := zip2v Rminus a b.
Definition mix2 (a b : vec2) (t : R) : vec2 := zip2v (fun p q => mix p q t) a b.
Definition add3 (a b : vec3) : vec3 := zip3v Rplus a b.
Definition scale3 (a : vec3) (s : R) : vec3 := map3v (fun c => c * s) a.
Definition mix3 (a b : vec3) (t : R) : vec3 := zip3v (fun p q => mix p q t) a b.

(* ---------------------------------------------------------------------- *)
(** *** [main], up to the reflections: the text shared by both shaders *)

Definition sphereRadius : R := 0.72.
Definition edgeSoftness : R := 0.008.

(** [float sphere = 1.0 - smoothstep(sphereRadius - edgeSoftness, sphereRadius, dist)] *)
Definition sphere_of (dist : R) : R :=
  1 - smoothstep (sphereRadius - edgeSoftness) sphereRadius dist.

(** [// 3D sphere normal] *)
Definition sphere_z (uv : vec2) : R :=
  sqrt (Rmax 0 (1 - (v2x uv * v2x uv + v2y uv * v2y uv)
                   / (sphereRadius * sphereRadius))).

Definition sphere_normal (uv : vec2) : vec3 :=
  normalize3 (Vec3 (v2x uv / sphereRadius) (v2y uv / sphereRadius) (sphere_z uv)).

(** [// Spherical coordinates for cloud mapping] and [// Animated clouds] *)
Definition cloudPattern (u : Uniforms) (normal : vec3) : R :=
  let theta := atan2 (v3x normal) (v3z normal) in
  let phi := acos (clamp (v3y normal) (-1) 1) in
  let cloudTime := u_time u * u_cloudSpeed u in
  let cloudPos1 := Vec3 (theta * 1.8 + cloudTime) (phi * 1.8) (cloudTime * 0.4) in
  let cloudPos2 := Vec3 (theta * 1.2 - cloudTime * 0.6)
                        (phi * 1.2 + cloudTime * 0.25) (cloudTime * 0.25) in
  let cloudPos3 := Vec3 (theta * 2.5 + cloudTime * 0.35)
                        (phi * 2.5 - cloudTime * 0.15) (cloudTime * 0.6) in
  let clouds1 := fbm cloudPos1 * 0.5 + 0.5 in
  let clouds2 := fbm cloudPos2 * 0.5 + 0.5 in
  let clouds3 := fbm (scale3 cloudPos3 0.6) * 0.5 + 0.5 in
  let cloudPattern := clouds1 * 0.5 + clouds2 * 0.35 + clouds3 * 0.15 in
  smoothstep 0.25 0.75 cloudPattern.

(** [// Highlight position - centered when drift is 0] *)
Definition highlightCenter (u : Uniforms) : vec2 :=
  let driftTime := u_time u * u_highlightDrift u in
  let driftAmount := Rmin (u_highlightDrift u) 1 in
  let driftOffset := Vec2
    (sin (driftTime * 0.8) * 0.3 + sin (driftTime * 1.4) * 0.15
       + sin (driftTime * 2.1) * 0.08)
    (cos (driftTime * 0.6) * 0.25 + cos (driftTime * 1.2) * 0.1
       + cos (driftTime * 1.9) * 0.06) in
  let basePosition := Vec2 0 0.15 in
  let driftPosition := add2 (Vec2 (-0.2) 0.25) driftOffset in
  mix2 basePosition driftPosition driftAmount.

(** [// Pulsing highlight size] *)
Definition currentHighlightSize (u : Uniforms) : R :=
  let highlightPulseAmount :=
    1 + sin (u_time u * u_pulseSpeed u * 1.8) * u_highlightPulse u
      + sin (u_time u * u_pulseSpeed u * 0.7) * u_highlightPulse u * 0.5 in
  u_highlightSize u * highlightPulseAmount.

(** [// Lighting] *)
Definition lightDir (u : Uniforms) : vec3 :=
  normalize3 (Vec3 (v2x (highlightCenter u)) (v2y (highlightCenter u)) 0.85).

Definition diffuse (u : Uniforms) (normal : vec3) : R :=
  let diffuse := Rmax 0 (dot3 normal (lightDir u)) in
  pow diffuse 0.85.

(** [// Multi-layer specular] *)
Definition viewDir : vec3 := Vec3 0 0 1.

Definition halfDir (u : Uniforms) : vec3 :=
  normalize3 (add3 (lightDir u) viewDir).

(** [pow(max(0.0, dot(normal, halfDir)), e)], the lobe of exponent [e]. *)
Definition lobe (u : Uniforms) (normal : vec3) (e : R) : R :=
  pow (Rmax 0 (dot3 normal (halfDir u))) e.

Definition specular (u : Uniforms) (normal : vec3) : R :=
  let specVSoft := lobe u normal 4 in
  let specSoft := lobe u normal 12 in
  let specMed := lobe u normal 40 in
  let specSharp := lobe u normal 150 in
  specVSoft * currentHighlightSize u * 0.4 +
  specSoft * currentHighlightSize u * 0.5 +
  specMed * currentHighlightSize u * 0.35 +
  specSharp * 0.6.

(** [// Fresnel rim] *)
Definition fresnel (normal : vec3) : R :=
  pow (1 - Rmax 0 (dot3 normal viewDir)) 4.

(** [// Global pulse] *)
Definition pulse (u : Uniforms) : R :=
  1 + sin (u_time u * u_pulseSpeed u) * u_pulseAmount u.

(** [// Color composition] down to [// Bottom shadow]: the value of [color]
    when control reaches the reflections. *)
Definition lit_color (u : Uniforms) (uv : vec2) : vec3 :=
  let dist := length2 uv in
  let z := sphere_z uv in
  let normal := sphere_normal uv in
  let cloudPattern := cloudPattern u normal in
  let specVSoft := lobe u normal 4 in
  let specSoft := lobe u normal 12 in
  let depthGradient := pow z 0.6 in
  let baseGradient := mix3 (u_baseColor u) (u_midColor u) depthGradient in
  let cloudedColor :=
    mix3 (scale3 (u_baseColor u) 0.5) (scale3 (u_midColor u) 1.3)
         (cloudPattern * u_cloudIntensity u + (1 - u_cloudIntensity u) * 0.5) in
  let cloudedColor := mix3 baseGradient cloudedColor (u_cloudIntensity u) in
  let color := scale3 cloudedColor (0.35 + diffuse u normal * 0.65) in
  (* Subsurface scattering *)
  let sss := pow (Rmax 0 (1 - dist / sphereRadius)) 2 * 0.3 in
  let color :=
    add3 color (scale3 (scale3 (u_midColor u) sss) (0.6 + cloudPattern * 0.4)) in
  (* Specular highlights *)
  let highlightColor := mix3 (u_highlight u) (splat3 1) 0.4 in
  let color :=
    add3 color (scale3 (scale3 highlightColor (specular u normal)) 1.5) in
  (* Bloom *)
  let bloom := specVSoft * currentHighlightSize u in
  let color := add3 color (scale3 (scale3 (u_highlight u) bloom) 0.7) in
  let color :=
    add3 color
      (scale3 (scale3 (scale3 (splat3 1) specSoft) (currentHighlightSize u)) 0.3) in
  (* Rim lighting *)
  let color :=
    add3 color (scale3 (scale3 (u_highlight u) (fresnel normal)) 0.2) in
  (* Inner glow *)
  let innerGlow := pow (Rmax 0 (1 - dist / sphereRadius)) 2.5 in
  let color := add3 color (scale3 (scale3 (u_midColor u) innerGlow) 0.12) in
  let color := scale3 color (pulse u) in
  (* Ambient occlusion *)
  let ao := smoothstep sphereRadius (sphereRadius * 0.4) dist in
  let color := scale3 color (ao * 0.4 + 0.6) in
  (* Bottom shadow *)
  let bottomShadow := smoothstep (-0.7) 0.4 (v2y uv) in
  scale3 color (bottomShadow * 0.3 + 0.7).

(** One component of the final [cloudedColor], as a function of that
    component of [u_baseColor] and [u_midColor]. *)
Definition clouded (b m cloudIntensity cloudPattern depthGradient : R) : R :=
  let baseGradient := mix b m depthGradient in
  let cloudedColor :=
    mix (b * 0.5) (m * 1.3)
        (cloudPattern * cloudIntensity + (1 - cloudIntensity) * 0.5) in
  mix baseGradient cloudedColor cloudIntensity.

(** One component of [lit_color], as a function of that component of the
    three colour uniforms ([b], [m], [h]) and of the scalars the shader
    has computed before the composition. *)
Definition compose (b m h cloudIntensity cloudPattern depthGradient diffuse
  specular specVSoft specSoft currentHighlightSize fresnel sss innerGlow
  pulse ao bottomShadow : R) : R :=
  let cloudedColor := clouded b m cloudIntensity cloudPattern depthGradient in
  let color := cloudedColor * (0.35 + diffuse * 0.65) in
  let color := color + m * sss * (0.6 + cloudPattern * 0.4) in
  let highlightColor := mix h 1 0.4 in
  let color := color + highlightColor * specular * 1.5 in
  let bloom := specVSoft * currentHighlightSize in
  let color := color + h * bloom * 0.7 in
  let color := color + 1 * specSoft * currentHighlightSize * 0.3 in
  let color := color + h * fresnel * 0.2 in
  let color := color + m * innerGlow * 0.12 in
  let color := color * pulse in
  let color := color * (ao * 0.4 + 0.6) in
  color * (bottomShadow * 0.3 + 0.7).

Definition lit_channel (u : Uniforms) (uv : vec2) (b m h : R) : R :=
  let dist := length2 uv in
  let normal := sphere_normal uv in
  compose b m h (u_cloudIntensity u) (cloudPattern u normal)
    (pow (sphere_z uv) 0.6) (diffuse u normal) (specular u normal)
    (lobe u normal 4) (lobe u normal 12) (currentHighlightSize u)
    (fresnel normal)
    (pow (Rmax 0 (1 - dist / sphereRadius)) 2 * 0.3)
    (pow (Rmax 0 (1 - dist / sphereRadius)) 2.5)
    (pulse u)
    (smoothstep sphereRadius (sphereRadius * 0.4) dist)
    (smoothstep (-0.7) 0.4 (v2y uv)).

(** [// Tone mapping]: [color / (color + vec3(0.45)) * 1.35] *)
Definition tone (c : R) : R := c / (c + 0.45) * 1.35.
Definition tone_map (color : vec3) : vec3 := map3v tone color.

(** [main] from its second line on, for a given body of the block
    [if (u_reflections > 0.0) { ... }].  The argument [uv] is the
    fragment's [v_uv * 2.0 - 1.0]; this is [shade] of the specification. *)
Definition shade_with (reflect : Uniforms -> vec2 -> vec3 -> vec3)
  (u : Uniforms) (uv : vec2) : vec4 :=
  let dist := length2 uv in
  let sphere := sphere_of dist in
  if Rlt_dec sphere 0.001 then Vec4 0 0 0 0
  else
    let color := lit_color u uv in
    let color :=
      if Rlt_dec 0 (u_reflections u) then reflect u uv color else color in
    let finalColor := tone_map color in
    Vec4 (v3x finalColor) (v3y finalColor) (v3z finalColor) sphere.

(* ---------------------------------------------------------------------- *)
(** *** The reflections of [src/HAL.tsx]: hard shapes *)

(** [// Main top arc]: the final value of [topArc]. *)
Definition topArc (uv : vec2) : R :=
  let topArcRadius := 0.52 in
  let topArcCenter := Vec2 0 (-0.08) in
  let topArcDist := length2 (sub2 uv topArcCenter) in
  let topArc := step (topArcRadius - 0.025) topArcDist
                * step topArcDist (topArcRadius + 0.025) in
  let topArc := topArc * step 0.28 (v2y uv) in
  topArc * (step (-0.38) (v2x uv) * step (v2x uv) 0.38).

Definition leftArcRadius : R := 0.38.

(** [// Left side arc reflection]: the final value of [leftArc]. *)
Definition leftArc (uv : vec2) : R :=
  let leftArcCenter := Vec2 0.15 0 in
  let leftArcDist := length2 (sub2 uv leftArcCenter) in
  let leftArc := step (leftArcRadius - 0.018) leftArcDist
                 * step leftArcDist (leftArcRadius + 0.018) in
  let leftArc := leftArc * (step (-0.42) (v2x uv) * step (v2x uv) (-0.18)) in
  leftArc * (step 0 (v2y uv) * step (v2y uv) 0.32).

(** [// Right side arc reflection]: the final value of [rightArc]. *)
Definition rightArc (uv : vec2) : R :=
  let rightArcCenter := Vec2 (-0.15) 0 in
  let rightArcDist := length2 (sub2 uv rightArcCenter) in
  let rightArc := step (leftArcRadius - 0.018) rightArcDist
                  * step rightArcDist (leftArcRadius + 0.018) in
  let rightArc := rightArc * (step 0.18 (v2x uv) * step (v2x uv) 0.42) in
  rightArc * (step 0 (v2y uv) * step (v2y uv) 0.32).

(** A hard rectangle: [vec2 d = abs(uv - center);
    step(d.x, halfWidth) * step(d.y, halfHeight)]. *)
Definition dash (uv center : vec2) (halfWidth halfHeight : R) : R :=
  let d := map2v abs (sub2 uv center) in
  step (v2x d) halfWidth * step (v2y d) halfHeight.

(** The value of [ref] before [ref = min(ref, 1.0) * u_reflections]. *)
Definition ref_sum (uv : vec2) : R :=
  let ref := 0 in
  let ref := ref + topArc uv in
  let ref := ref + leftArc uv * 0.9 in
  let ref := ref + rightArc uv * 0.9 in
  (* Small rectangular dash reflections *)
  let dash1 := dash uv (Vec2 (-0.22) 0.42) 0.06 0.018 in
  let ref := ref + dash1 * 0.85 in
  let dash2 := dash uv (Vec2 0.22 0.42) 0.06 0.018 in
  let ref := ref + dash2 * 0.85 in
  let dash3 := dash uv (Vec2 (-0.38) 0.18) 0.035 0.012 in
  let ref := ref + dash3 * 0.7 in
  let dash4 := dash uv (Vec2 0.38 0.18) 0.035 0.012 in
  let ref := ref + dash4 * 0.7 in
  let dash5 := dash uv (Vec2 (-0.28) (-0.05)) 0.025 0.01 in
  let ref := ref + dash5 * 0.6 in
  let dash6 := dash uv (Vec2 0.28 (-0.05)) 0.025 0.01 in
  let ref := ref + dash6 * 0.6 in
  let dash7 := dash uv (Vec2 0 (-0.35)) 0.04 0.015 in
  let ref := ref + dash7 * 0.5 in
  ref.

(** The body of [if (u_reflections > 0.0)] in [src/HAL.tsx]. *)
Definition reflections_hal (u : Uniforms) (uv : vec2) (color : vec3) : vec3 :=
  let ref := Rmin (ref_sum uv) 1 * u_reflections u in
  (* Hard white overlay *)
  mix3 color (splat3 1) ref.

(** [shade] for the shader of [src/HAL.tsx]. *)
Definition shade : Uniforms -> vec2 -> vec4 := shade_with reflections_hal.

(** [void main()] of [src/HAL.tsx], from the varying [v_uv]. *)
Definition main (u : Uniforms) (v_uv : vec2) : vec4 :=
  shade u (map2v (fun c => c * 2 - 1) v_uv).

(* ---------------------------------------------------------------------- *)
(** *** The reflections of the second copy: soft lens shapes *)

Definition sdRoundRect (p b : vec2) (r : R) : R :=
  let q := sub2 (map2v abs p) b in
  length2 (map2v (fun c => Rmax c 0) q) + Rmin (Rmax (v2x q) (v2y q)) 0 - r.

Definition roundRectMask (u : Uniforms) (p halfSize : vec2) (radius softness : R)
  : R :=
  let d := sdRoundRect p halfSize radius in
  let aa := 2 / Rmin (v2x (u_resolution u)) (v2y (u_resolution u)) in
  let m := 1 - smoothstep 0 (aa + softness) d in
  let depth := Rmin (v2x halfSize) (v2y halfSize) * 0.85 in
  let taper := 1 - smoothstep (- depth) 0 d in
  m * taper.

Definition ringMask (u : Uniforms) (p center : vec2) (radius halfWidth softness : R)
  : R :=
  let d := abs (length2 (sub2 p center) - radius) in
  let aa := 2 / Rmin (v2x (u_resolution u)) (v2y (u_resolution u)) in
  let m := 1 - smoothstep halfWidth (halfWidth + aa + softness) d in
  let taper := 1 - smoothstep 0 halfWidth d in
  m * taper.

(** The warped point [rp] at which the lens shapes are evaluated. *)
Definition lens_point (uv : vec2) : vec2 :=
  let normal := sphere_normal uv in
  let z := sphere_z uv in
  let rp := uv in
  let rp := add2 rp (Vec2 (v3x normal * (0.065 * (1 - z)))
                          (v3y normal * (0.065 * (1 - z)))) in
  Vec2 (v2x rp) (v2y rp * 1.03).

Definition soft : R := 0.014.

(** The value of [refCore] before it is clamped. *)
Definition refCore (u : Uniforms) (rp : vec2) : R :=
  let refCore := 0 in
  let top := ringMask u rp (Vec2 0 0.06) 0.66 0.020 (soft * 0.55) in
  let topY := smoothstep 0.30 0.48 (v2y rp) in
  let top := top * topY in
  let top := top * (1 - smoothstep 0.52 0.76 (abs (v2x rp))) in
  let topInner := ringMask u rp (Vec2 0 0.08) 0.62 0.012 (soft * 0.45) in
  let topInner := topInner * topY in
  let topInner := topInner * (1 - smoothstep 0.48 0.72 (abs (v2x rp))) in
  let refCore := refCore + (top * 1.10 + topInner * 0.85) in
  let sideL := ringMask u rp (Vec2 0.20 0.02) 0.48 0.010 (soft * 0.55) in
  let sideL := sideL * (smoothstep (-0.02) 0.16 (v2y rp)
                        * (1 - smoothstep 0.24 0.40 (v2y rp))) in
  let sideL := sideL * (smoothstep (-0.56) (-0.38) (v2x rp)
                        * (1 - smoothstep (-0.18) (-0.04) (v2x rp))) in
  let refCore := refCore + sideL * 0.55 in
  let sideR := ringMask u rp (Vec2 (-0.20) 0.02) 0.48 0.010 (soft * 0.55) in
  let sideR := sideR * (smoothstep (-0.02) 0.16 (v2y rp)
                        * (1 - smoothstep 0.24 0.40 (v2y rp))) in
  let sideR := sideR * (smoothstep 0.04 0.18 (v2x rp)
                        * (1 - smoothstep 0.38 0.56 (v2x rp))) in
  let refCore := refCore + sideR * 0.55 in
  let dTopL := roundRectMask u (sub2 rp (Vec2 (-0.25) 0.62)) (Vec2 0.115 0.018)
                 0.012 (soft * 0.75) in
  let dTopR := roundRectMask u (sub2 rp (Vec2 0.25 0.62)) (Vec2 0.115 0.018)
                 0.012 (soft * 0.75) in
  let dTopC := roundRectMask u (sub2 rp (Vec2 0 0.53)) (Vec2 0.080 0.015)
                 0.011 (soft * 0.75) in
  let dMidL := roundRectMask u (sub2 rp (Vec2 (-0.40) 0.22)) (Vec2 0.040 0.014)
                 0.010 (soft * 0.8) in
  let dMidR := roundRectMask u (sub2 rp (Vec2 0.40 0.22)) (Vec2 0.040 0.014)
                 0.010 (soft * 0.8) in
  let dLowL := roundRectMask u (sub2 rp (Vec2 (-0.30) (-0.06))) (Vec2 0.030 0.012)
                 0.010 (soft * 0.75) in
  let dLowR := roundRectMask u (sub2 rp (Vec2 0.30 (-0.06))) (Vec2 0.030 0.012)
                 0.010 (soft * 0.75) in
  let dBot := roundRectMask u (sub2 rp (Vec2 0 (-0.36))) (Vec2 0.050 0.016)
                0.012 (soft * 0.75) in
  let refCore := refCore + (dTopL * 0.88 + dTopR * 0.88 + dTopC * 0.55) in
  let refCore := refCore + (dMidL * 0.62 + dMidR * 0.62) in
  let refCore := refCore + (dLowL * 0.48 + dLowR * 0.48) in
  let refCore := refCore + dBot * 0.34 in
  refCore.

(** The value of [refGlow] before it is clamped. *)
Definition refGlow (u : Uniforms) (rp : vec2) : R :=
  let refGlow := 0 in
  let topY := smoothstep 0.30 0.48 (v2y rp) in
  let topHalo := ringMask u rp (Vec2 0 0.06) 0.66 0.054 (soft * 2.0) * topY in
  let topHalo := topHalo * (1 - smoothstep 0.40 0.78 (abs (v2x rp))) in
  let refGlow := refGlow + topHalo * 0.55 in
  let sideL := ringMask u rp (Vec2 0.20 0.02) 0.48 0.010 (soft * 0.55) in
  let sideL := sideL * (smoothstep (-0.02) 0.16 (v2y rp)
                        * (1 - smoothstep 0.24 0.40 (v2y rp))) in
  let sideL := sideL * (smoothstep (-0.56) (-0.38) (v2x rp)
                        * (1 - smoothstep (-0.18) (-0.04) (v2x rp))) in
  let refGlow := refGlow
    + ringMask u rp (Vec2 0.20 0.02) 0.48 0.030 (soft * 1.6) * sideL * 0.30 in
  let sideR := ringMask u rp (Vec2 (-0.20) 0.02) 0.48 0.010 (soft * 0.55) in
  let sideR := sideR * (smoothstep (-0.02) 0.16 (v2y rp)
                        * (1 - smoothstep 0.24 0.40 (v2y rp))) in
  let sideR := sideR * (smoothstep 0.04 0.18 (v2x rp)
                        * (1 - smoothstep 0.38 0.56 (v2x rp))) in
  let refGlow := refGlow
    + ringMask u rp (Vec2 (-0.20) 0.02) 0.48 0.030 (soft * 1.6) * sideR * 0.30 in
  let refGlow := refGlow
    + roundRectMask u (sub2 rp (Vec2 (-0.25) 0.62)) (Vec2 0.140 0.030)
        0.016 (soft * 2.0) * 0.20 in
  let refGlow := refGlow
    + roundRectMask u (sub2 rp (Vec2 0.25 0.62)) (Vec2 0.140 0.030)
        0.016 (soft * 2.0) * 0.20 in
  let refGlow := refGlow
    + roundRectMask u (sub2 rp (Vec2 0 0.53)) (Vec2 0.110 0.028)
        0.016 (soft * 2.0) * 0.12 in
  refGlow.

(** The body of [if (u_reflections > 0.0)] in the second copy. *)
Definition reflections_lens (u : Uniforms) (uv : vec2) (color : vec3) : vec3 :=
  let rp := lens_point uv in
  (* Fresnel-boosted strength *)
  let edgeBoost := mix 0.35 1 (clamp (fresnel (sphere_normal uv) * 2.4) 0 1) in
  let refMask := clamp (refCore u rp) 0 1 in
  let glowMask := clamp (refGlow u rp) 0 1 in
  let strength := u_reflections u * edgeBoost in
  (* Additive highlight + gentle lift *)
  let refColor := splat3 1 in
  let color :=
    add3 color (scale3 (scale3 refColor (refMask * 0.70 + glowMask * 0.26)) strength) in
  mix3 color (splat3 1) ((refMask * 0.12 + glowMask * 0.07) * strength).

(** One channel through the overlay of [src/HAL.tsx]. *)
Definition hal_channel (u : Uniforms) (uv : vec2) (c : R) : R :=
  mix c 1 (Rmin (ref_sum uv) 1 * u_reflections u).

(** One channel through the overlay of the second copy. *)
Definition lens_channel (u : Uniforms) (uv : vec2) (c : R) : R :=
  let rp := lens_point uv in
  let edgeBoost := mix 0.35 1 (clamp (fresnel (sphere_normal uv) * 2.4) 0 1) in
  let refMask := clamp (refCore u rp) 0 1 in
  let glowMask := clamp (refGlow u rp) 0 1 in
  let strength := u_reflections u * edgeBoost in
  mix (c + 1 * (refMask * 0.70 + glowMask * 0.26) * strength) 1
      ((refMask * 0.12 + glowMask * 0.07) * strength).

(** [shade] for the shader of the second copy. *)
Definition shade_lens : Uniforms -> vec2 -> vec4 := shade_with reflections_lens.

Definition main_lens (u : Uniforms) (v_uv : vec2) : vec4 :=
  shade_lens u (map2v (fun c => c * 2 - 1) v_uv).

End Frag.

(* ====================================================================== *)
(** ** From the component's state to the shader's uniforms *)
(* ====================================================================== *)

Module Render.

Import Glsl Frag.
Local Open Scope R_scope.

(** [gl.uniform3fv(location, color)] *)
Definition vec3_of_rgb (c : Hal.rgb) : vec3 :=
  Vec3 (Q2R (Hal.idx0 c)) (Q2R (Hal.idx1 c)) (Q2R (Hal.idx2 c)).

(** The [gl.uniform*] calls of [render]: [time] is in seconds (after
    [time *= 0.001]), [resolution] is the canvas size, [reflectionValue]
    the number computed from the [reflections] prop. *)
Definition uniforms (current : Hal.Params) (time : R) (resolution : vec2)
  (reflectionValue : Q) : Uniforms :=
  let a := Hal.anim current in
  {| u_time := time;
     u_resolution := resolution;
     u_baseColor := vec3_of_rgb (Hal.baseColor current);
     u_midColor := vec3_of_rgb (Hal.midColor current);
     u_highlight := vec3_of_rgb (Hal.p_highlight current);
     u_pulseSpeed := Q2R (Hal.pulseSpeed a);
     u_pulseAmount := Q2R (Hal.pulseAmount a);
     u_cloudSpeed := Q2R (Hal.cloudSpeed a);
     u_cloudIntensity := Q2R (Hal.cloudIntensity a);
     u_highlightDrift := Q2R (Hal.highlightDrift a);
     u_highlightSize := Q2R (Hal.highlightSize a);
     u_highlightPulse := Q2R (Hal.highlightPulse a);
     u_reflections := Q2R reflectionValue |}.

End Render.

(* ====================================================================== *)
(** ** Vocabulary of the specification *)
(* ====================================================================== *)

Module Spec.

Import Hal.
Local Open Scope Q_scope.

(** Channel-wise equality of colours and of schemes, up to the value of
    the rationals. *)
Definition rgb_eq (a b : rgb) : Prop :=
  idx0 a == idx0 b /\ idx1 a == idx1 b /\ idx2 a == idx2 b.

Definition scheme_eq (s1 s2 : ColorScheme) : Prop :=
  rgb_eq (base s1) (base s2) /\ rgb_eq (mid s1) (mid s2)
  /\ rgb_eq (highlight s1) (highlight s2).

(** The three colours of a resolved state. *)
Definition colors_of (p : Params) : ColorScheme :=
  {| base := baseColor p; mid := midColor p; highlight := p_highlight p |}.

(** A scheme scaled channel-wise by a factor. *)
Definition scaled (k : Q) (s : ColorScheme) : ColorScheme :=
  {| base := map3 (fun c => k * c) (base s);
     mid := map3 (fun c => k * c) (mid s);
     highlight := map3 (fun c => k * c) (highlight s) |}.

(** The same configuration under another preset. *)
Definition with_preset (q : HALPreset) (props : HALProps) : HALProps :=
  {| preset := q;
     color := color props;
     presetColors := presetColors props;
     colorScheme := colorScheme props;
     animation := animation props;
     transitionSpeed := transitionSpeed props;
     reflections := reflections props |}.

(** A configuration with nothing but a preset: no color, presetColors,
    colorScheme or animation. *)
Definition bare (p : HALPreset) (speed : Q) (r : Reflections) : HALProps :=
  {| preset := p; color := None; presetColors := None; colorScheme := None;
     animation := None; transitionSpeed := speed; reflections := r |}.

(** "0.299r + 0.587g + 0.114b" *)
Definition luminance (c : rgb) : Q :=
  0.299 * idx0 c + 0.587 * idx1 c + 0.114 * idx2 c.

(** "(max - min)/max, 0 if max is 0" *)
Definition saturation (c : rgb) : Q :=
  let hi := Qmax (idx0 c) (Qmax (idx1 c) (idx2 c)) in
  let lo := Qmin (idx0 c) (Qmin (idx1 c) (idx2 c)) in
  if Qeq_bool hi 0 then 0 else (hi - lo) / hi.

Definition gray (v : Q) : rgb := (v, v, v).

(** "base = 0.4 x luminance gray, mid = 0.8 x luminance gray, highlight =
    near-white 0.95 gray" *)
Definition monochrome (c : rgb) : ColorScheme :=
  {| base := gray (0.4 * luminance c);
     mid := gray (0.8 * luminance c);
     highlight := gray 0.95 |}.

(** "base = 0.5 x input, mid = min(1, 1.2 x input), highlight =
    min(1, 0.5 x input + 0.5)" *)
Definition chromatic (c : rgb) : ColorScheme :=
  {| base := map3 (fun v => 0.5 * v) c;
     mid := map3 (fun v => Qmin 1 (1.2 * v)) c;
     highlight := map3 (fun v => Qmin 1 (0.5 * v + 0.5)) c |}.

(** A hexadecimal digit, in either case, and its value. *)
Definition hex_digits : list (ascii * Z) :=
  [ ("0"%char, 0%Z); ("1"%char, 1%Z); ("2"%char, 2%Z); ("3"%char, 3%Z);
    ("4"%char, 4%Z); ("5"%char, 5%Z); ("6"%char, 6%Z); ("7"%char, 7%Z);
    ("8"%char, 8%Z); ("9"%char, 9%Z);
    ("a"%char, 10%Z); ("b"%char, 11%Z); ("c"%char, 12%Z);
    ("d"%char, 13%Z); ("e"%char, 14%Z); ("f"%char, 15%Z);
    ("A"%char, 10%Z); ("B"%char, 11%Z); ("C"%char, 12%Z);
    ("D"%char, 13%Z); ("E"%char, 14%Z); ("F"%char, 15%Z) ].

Definition hex_digit (c : ascii) (v : Z) : Prop := In (c, v) hex_digits.

(** A "6-hex-digit color (leading # optional, case-insensitive)" with the
    three bytes it denotes. *)
Inductive hex_color : string -> Z -> Z -> Z -> Prop :=
  | hex_plain c1 c2 c3 c4 c5 c6 v1 v2 v3 v4 v5 v6 :
      hex_digit c1 v1 -> hex_digit c2 v2 -> hex_digit c3 v3 ->
      hex_digit c4 v4 -> hex_digit c5 v5 -> hex_digit c6 v6 ->
      hex_color
        (String c1 (String c2 (String c3 (String c4 (String c5 (String c6
           EmptyString))))))
        (16 * v1 + v2) (16 * v3 + v4) (16 * v5 + v6)
  | hex_sharp s r g b :
      hex_color s r g b -> String.length s = 6%nat ->
      hex_color (String "#" s) r g b.

Definition malformed (s : string) : Prop := forall r g b, ~ hex_color s r g b.

(** The same uniforms with another reflection intensity. *)
Definition with_reflections (r : R) (u : Frag.Uniforms) : Frag.Uniforms :=
  {| Frag.u_time := Frag.u_time u;
     Frag.u_resolution := Frag.u_resolution u;
     Frag.u_baseColor := Frag.u_baseColor u;
     Frag.u_midColor := Frag.u_midColor u;
     Frag.u_highlight := Frag.u_highlight u;
     Frag.u_pulseSpeed := Frag.u_pulseSpeed u;
     Frag.u_pulseAmount := Frag.u_pulseAmount u;
     Frag.u_cloudSpeed := Frag.u_cloudSpeed u;
     Frag.u_cloudIntensity := Frag.u_cloudIntensity u;
     Frag.u_highlightDrift := Frag.u_highlightDrift u;
     Frag.u_highlightSize := Frag.u_highlightSize u;
     Frag.u_highlightPulse := Frag.u_highlightPulse u;
     Frag.u_reflections := r |}.

(** The circular mask as a function of the distance from the centre. *)
Definition mask (dist : R) : R :=
  if Rlt_dec (Frag.sphere_of dist) 0.001 then 0%R else Frag.sphere_of dist.

(** The three colour channels of a fragment next to those of a colour. *)
Definition channels : list ((Glsl.vec3 -> R) * (Glsl.vec4 -> R)) :=
  [ (Glsl.v3x, Glsl.v4x); (Glsl.v3y, Glsl.v4y); (Glsl.v3z, Glsl.v4z) ].

(** The default orb while speaking, on its first frame (time 0, the
    current state still equal to the target), on a 600 x 600 canvas, with
    [reflections = { enabled: true, intensity: 1 }]. *)
Definition speaking_orb : Frag.Uniforms :=
  Render.uniforms
    (targetState (bare speaking 1 (ReflOptions (Some true) (Some 1))))
    0 (Glsl.Vec2 600 600)
    (reflectionValue (ReflOptions (Some true) (Some 1))).

(** The default orb asleep, on its first frame, with [reflections] set to
    [true]. *)
Definition asleep_orb : Frag.Uniforms :=
  Render.uniforms
    (targetState (bare asleep 1 (ReflBool true)))
    0 (Glsl.Vec2 600 600) (reflectionValue (ReflBool true)).

(** A point of the top arc, above the centre of the orb. *)
Definition on_top_arc : Glsl.vec2 := Glsl.Vec2 0 0.432.

(** The listening orb with [animation = { highlightSize: 30 }], far above
    the documented range, on its first frame, with [reflections] set to
    [true]. *)
Definition oversized_orb : Frag.Uniforms :=
  Render.uniforms
    (targetState
       {| preset := listening; color := None; presetColors := None;
          colorScheme := None;
          animation :=
            Some (mkAnimOpt None None None None None (Some 30) None);
          transitionSpeed := 1; reflections := ReflBool true |})
    0 (Glsl.Vec2 600 600) (reflectionValue (ReflBool true)).

(** A point of the bottom dash of the lens reflections, below the centre:
    its sphere normal is (0, -8/17, 15/17). *)
Definition on_bottom_dash : Glsl.vec2 := Glsl.Vec2 0 (- (0.72 * 8 / 17)).

End Spec.

(* ====================================================================== *)
(** ** The driver: canvas, frames and the vertex shader *)
(* ====================================================================== *)

Module Loop.

Import Hal.
Local Open Scope Q_scope.

(** [n] consecutive calls of [render] by [requestAnimationFrame] while the
    props do not change: the interpolation of each call starts from the
    state the previous call stored in [currentParamsRef.current]. *)
Fixpoint frames (n : nat) (current target : Params) (transitionSpeed : Q)
  : Params :=
  match n with
  | O => current
  | S k => frames k (advance current target transitionSpeed) target
             transitionSpeed
  end.

(** One call of [render(time)]: the new [current] and the uniforms set
    before [gl.drawArrays].  [time] is the timestamp in milliseconds;
    [canvas] holds [canvas.width] and [canvas.height] as the call reads
    them. *)
Definition render (props : HALProps) (canvas : Glsl.vec2) (current : Params)
  (time : R) : Params * Frag.Uniforms :=
  let time := (time * 0.001)%R in
  let current := advance current (targetState props) (transitionSpeed props) in
  (current,
   Render.uniforms current time canvas
     (reflectionValue (reflections props))).

End Loop.

Module Vertex.

Import Glsl.
Local Open Scope R_scope.

(** The outputs of [VERTEX_SHADER]. *)
Record VertexOut : Type := mkVertexOut {
  v_uv : vec2;
  gl_Position : vec4
}.

(** [void main()] of [VERTEX_SHADER]. *)
Definition main (a_position : vec2) : VertexOut :=
  {| v_uv := map2v (fun c => c * 0.5 + 0.5) a_position;
     gl_Position := Vec4 (v2x a_position) (v2y a_position) 0 1 |}.

(** The four corners bound to [a_position], drawn as a triangle strip. *)
Definition quad : list vec2 :=
  [Vec2 (-1) (-1); Vec2 1 (-1); Vec2 (-1) 1; Vec2 1 1].

End Vertex.

(* ====================================================================== *)
(** ** Further vocabulary *)
(* ====================================================================== *)

Module Terms.

Import Hal Spec.

(** Upper and lower case of the ASCII letters, as [String.prototype]
    [toUpperCase] and [toLowerCase] act on them. *)
Definition upper (c : ascii) : ascii :=
  if ascii_in "a" "z" c then ascii_of_nat (nat_of_ascii c - 32) else c.

Definition lower (c : ascii) : ascii :=
  if ascii_in "A" "Z" c then ascii_of_nat (nat_of_ascii c + 32) else c.

Fixpoint map_string (f : ascii -> ascii) (s : string) : string :=
  match s with
  | EmptyString => EmptyString
  | String c rest => String (f c) (map_string f rest)
  end.

Definition toUpperCase : string -> string := map_string upper.
Definition toLowerCase : string -> string := map_string lower.

Section Rationals.

Local Open Scope Q_scope.

(** A colour with every channel in [0, 1]. *)
Definition in_unit (c : rgb) : Prop :=
  (0 <= idx0 c <= 1) /\ (0 <= idx1 c <= 1) /\ (0 <= idx2 c <= 1).

Definition scheme_in_unit (s : ColorScheme) : Prop :=
  in_unit (base s) /\ in_unit (mid s) /\ in_unit (highlight s).

(** Channel-wise order of two colours. *)
Definition rgb_le (a b : rgb) : Prop :=
  idx0 a <= idx0 b /\ idx1 a <= idx1 b /\ idx2 a <= idx2 b.

(** The fields of an explicit [colorScheme] that are present lie in
    [0, 1]. *)
Definition given_in_unit (cs : HALColorScheme) : Prop :=
  (forall c, o_base cs = Some c -> in_unit c)
  /\ (forall c, o_mid cs = Some c -> in_unit c)
  /\ (forall c, o_highlight cs = Some c -> in_unit c).

(** The same configuration with another [color]. *)
Definition with_color (c : option string) (props : HALProps) : HALProps :=
  {| preset := preset props;
     color := c;
     presetColors := presetColors props;
     colorScheme := colorScheme props;
     animation := animation props;
     transitionSpeed := transitionSpeed props;
     reflections := reflections props |}.

(** The scalar fields that [render] smooths, and the scalar readings of
    the three colours. *)
Definition smoothed_scalars : list (Params -> Q) :=
  [ fun p => highlightSize (anim p); fun p => highlightPulse (anim p);
    fun p => cloudIntensity (anim p); fun p => pulseAmount (anim p) ].

Definition color_channels : list (Params -> Q) :=
  [ fun p => idx0 (baseColor p); fun p => idx1 (baseColor p);
    fun p => idx2 (baseColor p);
    fun p => idx0 (midColor p); fun p => idx1 (midColor p);
    fun p => idx2 (midColor p);
    fun p => idx0 (p_highlight p); fun p => idx1 (p_highlight p);
    fun p => idx2 (p_highlight p) ].

Definition smoothed : list (Params -> Q) := color_channels ++ smoothed_scalars.

(** The fields that [render] copies from the target. *)
Definition snapped : list (Params -> Q) :=
  [ fun p => pulseSpeed (anim p); fun p => cloudSpeed (anim p);
    fun p => highlightDrift (anim p) ].

(** A state whose colours are in [0, 1] and whose smoothed scalars are in
    the ranges for which the shader adds non-negative light. *)
Definition anim_in_range (a : AnimationParams) : Prop :=
  0 <= cloudIntensity a <= 1 /\ 0 <= highlightSize a
  /\ 0 <= highlightPulse a <= 2 # 3 /\ 0 <= pulseAmount a <= 1.

Definition params_in_range (p : Params) : Prop :=
  scheme_in_unit (colors_of p) /\ anim_in_range (anim p).

(** [q] to the power [n]. *)
Fixpoint qpow (q : Q) (n : nat) : Q :=
  match n with
  | O => 1
  | S k => q * qpow q k
  end.

(** The [reflections] values for which no overlay is requested. *)
Definition reflections_off (r : Reflections) : Prop :=
  match r with
  | ReflBool b => b = false
  | ReflOptions e _ => e <> Some true
  end.


End Rationals.

Section RealTerms.

Import Glsl Frag.
Local Open Scope R_scope.

(** The fragment mirrored in the vertical axis. *)
Definition mirror (uv : vec2) : vec2 := Vec2 (- v2x uv) (v2y uv).

(** Uniforms within the ranges for which the composition is a sum of
    non-negative light: colours not negative, cloud intensity in [0, 1],
    highlight size not negative, highlight pulse at most 2/3, pulse amount
    at most 1, reflections in [0, 1]. *)
Definition vec3_nonneg (v : vec3) : Prop :=
  0 <= v3x v /\ 0 <= v3y v /\ 0 <= v3z v.

Definition in_range (u : Uniforms) : Prop :=
  vec3_nonneg (u_baseColor u) /\ vec3_nonneg (u_midColor u)
  /\ vec3_nonneg (u_highlight u)
  /\ 0 <= u_cloudIntensity u <= 1
  /\ 0 <= u_highlightSize u
  /\ 0 <= u_highlightPulse u <= 2 / 3
  /\ 0 <= u_pulseAmount u <= 1
  /\ 0 <= u_reflections u <= 1.

(** [main] with an empty reflections block. *)
Definition shade_plain : Uniforms -> vec2 -> vec4 :=
  shade_with (fun _ _ color => color).

End RealTerms.

End Terms.

(* ====================================================================== *)
(** ** Properties of the TypeScript component *)
(* ====================================================================== *)

Section HalFacts.

Import Hal Spec.
Local Open Scope Q_scope.

Lemma Qltb_spec (x y : Q) : Qltb x y = true <-> x < y.
Proof.
  unfold Qltb. rewrite negb_true_iff.
  split; intro H.
  - apply Qnot_le_lt. intro Hle. apply Qle_bool_iff in Hle. congruence.
  - destruct (Qle_bool y x) eqn:E; [|reflexivity].
    apply Qle_bool_iff in E. exfalso. exact (Qlt_not_le _ _ H E).
Qed.

Lemma Qltb_false (x y : Q) : Qltb x y = false <-> ~ x < y.
Proof.
  rewrite <- Qltb_spec. destruct (Qltb x y); split; congruence.
Qed.

(* ---------------------------------------------------------------------- *)
(** *** The interpolation step *)

(** C2, as the specification states it, fails: at [transitionSpeed = 100]
    the step of one frame is 1.5, while the clamped value would be 1; a
    field at 0 heading for 1 lands on 1.5. *)
Lemma render_t_exceeds_one :
  render_t 100 == 1.5
  /\ Hal.clamp (0.015 * 100) 0 1 == 1
  /\ ~ render_t 100 == Hal.clamp (0.015 * 100) 0 1
  /\ ~ render_t 100 <= 1
  /\ forall cur tgt,
       highlightSize (anim cur) == 0 -> highlightSize (anim tgt) == 1 ->
       highlightSize (anim (advance cur tgt 100)) == 1.5.
Proof.
  repeat split; try (vm_compute; congruence).
  intros cur tgt Hc Ht. simpl. unfold lerp. rewrite Hc, Ht.
  vm_compute. reflexivity.
Qed.

(** C2, amended: for every multiplier [m] the step of one frame is the
    product [0.015 * m], unclamped (it is the third argument of every
    [lerp] of [advance]); it coincides with [clamp(0.015 * m, 0, 1)]
    exactly when [0 <= 0.015 * m <= 1]. *)
Theorem render_t_unclamped (m : Q) :
  render_t m = 0.015 * m
  /\ (forall cur tgt,
        highlightSize (anim (advance cur tgt m))
        = lerp (highlightSize (anim cur)) (highlightSize (anim tgt)) (0.015 * m))
  /\ (render_t m == Hal.clamp (0.015 * m) 0 1 <-> 0 <= 0.015 * m <= 1).
Proof.
  split; [reflexivity|]. split; [reflexivity|].
  unfold render_t, Hal.clamp.
  set (x := 0.015 * m).
  split.
  - intro H.
    destruct (Q.min_spec (Qmax x 0) 1) as [[Hlt E]|[Hle E]];
      destruct (Q.max_spec x 0) as [[Hlt' E']|[Hle' E']];
      rewrite E in H; try rewrite E' in H; try rewrite E' in Hlt;
      try rewrite E' in Hle; split; Lqa.lra.
  - intros [H0 H1].
    rewrite (proj2 (Q.max_l_iff x 0) H0).
    rewrite (proj2 (Q.min_l_iff x 1) H1). reflexivity.
Qed.

Lemma render_t_unclamped_witness :
  render_t 1 == Hal.clamp (0.015 * 1) 0 1.
Proof.
  apply (proj2 (proj2 (render_t_unclamped 1))).
  split; vm_compute; congruence.
Defined.

(* ---------------------------------------------------------------------- *)
(** *** The preset table *)

(** C3, as the specification states it, fails: the chain
    asleep < idle < listening < thinking < speaking does not hold for
    [highlightDrift], because idle drifts (0.25) and listening does not. *)
Lemma highlightDrift_chain_fails :
  let hd p := highlightDrift (PRESET_ANIMATIONS p) in
  ~ (hd asleep < hd idle /\ hd idle < hd listening
     /\ hd listening < hd thinking /\ hd thinking < hd speaking).
Proof.
  intros hd (_ & H & _). vm_compute in H. discriminate.
Qed.

(** C3, amended: [pulseSpeed] satisfies
    asleep < idle < listening = thinking < speaking; [highlightDrift]
    satisfies listening = 0 < asleep < idle < thinking < speaking, and
    listening is the only preset whose [highlightDrift] is 0. *)
Theorem preset_ordering :
  let ps p := pulseSpeed (PRESET_ANIMATIONS p) in
  let hd p := highlightDrift (PRESET_ANIMATIONS p) in
  (ps asleep < ps idle /\ ps idle < ps listening
   /\ ps listening = ps thinking /\ ps thinking < ps speaking)
  /\ (hd listening == 0 /\ hd listening < hd asleep /\ hd asleep < hd idle
      /\ hd idle < hd thinking /\ hd thinking < hd speaking)
  /\ (forall p, hd p == 0 -> p = listening).
Proof.
  intros ps hd. repeat split.
  intros [] H; try reflexivity; vm_compute in H; discriminate.
Qed.

Lemma preset_ordering_witness :
  highlightDrift (PRESET_ANIMATIONS listening) == 0 /\ listening = listening.
Proof.
  split; [reflexivity|].
  apply (proj2 (proj2 preset_ordering)). reflexivity.
Defined.

(* ---------------------------------------------------------------------- *)
(** *** One tick *)

(** C4: one tick moves every channel of the three colours and
    [highlightSize], [highlightPulse], [cloudIntensity], [pulseAmount] to
    [current + (target - current) * t], with [t] the step of the frame,
    and copies [pulseSpeed], [cloudSpeed], [highlightDrift] from the
    target.  These are all the fields of the state. *)
Theorem advance_fields (cur tgt : Params) (m : Q) :
  let t := render_t m in
  let nxt := advance cur tgt m in
  let smooth c g := c + (g - c) * t in
  Forall (fun ch : rgb -> Q =>
            ch (baseColor nxt) = smooth (ch (baseColor cur)) (ch (baseColor tgt))
            /\ ch (midColor nxt) = smooth (ch (midColor cur)) (ch (midColor tgt))
            /\ ch (p_highlight nxt)
               = smooth (ch (p_highlight cur)) (ch (p_highlight tgt)))
         [idx0; idx1; idx2]
  /\ Forall (fun f : AnimationParams -> Q =>
               f (anim nxt) = smooth (f (anim cur)) (f (anim tgt)))
            [highlightSize; highlightPulse; cloudIntensity; pulseAmount]
  /\ Forall (fun f : AnimationParams -> Q => f (anim nxt) = f (anim tgt))
            [pulseSpeed; cloudSpeed; highlightDrift].
Proof.
  intros t nxt smooth.
  repeat split; repeat (constructor; [repeat split|]); constructor.
Qed.

(** At the fixed point a tick changes nothing, up to the value of the
    rationals. *)
Lemma advance_fixed_point (p : Params) (m : Q) :
  scheme_eq (colors_of (advance p p m)) (colors_of p)
  /\ Forall (fun f : AnimationParams -> Q => f (anim (advance p p m)) == f (anim p))
       [pulseSpeed; pulseAmount; cloudSpeed; cloudIntensity; highlightDrift;
        highlightSize; highlightPulse].
Proof.
  destruct p as [[[? ?] ?] [[? ?] ?] [[? ?] ?] []].
  split.
  - repeat split; cbn; unfold lerp; cbn; Lqa.lra.
  - repeat (constructor; [cbn; unfold lerp; Lqa.lra|]). constructor.
Qed.

(* ---------------------------------------------------------------------- *)
(** *** Resolution of the target state *)

(** C5: [preset = 'listening'] with no color, presetColors, colorScheme or
    animation resolves to the built-in red scheme and a [highlightDrift]
    of 0.0, whatever the transition speed and the reflections. *)
Theorem listening_defaults (speed : Q) (r : Reflections) :
  let st := targetState (bare listening speed r) in
  baseColor st = (0.6, 0.08, 0.15)
  /\ midColor st = (0.85, 0.15, 0.25)
  /\ p_highlight st = (1.0, 0.5, 0.6)
  /\ highlightDrift (anim st) = 0.0.
Proof. repeat split. Qed.

(** With every prop at its default the orb is idle and blue. *)
Example default_target :
  targetState default_props
  = {| baseColor := (0.08, 0.18, 0.55);
       midColor := (0.15, 0.35, 0.75);
       p_highlight := (0.5, 0.75, 1.0);
       anim := PRESET_ANIMATIONS idle |}.
Proof. reflexivity. Qed.

Lemma scaled_half (s t : ColorScheme) :
  base t = base s -> mid t = mid s -> highlight t = highlight s ->
  scheme_eq
    {| base := map3 (fun c => c * 0.5) (base s);
       mid := map3 (fun c => c * 0.5) (mid s);
       highlight := map3 (fun c => c * 0.5) (highlight s) |}
    (scaled 0.5 t).
Proof.
  destruct s as [[[? ?] ?] [[? ?] ?] [[? ?] ?]].
  destruct t as [tb tm th]. simpl. intros -> -> ->.
  repeat split; cbv [idx0 idx1 idx2 map3 base mid highlight scaled fst snd];
    Lqa.lra.
Qed.

(** C6: under [preset = 'asleep'], a configuration without [colorScheme]
    resolves to colours that are channel-wise 0.5 times the colours its
    resolution chain produced before the dimming; a configuration with a
    [colorScheme] keeps the colours of the chain undimmed. *)
Theorem asleep_halves
  (c : option string) (pc : option (HALPreset -> option string))
  (an : option HALAnimationParams) (speed : Q) (r : Reflections) :
  (let props := mkProps asleep c pc None an speed r in
   scheme_eq (colors_of (targetState props)) (scaled 0.5 (resolve_colors props)))
  /\ (forall cs,
        let props := mkProps asleep c pc (Some cs) an speed r in
        colors_of (targetState props) = resolve_colors props).
Proof.
  split.
  - intro props. unfold targetState, colors_of, dim_for_asleep. simpl.
    apply scaled_half; reflexivity.
  - intros cs props. unfold targetState, colors_of, dim_for_asleep. simpl.
    reflexivity.
Qed.

(** The same, against a resolution that is observably not dimmed: the
    configuration under another preset (other than listening) that has
    the same preset colour. *)
Lemma asleep_halves_other_preset (props : HALProps) (q : HALPreset) :
  preset props = asleep -> colorScheme props = None ->
  q <> asleep -> q <> listening ->
  presetColor (presetColors props) q = presetColor (presetColors props) asleep ->
  scheme_eq (colors_of (targetState props))
            (scaled 0.5 (colors_of (targetState (with_preset q props)))).
Proof.
  intros Hp Hcs Hq1 Hq2 Hpc.
  destruct props as [p c pc cs an sp r]. simpl in *. subst p cs.
  unfold targetState, colors_of, dim_for_asleep, resolve_colors, with_preset.
  simpl. rewrite Hpc.
  destruct q; try congruence; simpl; apply scaled_half; reflexivity.
Qed.

Lemma asleep_halves_other_preset_witness :
  scheme_eq (colors_of (targetState (bare asleep 1 (ReflBool false))))
            (scaled 0.5 (colors_of (targetState (bare idle 1 (ReflBool false))))).
Proof.
  apply (asleep_halves_other_preset (bare asleep 1 (ReflBool false)) idle);
    try reflexivity; discriminate.
Defined.

(* ---------------------------------------------------------------------- *)
(** *** [generateColorScheme] *)

Lemma Qmin_ext (a x y : Q) : x == y -> Qmin a x == Qmin a y.
Proof.
  intro H.
  destruct (Q.min_spec a x) as [[? ->]|[? ->]];
    destruct (Q.min_spec a y) as [[? ->]|[? ->]]; Lqa.lra.
Qed.

Lemma Qeq_bool_ext (x y : Q) : x == y -> Qeq_bool x 0 = Qeq_bool y 0.
Proof.
  intro H.
  destruct (Qeq_bool x 0) eqn:Ex; destruct (Qeq_bool y 0) eqn:Ey; try reflexivity.
  - apply Qeq_bool_iff in Ex. apply Qeq_bool_neq in Ey. exfalso. apply Ey.
    rewrite <- H. exact Ex.
  - apply Qeq_bool_iff in Ey. apply Qeq_bool_neq in Ex. exfalso. apply Ex.
    rewrite H. exact Ey.
Qed.

(** The saturation that the code computes is the proxy of the
    specification. *)
Lemma saturation_code (r g b : Q) :
  (if Qeqb0 (Qmax (Qmax r g) b) then 0
   else (Qmax (Qmax r g) b - Qmin (Qmin r g) b) / Qmax (Qmax r g) b)
  == saturation (r, g, b).
Proof.
  unfold saturation, Qeqb0. cbv [idx0 idx1 idx2 fst snd].
  assert (Hhi : Qmax (Qmax r g) b == Qmax r (Qmax g b))
    by (symmetry; apply Q.max_assoc).
  assert (Hlo : Qmin (Qmin r g) b == Qmin r (Qmin g b))
    by (symmetry; apply Q.min_assoc).
  rewrite (Qeq_bool_ext _ _ Hhi).
  destruct (Qeq_bool (Qmax r (Qmax g b)) 0); [reflexivity|].
  rewrite Hhi, Hlo. reflexivity.
Qed.

(** C7: [generateColorScheme] returns the monochrome scheme when the
    saturation proxy is below 0.1 and the chromatic scheme otherwise. *)
Theorem generateColorScheme_cases (c : rgb) :
  scheme_eq (generateColorScheme c)
    (if Qlt_le_dec (saturation c) 0.1 then monochrome c else chromatic c).
Proof.
  destruct c as [[r g] b]. unfold generateColorScheme.
  pose proof (saturation_code r g b) as Hs.
  set (sat := if Qeqb0 (Qmax (Qmax r g) b) then 0
              else (Qmax (Qmax r g) b - Qmin (Qmin r g) b) / Qmax (Qmax r g) b)
    in *.
  destruct (Qlt_le_dec (saturation (r, g, b)) 0.1) as [Hlt|Hge].
  - assert (E : Qltb sat 0.1 = true) by (apply Qltb_spec; rewrite Hs; exact Hlt).
    rewrite E.
    repeat split;
      cbv [idx0 idx1 idx2 fst snd base mid highlight monochrome gray luminance];
      Lqa.lra.
  - assert (E : Qltb sat 0.1 = false).
    { apply Qltb_false. rewrite Hs. apply Qle_not_lt. exact Hge. }
    rewrite E.
    repeat split;
      cbv [idx0 idx1 idx2 fst snd base mid highlight chromatic map3];
      try apply Qmin_ext; Lqa.lra.
Qed.

(** A gray input takes the monochrome branch, a saturated one the
    chromatic branch. *)
Example generateColorScheme_gray :
  scheme_eq (generateColorScheme (0.5, 0.5, 0.5))
    {| base := (0.2, 0.2, 0.2);
       mid := (0.4, 0.4, 0.4);
       highlight := (0.95, 0.95, 0.95) |}.
Proof. vm_compute. repeat split. Qed.

Example generateColorScheme_saturated :
  scheme_eq (generateColorScheme (0.8, 0.1, 0.1))
    {| base := (0.4, 0.05, 0.05);
       mid := (0.96, 0.12, 0.12);
       highlight := (0.9, 0.55, 0.55) |}.
Proof. vm_compute. repeat split. Qed.

(* ---------------------------------------------------------------------- *)
(** *** [hexToRgb] *)

(** The class [[a-f\d]] with the [i] flag is the set of hexadecimal digits,
    and [parseInt] reads their value. *)
Lemma class_af_d_digit (c : ascii) :
  class_af_d c = true -> exists v, digit16 c = Some v /\ hex_digit c v.
Proof.
  destruct c as [[] [] [] [] [] [] [] []]; intro H; vm_compute in H;
    try discriminate H;
    eexists; (split; [vm_compute; reflexivity|]);
    unfold hex_digit, hex_digits; simpl;
    repeat (first [left; reflexivity | right]).
Qed.

Lemma hex_digit_class (c : ascii) (v : Z) :
  hex_digit c v ->
  class_af_d c = true /\ digit16 c = Some v /\ c <> "#"%char.
Proof.
  unfold hex_digit, hex_digits. simpl. intro H.
  repeat (destruct H as [H|H];
          [inversion H; subst; repeat split; try reflexivity; discriminate|]).
  destruct H.
Qed.

Lemma regex_exec_not_sharp (c : ascii) (s : string) :
  c <> "#"%char -> regex_exec (String c s) = groups_to_end (String c s).
Proof.
  intro H.
  destruct c as [[] [] [] [] [] [] [] []];
    first [reflexivity | exfalso; apply H; reflexivity].
Qed.

Lemma group2_ok (c1 c2 : ascii) (rest : string) :
  class_af_d c1 = true -> class_af_d c2 = true ->
  group2 (String c1 (String c2 rest))
  = Some (String c1 (String c2 EmptyString), rest).
Proof. intros H1 H2. unfold group2. rewrite H1, H2. reflexivity. Qed.

Lemma group2_inv (s g rest : string) :
  group2 s = Some (g, rest) ->
  exists c1 c2, s = String c1 (String c2 rest)
                /\ class_af_d c1 = true /\ class_af_d c2 = true
                /\ g = String c1 (String c2 EmptyString).
Proof.
  destruct s as [|c1 [|c2 s']]; simpl; try discriminate.
  destruct (class_af_d c1) eqn:E1; destruct (class_af_d c2) eqn:E2;
    simpl; try discriminate.
  intros [= <- <-]. exists c1, c2. repeat split; assumption.
Qed.

Lemma groups_to_end_inv (s g1 g2 g3 : string) :
  groups_to_end s = Some (g1, g2, g3) ->
  exists c1 c2 c3 c4 c5 c6,
    s = String c1 (String c2 (String c3 (String c4 (String c5 (String c6
          EmptyString)))))
    /\ g1 = String c1 (String c2 EmptyString)
    /\ g2 = String c3 (String c4 EmptyString)
    /\ g3 = String c5 (String c6 EmptyString)
    /\ Forall (fun c => class_af_d c = true) [c1; c2; c3; c4; c5; c6].
Proof.
  unfold groups_to_end.
  destruct (group2 s) as [[h1 s1]|] eqn:E1; try discriminate.
  destruct (group2 s1) as [[h2 s2]|] eqn:E2; try discriminate.
  destruct (group2 s2) as [[h3 s3]|] eqn:E3; try discriminate.
  destruct s3; try discriminate. intros [= <- <- <-].
  apply group2_inv in E1, E2, E3.
  destruct E1 as (c1 & c2 & -> & ? & ? & ->).
  destruct E2 as (c3 & c4 & -> & ? & ? & ->).
  destruct E3 as (c5 & c6 & -> & ? & ? & ->).
  exists c1, c2, c3, c4, c5, c6. repeat split; repeat constructor; assumption.
Qed.

Lemma groups_to_end_plain (c1 c2 c3 c4 c5 c6 : ascii) :
  Forall (fun c => class_af_d c = true) [c1; c2; c3; c4; c5; c6] ->
  groups_to_end
    (String c1 (String c2 (String c3 (String c4 (String c5 (String c6
       EmptyString))))))
  = Some (String c1 (String c2 EmptyString),
          String c3 (String c4 EmptyString),
          String c5 (String c6 EmptyString)).
Proof.
  intro H.
  inversion H as [|? ? H1 T1]; subst. inversion T1 as [|? ? H2 T2]; subst.
  inversion T2 as [|? ? H3 T3]; subst. inversion T3 as [|? ? H4 T4]; subst.
  inversion T4 as [|? ? H5 T5]; subst. inversion T5 as [|? ? H6 T6]; subst.
  unfold groups_to_end.
  rewrite (group2_ok c1 c2 _ H1 H2), (group2_ok c3 c4 _ H3 H4),
    (group2_ok c5 c6 _ H5 H6).
  reflexivity.
Qed.

(** A capture group never parses to NaN. *)
Lemma channel_of_group (c1 c2 : ascii) (v1 v2 : Z) :
  digit16 c1 = Some v1 -> digit16 c2 = Some v2 ->
  channel (String c1 (String c2 EmptyString)) = inject_Z (16 * v1 + v2) / 255.
Proof.
  intros H1 H2. unfold channel, parseInt16, parseInt16_from.
  rewrite H1, H2.
  replace (16 * (16 * 0 + v1) + v2)%Z with (16 * v1 + v2)%Z by Lia.lia.
  reflexivity.
Qed.

Lemma hex_color_length (s : string) (r g b : Z) :
  hex_color s r g b -> (6 <= String.length s)%nat.
Proof.
  induction 1; simpl in *; Lia.lia.
Qed.

Lemma hexToRgb_plain (c1 c2 c3 c4 c5 c6 : ascii) (v1 v2 v3 v4 v5 v6 : Z) :
  hex_digit c1 v1 -> hex_digit c2 v2 -> hex_digit c3 v3 ->
  hex_digit c4 v4 -> hex_digit c5 v5 -> hex_digit c6 v6 ->
  let s := String c1 (String c2 (String c3 (String c4 (String c5 (String c6
             EmptyString))))) in
  let out := (inject_Z (16 * v1 + v2) / 255, inject_Z (16 * v3 + v4) / 255,
              inject_Z (16 * v5 + v6) / 255) in
  hexToRgb s = out /\ hexToRgb (String "#" s) = out.
Proof.
  intros H1 H2 H3 H4 H5 H6 s out.
  apply hex_digit_class in H1, H2, H3, H4, H5, H6.
  destruct H1 as (K1 & D1 & N1), H2 as (K2 & D2 & _), H3 as (K3 & D3 & _),
    H4 as (K4 & D4 & _), H5 as (K5 & D5 & _), H6 as (K6 & D6 & _).
  assert (G : groups_to_end s
              = Some (String c1 (String c2 EmptyString),
                      String c3 (String c4 EmptyString),
                      String c5 (String c6 EmptyString))).
  { apply groups_to_end_plain. repeat constructor; assumption. }
  assert (C : (channel (String c1 (String c2 EmptyString)),
               channel (String c3 (String c4 EmptyString)),
               channel (String c5 (String c6 EmptyString))) = out).
  { unfold out.
    rewrite (channel_of_group _ _ _ _ D1 D2), (channel_of_group _ _ _ _ D3 D4),
      (channel_of_group _ _ _ _ D5 D6). reflexivity. }
  split; unfold hexToRgb.
  - unfold s at 1. rewrite (regex_exec_not_sharp _ _ N1). fold s.
    rewrite G. exact C.
  - change (regex_exec (String "#" s))
      with (match groups_to_end s with
            | Some r => Some r
            | None => groups_to_end (String "#" s)
            end).
    rewrite G. exact C.
Qed.

Lemma regex_exec_some (s : string) (m : string * string * string) :
  regex_exec s = Some m -> exists r g b, hex_color s r g b.
Proof.
  assert (P : forall t g1 g2 g3, groups_to_end t = Some (g1, g2, g3) ->
              exists r g b, hex_color t r g b /\ String.length t = 6%nat).
  { intros t g1 g2 g3 H. apply groups_to_end_inv in H.
    destruct H as (c1 & c2 & c3 & c4 & c5 & c6 & -> & _ & _ & _ & F).
    inversion F as [|? ? H1 T1]; subst. inversion T1 as [|? ? H2 T2]; subst.
    inversion T2 as [|? ? H3 T3]; subst. inversion T3 as [|? ? H4 T4]; subst.
    inversion T4 as [|? ? H5 T5]; subst. inversion T5 as [|? ? H6 T6]; subst.
    apply class_af_d_digit in H1, H2, H3, H4, H5, H6.
    destruct H1 as (v1 & _ & ?), H2 as (v2 & _ & ?), H3 as (v3 & _ & ?),
      H4 as (v4 & _ & ?), H5 as (v5 & _ & ?), H6 as (v6 & _ & ?).
    do 3 eexists. split; [apply hex_plain; eassumption | reflexivity]. }
  destruct m as [[g1 g2] g3].
  destruct s as [|c s']; [discriminate|].
  destruct (ascii_dec c "#") as [->|N].
  - change (regex_exec (String "#" s'))
      with (match groups_to_end s' with
            | Some r => Some r
            | None => groups_to_end (String "#" s')
            end).
    destruct (groups_to_end s') as [[[h1 h2] h3]|] eqn:E.
    + intros _. destruct (P _ _ _ _ E) as (r & g & b & Hc & Hl).
      exists r, g, b. apply hex_sharp; assumption.
    + intro H. apply groups_to_end_inv in H.
      destruct H as (c1 & ? & ? & ? & ? & ? & Hs & _ & _ & _ & F).
      injection Hs as <- _. inversion F as [|? ? H1 _]. vm_compute in H1.
      discriminate H1.
  - rewrite (regex_exec_not_sharp _ _ N). intro H.
    destruct (P _ _ _ _ H) as (r & g & b & Hc & _). eauto.
Qed.

(** C8: on every string that is not a six-digit hexadecimal colour
    [hexToRgb] returns (0.15, 0.35, 0.75), and on every such colour, with
    or without the leading [#], in either case, it returns each byte
    divided by 255. *)
Theorem hexToRgb_spec :
  (forall s, malformed s -> hexToRgb s = (0.15, 0.35, 0.75))
  /\ (forall s r g b, hex_color s r g b ->
        hexToRgb s = (inject_Z r / 255, inject_Z g / 255, inject_Z b / 255)).
Proof.
  split.
  - intros s Hs. unfold hexToRgb.
    destruct (regex_exec s) as [m|] eqn:E; [|reflexivity].
    destruct (regex_exec_some _ _ E) as (r & g & b & Hc).
    exfalso. exact (Hs r g b Hc).
  - intros s r g b H. destruct H as [c1 c2 c3 c4 c5 c6 v1 v2 v3 v4 v5 v6
                                      H1 H2 H3 H4 H5 H6 | s r g b H L].
    + apply (hexToRgb_plain c1 c2 c3 c4 c5 c6); assumption.
    + destruct H as [c1 c2 c3 c4 c5 c6 v1 v2 v3 v4 v5 v6
                      H1 H2 H3 H4 H5 H6 | s r g b H L'].
      * apply (hexToRgb_plain c1 c2 c3 c4 c5 c6); assumption.
      * apply hex_color_length in H. simpl in L. Lia.lia.
Qed.

Lemma malformed_short (s : string) :
  (String.length s < 6)%nat -> malformed s.
Proof.
  intros L r g b H. apply hex_color_length in H. Lia.lia.
Qed.

Lemma malformed_notacolor : malformed "notacolor"%string.
Proof.
  intros r g b H. inversion H as [c1 c2 c3 c4 c5 c6 v1 v2 v3 v4 v5 v6
                                    H1 | ]; subst.
Qed.

Lemma hex_color_2563eb : hex_color "#2563eb"%string 37%Z 99%Z 235%Z.
Proof.
  apply hex_sharp; [|reflexivity].
  apply (hex_plain "2" "5" "6" "3" "e" "b" 2 5 6 3 14 11)%Z;
    unfold hex_digit, hex_digits; simpl; tauto.
Qed.

Lemma hexToRgb_spec_witness :
  hexToRgb "notacolor"%string = (0.15, 0.35, 0.75)
  /\ hexToRgb "#fff"%string = (0.15, 0.35, 0.75)
  /\ hexToRgb "#2563eb"%string = (37 / 255, 99 / 255, 235 / 255).
Proof.
  split; [|split].
  - apply (proj1 hexToRgb_spec). exact malformed_notacolor.
  - apply (proj1 hexToRgb_spec). apply malformed_short. simpl. Lia.lia.
  - apply (proj2 hexToRgb_spec "#2563eb"%string 37%Z 99%Z 235%Z).
    exact hex_color_2563eb.
Defined.

(** The same example to three decimals, and an upper-case spelling. *)
Example hexToRgb_2563eb_approx :
  let '(r, g, b) := hexToRgb "#2563eb"%string in
  Qabs (r - 0.145) < 0.001 /\ Qabs (g - 0.388) < 0.001 /\ Qabs (b - 0.922) < 0.001.
Proof. vm_compute. repeat split. Qed.

Example hexToRgb_upper : hexToRgb "2563EB"%string = hexToRgb "#2563eb"%string.
Proof. reflexivity. Qed.

End HalFacts.

(* ====================================================================== *)
(** ** Properties of the fragment shader *)
(* ====================================================================== *)

Section FragFacts.

Import Glsl Frag Spec.
Import Lra.
Local Open Scope R_scope.

(* ---------------------------------------------------------------------- *)
(** *** Built-ins *)

Lemma clamp_range (x lo hi : R) : lo <= hi -> lo <= clamp x lo hi <= hi.
Proof.
  intro H. unfold clamp.
  split.
  - apply Rmin_glb; [apply Rmax_r | exact H].
  - apply Rmin_r.
Qed.

Lemma clamp_below (x lo hi : R) : lo <= hi -> x <= lo -> clamp x lo hi = lo.
Proof.
  intros H Hx. unfold clamp. rewrite Rmax_right by exact Hx.
  apply Rmin_left. exact H.
Qed.

Lemma clamp_above (x lo hi : R) : lo <= hi -> hi <= x -> clamp x lo hi = hi.
Proof.
  intros H Hx. unfold clamp. apply Rmin_right.
  apply Rle_trans with x; [exact Hx | apply Rmax_l].
Qed.

Lemma clamp_inside (x lo hi : R) : lo <= x <= hi -> clamp x lo hi = x.
Proof.
  intros [H1 H2]. unfold clamp. rewrite Rmax_left by exact H1.
  apply Rmin_left. exact H2.
Qed.

Lemma smoothstep_range (e0 e1 x : R) : 0 <= smoothstep e0 e1 x <= 1.
Proof.
  unfold smoothstep.
  pose proof (clamp_range ((x - e0) / (e1 - e0)) 0 1 Rle_0_1) as [H0 H1].
  set (t := clamp _ 0 1) in *.
  assert (A : 0 <= t * t * (3 - 2 * t)).
  { apply Rmult_le_pos; [apply Rmult_le_pos; exact H0 | Lra.lra]. }
  assert (B : 0 <= (1 - t) * (1 - t) * (1 + 2 * t)).
  { apply Rmult_le_pos; [apply Rmult_le_pos; Lra.lra | Lra.lra]. }
  split; [exact A | Lra.nra].
Qed.

Lemma smoothstep_low (e0 e1 x : R) : e0 < e1 -> x <= e0 -> smoothstep e0 e1 x = 0.
Proof.
  intros He Hx. unfold smoothstep.
  rewrite clamp_below; [Lra.lra | Lra.lra |].
  assert (0 < / (e1 - e0)) by (apply Rinv_0_lt_compat; Lra.lra).
  unfold Rdiv. Lra.nra.
Qed.

Lemma smoothstep_high (e0 e1 x : R) : e0 < e1 -> e1 <= x -> smoothstep e0 e1 x = 1.
Proof.
  intros He Hx. unfold smoothstep.
  rewrite clamp_above; [Lra.lra | Lra.lra |].
  apply Rmult_le_reg_r with (e1 - e0); [Lra.lra|].
  unfold Rdiv. rewrite Rmult_assoc, Rinv_l by Lra.lra. Lra.lra.
Qed.

Lemma step_range (edge x : R) : 0 <= step edge x <= 1.
Proof. unfold step. destruct (Rlt_dec x edge); Lra.lra. Qed.

Lemma step_on (edge x : R) : edge <= x -> step edge x = 1.
Proof. intro H. unfold step. destruct (Rlt_dec x edge); [Lra.lra|reflexivity]. Qed.

Lemma pow_nonneg (x y : R) : 0 <= pow x y.
Proof.
  unfold pow. destruct (Rle_dec x 0); [Lra.lra|].
  left. unfold Rpower. apply exp_pos.
Qed.

Lemma mix_range (a t : R) : 0 <= t <= 1 -> a <= 1 -> a <= mix a 1 t <= 1.
Proof. intros [H0 H1] Ha. unfold mix. split; Lra.nra. Qed.

(* ---------------------------------------------------------------------- *)
(** *** The circular mask *)

Lemma sphere_of_outside (d : R) : 0.72 <= d -> sphere_of d = 0.
Proof.
  intro H. unfold sphere_of, sphereRadius, edgeSoftness.
  rewrite smoothstep_high; Lra.lra.
Qed.

Lemma sphere_of_inside (d : R) : d <= 0.712 -> sphere_of d = 1.
Proof.
  intro H. unfold sphere_of, sphereRadius, edgeSoftness.
  rewrite smoothstep_low; Lra.lra.
Qed.

Lemma shade_with_alpha (reflect : Uniforms -> vec2 -> vec3 -> vec3)
  (u : Uniforms) (uv : vec2) :
  v4w (shade_with reflect u uv) = mask (length2 uv).
Proof.
  unfold shade_with, mask. cbv zeta.
  destruct (Rlt_dec (sphere_of (length2 uv)) 0.001); reflexivity.
Qed.

(** C9: for every state, time and reflection setting, the alpha of [shade]
    is a function of the distance [|uv|] alone, built from the radius 0.72
    and the band 0.008; it is 0 from distance 0.72 on (so for
    [|uv| >= 0.73]) and 1 up to distance 0.712 (so for [|uv| <= 0.71]).
    The shader of the second copy has the same alpha. *)
Theorem shade_alpha (u : Uniforms) (uv : vec2) :
  (sphereRadius = 0.72 /\ edgeSoftness = 0.008)
  /\ v4w (shade u uv) = mask (length2 uv)
  /\ v4w (shade_lens u uv) = mask (length2 uv)
  /\ (0.73 <= length2 uv -> v4w (shade u uv) = 0)
  /\ (length2 uv <= 0.71 -> v4w (shade u uv) = 1).
Proof.
  split; [split; reflexivity|].
  split; [apply shade_with_alpha|]. split; [apply shade_with_alpha|].
  unfold shade. rewrite shade_with_alpha. unfold mask.
  split; intro H.
  - rewrite sphere_of_outside by Lra.lra.
    destruct (Rlt_dec 0 0.001); [reflexivity | Lra.lra].
  - rewrite sphere_of_inside by Lra.lra.
    destruct (Rlt_dec 1 0.001); [Lra.lra | reflexivity].
Qed.

Lemma length2_axis_y (y : R) : 0 <= y -> length2 (Vec2 0 y) = y.
Proof.
  intro H. unfold length2, dot2. cbn [v2x v2y].
  replace (0 * 0 + y * y) with (y * y) by Lra.lra.
  apply sqrt_square. exact H.
Qed.

Lemma shade_alpha_witness :
  v4w (shade speaking_orb (Vec2 0 1)) = 0
  /\ v4w (shade speaking_orb (Vec2 0 0)) = 1.
Proof.
  split.
  - apply (proj1 (proj2 (proj2 (proj2 (shade_alpha speaking_orb (Vec2 0 1)))))).
    rewrite length2_axis_y; Lra.lra.
  - apply (proj2 (proj2 (proj2 (proj2 (shade_alpha speaking_orb (Vec2 0 0)))))).
    rewrite length2_axis_y; Lra.lra.
Defined.

(** Outside the mask the whole fragment is transparent black. *)
Lemma shade_outside (reflect : Uniforms -> vec2 -> vec3 -> vec3)
  (u : Uniforms) (uv : vec2) :
  0.72 <= length2 uv -> shade_with reflect u uv = Vec4 0 0 0 0.
Proof.
  intro H. unfold shade_with. cbv zeta. rewrite sphere_of_outside by exact H.
  destruct (Rlt_dec 0 0.001); [reflexivity | Lra.lra].
Qed.

(* ---------------------------------------------------------------------- *)
(** *** The two shaders without reflections *)

(** C10: when [u_reflections] is not positive, in particular when it is 0,
    the shader of [src/HAL.tsx] and the shader of the second copy return
    the same RGBA for every fragment and every other uniform: both skip
    their reflections block, the only text in which they differ. *)
Theorem reflections_off_same (u : Uniforms) (uv v_uv : vec2) :
  u_reflections u <= 0 ->
  shade u uv = shade_lens u uv /\ main u v_uv = main_lens u v_uv.
Proof.
  intro H.
  assert (E : forall p, shade u p = shade_lens u p).
  { intro p. unfold shade, shade_lens, shade_with. cbv zeta.
    destruct (Rlt_dec (sphere_of (length2 p)) 0.001); [reflexivity|].
    destruct (Rlt_dec 0 (u_reflections u)); [Lra.lra | reflexivity]. }
  split; [apply E | unfold main, main_lens; apply E].
Qed.

Lemma reflections_off_same_witness :
  shade (with_reflections 0 speaking_orb) on_top_arc
  = shade_lens (with_reflections 0 speaking_orb) on_top_arc.
Proof.
  apply (proj1 (reflections_off_same (with_reflections 0 speaking_orb)
                  on_top_arc on_top_arc (Rle_refl 0))).
Defined.

(* ---------------------------------------------------------------------- *)
(** *** The colour that reaches the reflections *)

Lemma lit_color_channels (u : Uniforms) (uv : vec2) :
  lit_color u uv
  = Vec3 (lit_channel u uv (v3x (u_baseColor u)) (v3x (u_midColor u))
            (v3x (u_highlight u)))
         (lit_channel u uv (v3y (u_baseColor u)) (v3y (u_midColor u))
            (v3y (u_highlight u)))
         (lit_channel u uv (v3z (u_baseColor u)) (v3z (u_midColor u))
            (v3z (u_highlight u))).
Proof. reflexivity. Qed.

(** The reflection intensity is read by the reflections block only. *)
Lemma lit_color_with_reflections (r : R) (u : Uniforms) (uv : vec2) :
  lit_color (with_reflections r u) uv = lit_color u uv.
Proof. reflexivity. Qed.

(* ---------------------------------------------------------------------- *)
(** *** Tone mapping and the two overlays, channel by channel *)

Lemma tone_le (a b : R) : 0 <= a <= b -> tone a <= tone b.
Proof.
  intros [Ha Hab]. unfold tone, Rdiv.
  assert (Ia : 0 < / (a + 0.45)) by (apply Rinv_0_lt_compat; Lra.lra).
  assert (Ib : 0 < / (b + 0.45)) by (apply Rinv_0_lt_compat; Lra.lra).
  assert (Ea : (a + 0.45) * / (a + 0.45) = 1) by (apply Rinv_r; Lra.lra).
  assert (Eb : (b + 0.45) * / (b + 0.45) = 1) by (apply Rinv_r; Lra.lra).
  assert (L : / (b + 0.45) <= / (a + 0.45))
    by (apply Rinv_le_contravar; Lra.lra).
  Lra.nra.
Qed.

Lemma tone_lt (a b : R) : 0 <= a < b -> tone a < tone b.
Proof.
  intros [Ha Hab]. unfold tone, Rdiv.
  assert (Ia : 0 < / (a + 0.45)) by (apply Rinv_0_lt_compat; Lra.lra).
  assert (Ib : 0 < / (b + 0.45)) by (apply Rinv_0_lt_compat; Lra.lra).
  assert (Ea : (a + 0.45) * / (a + 0.45) = 1) by (apply Rinv_r; Lra.lra).
  assert (Eb : (b + 0.45) * / (b + 0.45) = 1) by (apply Rinv_r; Lra.lra).
  assert (L : / (b + 0.45) < / (a + 0.45))
    by (apply Rinv_lt_contravar; Lra.nra).
  Lra.nra.
Qed.

Lemma topArc_nonneg (uv : vec2) : 0 <= topArc uv.
Proof.
  unfold topArc. cbv zeta.
  repeat apply Rmult_le_pos; apply step_range.
Qed.

Lemma leftArc_nonneg (uv : vec2) : 0 <= leftArc uv.
Proof.
  unfold leftArc. cbv zeta.
  repeat apply Rmult_le_pos; apply step_range.
Qed.

Lemma rightArc_nonneg (uv : vec2) : 0 <= rightArc uv.
Proof.
  unfold rightArc. cbv zeta.
  repeat apply Rmult_le_pos; apply step_range.
Qed.

Lemma dash_nonneg (uv c : vec2) (w h : R) : 0 <= dash uv c w h.
Proof.
  unfold dash. cbv zeta. apply Rmult_le_pos; apply step_range.
Qed.

(** The sum of the hard shapes is at least the top arc. *)
Lemma ref_sum_ge_topArc (uv : vec2) : topArc uv <= ref_sum uv.
Proof.
  unfold ref_sum. cbv zeta.
  pose proof (leftArc_nonneg uv). pose proof (rightArc_nonneg uv).
  pose proof (dash_nonneg uv (Vec2 (-0.22) 0.42) 0.06 0.018).
  pose proof (dash_nonneg uv (Vec2 0.22 0.42) 0.06 0.018).
  pose proof (dash_nonneg uv (Vec2 (-0.38) 0.18) 0.035 0.012).
  pose proof (dash_nonneg uv (Vec2 0.38 0.18) 0.035 0.012).
  pose proof (dash_nonneg uv (Vec2 (-0.28) (-0.05)) 0.025 0.01).
  pose proof (dash_nonneg uv (Vec2 0.28 (-0.05)) 0.025 0.01).
  pose proof (dash_nonneg uv (Vec2 0 (-0.35)) 0.04 0.015).
  Lra.lra.
Qed.

Lemma ref_sum_nonneg (uv : vec2) : 0 <= ref_sum uv.
Proof.
  apply Rle_trans with (topArc uv);
    [apply topArc_nonneg | apply ref_sum_ge_topArc].
Qed.

(** The weight of the white overlay of [src/HAL.tsx] lies in [0, 1]. *)
Lemma hal_weight_range (u : Uniforms) (uv : vec2) :
  0 <= u_reflections u <= 1 ->
  0 <= Rmin (ref_sum uv) 1 * u_reflections u <= 1.
Proof.
  intros [H0 H1].
  assert (0 <= Rmin (ref_sum uv) 1 <= 1).
  { split; [apply Rmin_glb; [apply ref_sum_nonneg | Lra.lra] | apply Rmin_r]. }
  split; Lra.nra.
Qed.

Lemma reflections_hal_channels (u : Uniforms) (uv : vec2) (color : vec3) :
  reflections_hal u uv color
  = map3v (hal_channel u uv) color.
Proof. reflexivity. Qed.

Lemma reflections_lens_channels (u : Uniforms) (uv : vec2) (color : vec3) :
  reflections_lens u uv color
  = map3v (lens_channel u uv) color.
Proof. reflexivity. Qed.

Lemma hal_channel_brightens (u : Uniforms) (uv : vec2) (c : R) :
  0 <= u_reflections u <= 1 -> c <= 1 -> c <= hal_channel u uv c.
Proof.
  intros Hr Hc. unfold hal_channel.
  apply mix_range; [apply hal_weight_range; exact Hr | exact Hc].
Qed.

Lemma lens_channel_brightens (u : Uniforms) (uv : vec2) (c : R) :
  0 <= u_reflections u <= 1 -> c <= 1 -> c <= lens_channel u uv c.
Proof.
  intros [H0 H1] Hc. unfold lens_channel. cbv zeta.
  pose proof (clamp_range (fresnel (sphere_normal uv) * 2.4) 0 1 Rle_0_1) as Hf.
  pose proof (clamp_range (refCore u (lens_point uv)) 0 1 Rle_0_1) as Hm.
  pose proof (clamp_range (refGlow u (lens_point uv)) 0 1 Rle_0_1) as Hg.
  set (f := clamp (fresnel _ * 2.4) 0 1) in *.
  set (rm := clamp (refCore _ _) 0 1) in *.
  set (gm := clamp (refGlow _ _) 0 1) in *.
  unfold mix.
  set (e := 0.35 * (1 - f) + 1 * f).
  assert (He : 0 <= e <= 1) by (unfold e; Lra.lra).
  set (st := u_reflections u * e).
  assert (Hs : 0 <= st <= 1) by (unfold st; Lra.nra).
  set (A := rm * 0.70 + gm * 0.26). set (K := rm * 0.12 + gm * 0.07).
  assert (HA : 0 <= A) by (unfold A; Lra.lra).
  assert (HK : 0 <= K <= 0.19) by (unfold K; Lra.lra).
  assert (HAs : 0 <= A * st) by (apply Rmult_le_pos; Lra.lra).
  assert (HKs : 0 <= K * st <= 0.19) by Lra.nra.
  assert (0 <= (A * st) * (1 - K * st)) by (apply Rmult_le_pos; Lra.lra).
  assert (0 <= (K * st) * (1 - c)) by (apply Rmult_le_pos; Lra.lra).
  Lra.nra.
Qed.

Lemma shade_with_brightens
  (reflect : Uniforms -> vec2 -> vec3 -> vec3) (chan : Uniforms -> vec2 -> R -> R) :
  (forall u uv col, reflect u uv col = map3v (chan u uv) col) ->
  (forall u uv c, 0 <= u_reflections u <= 1 -> c <= 1 -> c <= chan u uv c) ->
  forall u uv c3 c4,
    In (c3, c4) channels ->
    0 <= u_reflections u <= 1 ->
    0 <= c3 (lit_color u uv) <= 1 ->
    c4 (shade_with reflect (with_reflections 0 u) uv)
    <= c4 (shade_with reflect u uv).
Proof.
  intros Hrefl Hchan u uv c3 c4 Hin Hr Hc.
  unfold shade_with. cbv zeta. rewrite lit_color_with_reflections.
  cbn [u_reflections with_reflections].
  destruct (Rlt_dec (sphere_of (length2 uv)) 0.001).
  - destruct Hin as [E|[E|[E|[]]]]; inversion E; subst; cbn; Lra.lra.
  - destruct (Rlt_dec 0 0) as [F|_]; [Lra.lra|].
    destruct (Rlt_dec 0 (u_reflections u)).
    + rewrite Hrefl.
      remember (lit_color u uv) as col eqn:Ecol. destruct col as [x y z].
      destruct Hin as [E|[E|[E|[]]]]; inversion E; subst;
        cbn [v3x v3y v3z v4x v4y v4z tone_map map3v] in *;
        (apply tone_le; split; [Lra.lra | apply Hchan; Lra.lra]).
    + destruct Hin as [E|[E|[E|[]]]]; inversion E; subst; apply Rle_refl.
Qed.

(** C1, amended: for every fragment, state, time and reflection intensity
    in [0, 1], a channel whose value on reaching the reflections lies in
    [0, 1] comes out of [shade] with the overlay at least as bright as
    without it; this holds for the overlay of [src/HAL.tsx] and for the one
    of the second copy. *)
Theorem overlay_brightens_up_to_white
  (u : Uniforms) (uv : vec2) (c3 : vec3 -> R) (c4 : vec4 -> R) :
  In (c3, c4) channels ->
  0 <= u_reflections u <= 1 ->
  0 <= c3 (lit_color u uv) <= 1 ->
  c4 (shade (with_reflections 0 u) uv) <= c4 (shade u uv)
  /\ c4 (shade_lens (with_reflections 0 u) uv) <= c4 (shade_lens u uv).
Proof.
  intros Hin Hr Hc. split.
  - apply (shade_with_brightens reflections_hal hal_channel
             reflections_hal_channels hal_channel_brightens u uv c3 c4);
      assumption.
  - apply (shade_with_brightens reflections_lens lens_channel
             reflections_lens_channels lens_channel_brightens u uv c3 c4);
      assumption.
Qed.

(* ---------------------------------------------------------------------- *)
(** *** Ranges of the scalars of the composition *)

Lemma sqrt_between (x lo hi : R) :
  0 <= lo -> 0 <= hi -> lo * lo <= x <= hi * hi -> lo <= sqrt x <= hi.
Proof.
  intros Hlo Hhi [H1 H2]. split.
  - rewrite <- (sqrt_square lo) by exact Hlo. apply sqrt_le_1_alt. exact H1.
  - rewrite <- (sqrt_square hi) by exact Hhi. apply sqrt_le_1_alt. exact H2.
Qed.

Lemma sqrt_exact (x r : R) : 0 <= r -> x = r * r -> sqrt x = r.
Proof. intros Hr ->. apply sqrt_square. exact Hr. Qed.

Lemma sqrt_le_one (x : R) : x <= 1 -> sqrt x <= 1.
Proof.
  intro H. apply Rle_trans with (sqrt 1);
    [apply sqrt_le_1_alt; exact H | rewrite sqrt_1; lra].
Qed.

(** Bounds on an inverse from bounds on the number. *)
Lemma Rinv_between (x lo hi a b : R) :
  0 < lo -> lo <= x <= hi -> a * hi <= 1 -> 1 <= b * lo -> 0 <= a ->
  a <= / x <= b.
Proof.
  intros Hlo [H1 H2] Ha Hb Ha0.
  assert (0 < / x) by (apply Rinv_0_lt_compat; lra).
  assert (x * / x = 1) by (apply Rinv_r; lra).
  split; nra.
Qed.

Lemma Rpower_one (y : R) : Rpower 1 y = 1.
Proof. unfold Rpower. rewrite ln_1, Rmult_0_r. apply exp_0. Qed.

Lemma pow_le_1 (x y : R) : x <= 1 -> 0 <= y -> pow x y <= 1.
Proof.
  intros Hx Hy. unfold pow. destruct (Rle_dec x 0); [lra|].
  rewrite <- (Rpower_one y). apply Rle_Rpower_l; lra.
Qed.

Lemma pow_range (x y : R) : x <= 1 -> 0 <= y -> 0 <= pow x y <= 1.
Proof. intros; split; [apply pow_nonneg | apply pow_le_1; assumption]. Qed.

Lemma pow_4 (x : R) : 0 < x -> pow x 4 = x * x * x * x.
Proof.
  intro H. unfold pow. destruct (Rle_dec x 0); [lra|].
  replace 4 with (INR 4) by (simpl; lra).
  rewrite Rpower_pow by exact H. simpl. lra.
Qed.

(** Cauchy-Schwarz against a normalized vector. *)
Lemma dot3_normalize_le (a b : vec3) : dot3 a (normalize3 b) <= length3 a.
Proof.
  destruct a as [a1 a2 a3], b as [b1 b2 b3].
  unfold normalize3, map3v, length3, dot3. cbn [v3x v3y v3z].
  set (A := a1 * a1 + a2 * a2 + a3 * a3).
  set (B := b1 * b1 + b2 * b2 + b3 * b3).
  assert (HA : 0 <= A) by (unfold A; nra).
  assert (HB : 0 <= B) by (unfold B; nra).
  pose proof (sqrt_pos A) as PA. pose proof (sqrt_pos B) as PB.
  pose proof (sqrt_sqrt A HA) as SA. pose proof (sqrt_sqrt B HB) as SB.
  set (la := sqrt A) in *. set (lb := sqrt B) in *.
  set (d := a1 * b1 + a2 * b2 + a3 * b3).
  assert (CS : d * d <= A * B).
  { unfold d, A, B.
    pose proof (Rle_0_sqr (a1 * b2 - a2 * b1)) as M1.
    pose proof (Rle_0_sqr (a1 * b3 - a3 * b1)) as M2.
    pose proof (Rle_0_sqr (a2 * b3 - a3 * b2)) as M3.
    unfold Rsqr in *. nra. }
  assert (D : d <= la * lb).
  { destruct (Rle_dec d (la * lb)) as [|N]; [assumption|].
    exfalso. apply Rnot_le_lt in N.
    assert (0 <= la * lb) by (apply Rmult_le_pos; assumption).
    assert (la * lb * (la * lb) < d * d) by nra.
    assert (la * lb * (la * lb) = A * B) by (rewrite <- SA, <- SB; ring).
    lra. }
  replace (a1 * (b1 / lb) + a2 * (b2 / lb) + a3 * (b3 / lb)) with (d * / lb)
    by (unfold d, Rdiv; ring).
  destruct (Req_dec lb 0) as [Z|NZ].
  - rewrite Z, Rinv_0, Rmult_0_r. exact PA.
  - assert (0 < lb) by lra.
    assert (0 < / lb) by (apply Rinv_0_lt_compat; assumption).
    assert (lb * / lb = 1) by (apply Rinv_r; assumption).
    nra.
Qed.

(** A normalized vector is no longer than 1. *)
Lemma length3_normalize_le (a : vec3) : length3 (normalize3 a) <= 1.
Proof.
  destruct a as [a1 a2 a3].
  unfold normalize3, map3v, length3, dot3. cbn [v3x v3y v3z].
  set (A := a1 * a1 + a2 * a2 + a3 * a3).
  assert (HA : 0 <= A) by (unfold A; nra).
  pose proof (sqrt_pos A) as PA. pose proof (sqrt_sqrt A HA) as SA.
  set (l := sqrt A) in *.
  apply sqrt_le_one.
  replace (a1 / l * (a1 / l) + a2 / l * (a2 / l) + a3 / l * (a3 / l))
    with (A * (/ l * / l)) by (unfold A, Rdiv; ring).
  destruct (Req_dec l 0) as [Z|NZ].
  - rewrite Z, Rinv_0. lra.
  - rewrite <- SA. replace (l * l * (/ l * / l)) with ((l * / l) * (l * / l)) by ring.
    rewrite Rinv_r by exact NZ. lra.
Qed.

Lemma sphere_normal_length (uv : vec2) : length3 (sphere_normal uv) <= 1.
Proof. unfold sphere_normal. apply length3_normalize_le. Qed.

Lemma length2_nonneg (uv : vec2) : 0 <= length2 uv.
Proof. unfold length2. apply sqrt_pos. Qed.

Lemma sphere_z_range (uv : vec2) : 0 <= sphere_z uv <= 1.
Proof.
  unfold sphere_z. split; [apply sqrt_pos|].
  apply sqrt_le_one.
  apply Rmax_lub; [lra|].
  assert (0 <= (v2x uv * v2x uv + v2y uv * v2y uv)
               / (sphereRadius * sphereRadius)).
  { unfold sphereRadius, Rdiv. apply Rmult_le_pos; [nra|].
    left. apply Rinv_0_lt_compat. lra. }
  lra.
Qed.

Lemma cloudPattern_range (u : Uniforms) (n : vec3) : 0 <= cloudPattern u n <= 1.
Proof. unfold cloudPattern. cbv zeta. apply smoothstep_range. Qed.

Lemma lobe_range (u : Uniforms) (n : vec3) (e : R) :
  length3 n <= 1 -> 0 <= e -> 0 <= lobe u n e <= 1.
Proof.
  intros Hn He. unfold lobe. apply pow_range; [|exact He].
  apply Rmax_lub; [lra|]. unfold halfDir.
  apply Rle_trans with (length3 n); [apply dot3_normalize_le | exact Hn].
Qed.

Lemma diffuse_range (u : Uniforms) (n : vec3) :
  length3 n <= 1 -> 0 <= diffuse u n <= 1.
Proof.
  intro Hn. unfold diffuse. cbv zeta. apply pow_range; [|lra].
  apply Rmax_lub; [lra|]. unfold lightDir.
  apply Rle_trans with (length3 n); [apply dot3_normalize_le | exact Hn].
Qed.

Lemma fresnel_range (n : vec3) : 0 <= fresnel n <= 1.
Proof.
  unfold fresnel. apply pow_range; [|lra].
  pose proof (Rmax_l 0 (dot3 n viewDir)). lra.
Qed.

(** [pow(max(0.0, 1.0 - dist / sphereRadius), e)], the falloff from the
    centre used by the subsurface and inner-glow terms. *)
Lemma falloff_range (dist e : R) :
  0 <= dist -> 0 <= e ->
  0 <= pow (Rmax 0 (1 - dist / sphereRadius)) e <= 1.
Proof.
  intros Hd He. apply pow_range; [|exact He].
  apply Rmax_lub; [lra|].
  assert (0 <= dist / sphereRadius).
  { unfold sphereRadius, Rdiv. apply Rmult_le_pos; [exact Hd|].
    left. apply Rinv_0_lt_compat. lra. }
  lra.
Qed.

(** With a highlight size that is not negative, the specular sum is
    bounded by the size. *)
Lemma specular_range (u : Uniforms) (n : vec3) :
  length3 n <= 1 -> 0 <= currentHighlightSize u ->
  lobe u n 4 * currentHighlightSize u * 0.4 <= specular u n
  /\ specular u n <= currentHighlightSize u * 1.25 + 0.6.
Proof.
  intros Hn Hs. unfold specular. cbv zeta.
  pose proof (lobe_range u n 4 Hn) as H4.
  pose proof (lobe_range u n 12 Hn) as H12.
  pose proof (lobe_range u n 40 Hn) as H40.
  pose proof (lobe_range u n 150 Hn) as H150.
  specialize (H4 ltac:(lra)). specialize (H12 ltac:(lra)).
  specialize (H40 ltac:(lra)). specialize (H150 ltac:(lra)).
  set (s := currentHighlightSize u) in *.
  set (a := lobe u n 4) in *. set (b := lobe u n 12) in *.
  set (c := lobe u n 40) in *. set (d := lobe u n 150) in *.
  split; nra.
Qed.

(* ---------------------------------------------------------------------- *)
(** *** Bounds on the colour that reaches the reflections *)

Lemma mix_nonneg (a b t : R) : 0 <= a -> 0 <= b -> 0 <= t <= 1 -> 0 <= mix a b t.
Proof. intros Ha Hb [H0 H1]. unfold mix. nra. Qed.

Lemma mix_le (a b t hi : R) : a <= hi -> b <= hi -> 0 <= t <= 1 -> mix a b t <= hi.
Proof. intros Ha Hb [H0 H1]. unfold mix. nra. Qed.

Section Compose.

Variables b m h ci cp dg df sp sv ss chs fr sss ig pl ao bs : R.
Hypothesis Hb : 0 <= b.
Hypothesis Hm : 0 <= m.
Hypothesis Hh : 0 <= h.
Hypothesis Hci : 0 <= ci <= 1.
Hypothesis Hcp : 0 <= cp <= 1.
Hypothesis Hdg : 0 <= dg <= 1.
Hypothesis Hdf : 0 <= df <= 1.
Hypothesis Hsv : 0 <= sv <= 1.
Hypothesis Hss : 0 <= ss <= 1.
Hypothesis Hchs : 0 <= chs.
Hypothesis Hfr : 0 <= fr <= 1.
Hypothesis Hsss : 0 <= sss <= 0.3.
Hypothesis Hig : 0 <= ig <= 1.
Hypothesis Hpl : 0 <= pl.
Hypothesis Hao : 0 <= ao <= 1.
Hypothesis Hbs : 0 <= bs <= 1.

Lemma clouded_nonneg : 0 <= clouded b m ci cp dg.
Proof.
  unfold clouded. cbv zeta.
  assert (0 <= cp * ci + (1 - ci) * 0.5 <= 1) by nra.
  apply mix_nonneg; [| |exact Hci]; apply mix_nonneg; try assumption; lra.
Qed.

Lemma clouded_le : b <= m -> clouded b m ci cp dg <= m * 1.3.
Proof.
  intro Hbm. unfold clouded. cbv zeta.
  assert (0 <= cp * ci + (1 - ci) * 0.5 <= 1) by nra.
  apply mix_le; [| |exact Hci]; apply mix_le; try assumption; lra.
Qed.

(** The composition is at least its specular and bloom terms. *)
Lemma compose_lower (splow : R) :
  0 <= splow <= sp ->
  (mix h 1 0.4 * splow * 1.5 + h * (sv * chs) * 0.7)
    * pl * (ao * 0.4 + 0.6) * (bs * 0.3 + 0.7)
  <= compose b m h ci cp dg df sp sv ss chs fr sss ig pl ao bs.
Proof.
  intros [Hl0 Hl]. unfold compose. cbv zeta.
  pose proof clouded_nonneg as Hc.
  set (cl := clouded b m ci cp dg) in *. clearbody cl.
  assert (T1 : 0 <= cl * (0.35 + df * 0.65)) by (apply Rmult_le_pos; lra).
  assert (T2 : 0 <= m * sss * (0.6 + cp * 0.4)).
  { apply Rmult_le_pos; [apply Rmult_le_pos|]; lra. }
  assert (T3 : mix h 1 0.4 * splow <= mix h 1 0.4 * sp).
  { apply Rmult_le_compat_l; [unfold mix; lra | exact Hl]. }
  assert (T5 : 0 <= 1 * ss * chs * 0.3).
  { assert (0 <= ss * chs) by (apply Rmult_le_pos; lra). lra. }
  assert (T6 : 0 <= h * fr * 0.2).
  { assert (0 <= h * fr) by (apply Rmult_le_pos; lra). lra. }
  assert (T7 : 0 <= m * ig * 0.12).
  { assert (0 <= m * ig) by (apply Rmult_le_pos; lra). lra. }
  apply Rmult_le_compat_r; [lra|].
  apply Rmult_le_compat_r; [lra|].
  apply Rmult_le_compat_r; [lra|].
  lra.
Qed.

(** The composition is not negative, and bounded when the base colour is
    not above the mid colour. *)
Lemma compose_upper (spmax : R) :
  b <= m -> 0 <= sp <= spmax ->
  0 <= compose b m h ci cp dg df sp sv ss chs fr sss ig pl ao bs
    <= (m * 1.72 + (0.6 * h + 0.4) * 1.5 * spmax + (0.7 * h + 0.3) * chs
        + h * 0.2) * pl.
Proof.
  intros Hbm [Hsp Hmax]. unfold compose. cbv zeta.
  pose proof clouded_nonneg as Hc. pose proof (clouded_le Hbm) as Hc'.
  set (cl := clouded b m ci cp dg) in *. clearbody cl.
  set (T1 := cl * (0.35 + df * 0.65)).
  assert (HT1 : 0 <= T1 <= m * 1.3) by (unfold T1; split; nra).
  set (T2 := m * sss * (0.6 + cp * 0.4)).
  assert (HT2 : 0 <= T2 <= m * 0.3).
  { unfold T2. assert (0 <= m * sss <= m * 0.3) by nra. split; nra. }
  set (T3 := mix h 1 0.4 * sp * 1.5).
  assert (HT3 : 0 <= T3 <= (0.6 * h + 0.4) * 1.5 * spmax).
  { unfold T3, mix. split; nra. }
  set (T4 := h * (sv * chs) * 0.7).
  assert (HT4 : 0 <= T4 <= 0.7 * h * chs).
  { unfold T4. assert (0 <= sv * chs <= chs) by nra. split; nra. }
  set (T5 := 1 * ss * chs * 0.3).
  assert (HT5 : 0 <= T5 <= 0.3 * chs) by (unfold T5; split; nra).
  set (T6 := h * fr * 0.2).
  assert (HT6 : 0 <= T6 <= h * 0.2) by (unfold T6; split; nra).
  set (T7 := m * ig * 0.12).
  assert (HT7 : 0 <= T7 <= m * 0.12) by (unfold T7; split; nra).
  set (S := T1 + T2 + T3 + T4 + T5 + T6 + T7).
  set (U := m * 1.72 + (0.6 * h + 0.4) * 1.5 * spmax + (0.7 * h + 0.3) * chs
            + h * 0.2).
  assert (HS : 0 <= S <= U) by (unfold S, U; lra).
  set (fa := ao * 0.4 + 0.6). set (fb := bs * 0.3 + 0.7).
  assert (Hfa : 0 <= fa <= 1) by (unfold fa; lra).
  assert (Hfb : 0 <= fb <= 1) by (unfold fb; lra).
  assert (H1 : 0 <= S * pl <= U * pl) by (split; nra).
  assert (H2 : 0 <= S * pl * fa <= U * pl) by (split; nra).
  split; nra.
Qed.

End Compose.

(** For a state whose colours, cloud intensity, highlight size and pulse
    are in range, a channel reaches the reflections with at least its
    specular and bloom terms. *)
Lemma lit_channel_lower (u : Uniforms) (uv : vec2) (b m h : R) :
  0 <= b -> 0 <= m -> 0 <= h ->
  0 <= u_cloudIntensity u <= 1 ->
  0 <= currentHighlightSize u -> 0 <= pulse u ->
  let sv := lobe u (sphere_normal uv) 4 in
  let ao := smoothstep sphereRadius (sphereRadius * 0.4) (length2 uv) in
  let bs := smoothstep (-0.7) 0.4 (v2y uv) in
  ((0.6 * h + 0.4) * 0.6 + h * 0.7) * (sv * currentHighlightSize u)
    * pulse u * (ao * 0.4 + 0.6) * (bs * 0.3 + 0.7)
  <= lit_channel u uv b m h.
Proof.
  intros Hb Hm Hh Hci Hs Hp sv ao bs.
  pose proof (sphere_normal_length uv) as Hn.
  pose proof (specular_range u _ Hn Hs) as [Hsp _].
  pose proof (lobe_range u _ 4 Hn ltac:(lra)) as Hsv.
  fold sv in Hsp, Hsv.
  assert (Hlow : 0 <= sv * currentHighlightSize u * 0.4).
  { assert (0 <= sv * currentHighlightSize u) by (apply Rmult_le_pos; lra).
    lra. }
  unfold lit_channel. cbv zeta.
  eapply Rle_trans;
    [|apply (compose_lower b m h) with (splow := sv * currentHighlightSize u * 0.4)];
    try assumption;
    try apply cloudPattern_range;
    try (apply pow_range; [apply sphere_z_range | lra]);
    try (apply diffuse_range; exact Hn);
    try (apply lobe_range; [exact Hn | lra]);
    try apply fresnel_range;
    try apply smoothstep_range;
    try (apply falloff_range; [apply length2_nonneg | lra]);
    try (pose proof (falloff_range (length2 uv) 2 (length2_nonneg uv) ltac:(lra));
         lra);
    try (split; assumption).
  unfold sv, ao, bs, mix. clear. lra.
Qed.

(** For such a state whose base colour is not above its mid colour, a
    channel reaches the reflections between 0 and a bound that depends on
    the colours, the highlight size and the pulse only. *)
Lemma lit_channel_range (u : Uniforms) (uv : vec2) (b m h : R) :
  0 <= b <= m -> 0 <= h ->
  0 <= u_cloudIntensity u <= 1 ->
  0 <= currentHighlightSize u -> 0 <= pulse u ->
  0 <= lit_channel u uv b m h
    <= (m * 1.72 + (0.6 * h + 0.4) * 1.5 * (currentHighlightSize u * 1.25 + 0.6)
        + (0.7 * h + 0.3) * currentHighlightSize u + h * 0.2) * pulse u.
Proof.
  intros [Hb Hbm] Hh Hci Hs Hp.
  pose proof (sphere_normal_length uv) as Hn.
  pose proof (specular_range u _ Hn Hs) as [Hsp Hsp'].
  pose proof (lobe_range u _ 4 Hn ltac:(lra)) as Hsv.
  assert (Hsp0 : 0 <= specular u (sphere_normal uv)).
  { assert (0 <= lobe u (sphere_normal uv) 4 * currentHighlightSize u)
      by (apply Rmult_le_pos; lra). lra. }
  unfold lit_channel. cbv zeta.
  apply compose_upper;
    try assumption; try lra;
    try apply cloudPattern_range;
    try (apply pow_range; [apply sphere_z_range | lra]);
    try (apply diffuse_range; exact Hn);
    try (apply lobe_range; [exact Hn | lra]);
    try apply fresnel_range;
    try apply smoothstep_range;
    try (apply falloff_range; [apply length2_nonneg | lra]);
    try (pose proof (falloff_range (length2 uv) 2 (length2_nonneg uv) ltac:(lra));
         lra).
Qed.

(* ---------------------------------------------------------------------- *)
(** *** The hard overlay on the speaking orb *)

Lemma length2_on_top_arc : length2 on_top_arc = 0.432.
Proof. unfold on_top_arc. apply length2_axis_y. lra. Qed.

Lemma sphere_z_on_top_arc : sphere_z on_top_arc = 0.8.
Proof.
  unfold sphere_z, on_top_arc, sphereRadius. cbn [v2x v2y].
  rewrite Rmax_right by lra.
  apply sqrt_exact; lra.
Qed.

Lemma sphere_normal_on_top_arc : sphere_normal on_top_arc = Vec3 0 0.6 0.8.
Proof.
  unfold sphere_normal. rewrite sphere_z_on_top_arc.
  unfold on_top_arc, sphereRadius, normalize3, length3, dot3, map3v.
  cbn [v2x v2y v3x v3y v3z].
  rewrite (sqrt_exact _ 1) by lra.
  f_equal; lra.
Qed.

Lemma topArc_on_top_arc : topArc on_top_arc = 1.
Proof.
  unfold topArc, on_top_arc, sub2, zip2v. cbv zeta. cbn [v2x v2y].
  replace (0 - 0) with 0 by lra.
  replace (0.432 - -0.08) with 0.512 by lra.
  rewrite length2_axis_y by lra.
  rewrite !step_on by lra. lra.
Qed.

(** On the top arc the overlay of [src/HAL.tsx] at full intensity is pure
    white. *)
Lemma hal_channel_on_top_arc (u : Uniforms) (c : R) :
  u_reflections u = 1 -> hal_channel u on_top_arc c = 1.
Proof.
  intro H. unfold hal_channel. rewrite H.
  pose proof (ref_sum_ge_topArc on_top_arc) as G.
  rewrite topArc_on_top_arc in G.
  rewrite Rmin_right by exact G. unfold mix. lra.
Qed.

Lemma speaking_orb_fields :
  u_time speaking_orb = 0
  /\ u_highlightDrift speaking_orb = 3.2
  /\ u_highlightSize speaking_orb = 1.2
  /\ u_cloudIntensity speaking_orb = 0.7
  /\ u_reflections speaking_orb = 1
  /\ u_baseColor speaking_orb = Vec3 0.08 0.18 0.55
  /\ u_midColor speaking_orb = Vec3 0.15 0.35 0.75
  /\ u_highlight speaking_orb = Vec3 0.5 0.75 1.
Proof.
  unfold speaking_orb, Render.uniforms, Render.vec3_of_rgb.
  cbn -[Q2R]. unfold Q2R. cbn [Qnum Qden].
  repeat split; try f_equal; lra.
Qed.

(** At time 0 the sines of the shader vanish: the highlight has its
    nominal size and the pulse is 1. *)
Lemma at_time_zero (u : Uniforms) :
  u_time u = 0 ->
  currentHighlightSize u = u_highlightSize u /\ pulse u = 1.
Proof.
  intro Ht. unfold currentHighlightSize, pulse. cbv zeta.
  rewrite Ht, !Rmult_0_l, sin_0. split; lra.
Qed.

Lemma highlightCenter_speaking : highlightCenter speaking_orb = Vec2 (-0.2) 0.66.
Proof.
  destruct speaking_orb_fields as (Ht & Hd & _).
  unfold highlightCenter. cbv zeta. rewrite Ht, Hd.
  rewrite !Rmult_0_l, sin_0, cos_0.
  rewrite Rmin_right by lra.
  unfold mix2, add2, zip2v, mix. cbn [v2x v2y].
  f_equal; lra.
Qed.

(** The cosine of the angle between the normal on the top arc and the
    half vector of the speaking orb. *)
Lemma halfDir_speaking_on_top_arc :
  0.94 <= dot3 (Vec3 0 0.6 0.8) (halfDir speaking_orb) <= 1.
Proof.
  unfold halfDir, lightDir. rewrite highlightCenter_speaking.
  cbn [v2x v2y].
  unfold normalize3, map3v, add3, zip3v, viewDir, dot3. cbn [v3x v3y v3z].
  set (s := length3 (Vec3 (-0.2) 0.66 0.85)).
  assert (Hs : 1.0945 <= s <= 1.0947).
  { unfold s, length3, dot3. cbn [v3x v3y v3z]. apply sqrt_between; lra. }
  assert (Hw : 0.9134 <= / s <= 0.9137)
    by (apply (Rinv_between s 1.0945 1.0947); lra).
  unfold Rdiv. set (w := / s) in *. clearbody w. clear s Hs.
  assert (W2 : 0.9134 * 0.9134 <= w * w <= 0.9137 * 0.9137) by (split; nra).
  set (q := length3 _).
  assert (Hq : 1.88 <= q <= 1.886).
  { unfold q, length3, dot3. cbn [v3x v3y v3z]. apply sqrt_between; lra. }
  assert (Hi : 0.5302 <= / q <= 0.532)
    by (apply (Rinv_between q 1.88 1.886); lra).
  set (iq := / q) in *. clearbody iq. clear q Hq.
  split; nra.
Qed.

Lemma blue_speaking_on_top_arc : 1 < v3z (lit_color speaking_orb on_top_arc).
Proof.
  destruct speaking_orb_fields as (Ht & _ & Hs & Hci & _ & Hb & Hm & Hh).
  destruct (at_time_zero _ Ht) as [Hchs Hpl]. rewrite Hs in Hchs.
  rewrite lit_color_channels. cbn [v3z]. rewrite Hb, Hm, Hh. cbn [v3z].
  eapply Rlt_le_trans; [|apply lit_channel_lower; rewrite ?Hci, ?Hchs, ?Hpl; lra].
  cbv zeta.
  rewrite sphere_normal_on_top_arc, length2_on_top_arc, Hchs, Hpl.
  change (v2y on_top_arc) with 0.432.
  replace (smoothstep sphereRadius (sphereRadius * 0.4) 0.432) with (20 / 27).
  2:{ unfold smoothstep, sphereRadius. rewrite clamp_inside by lra. lra. }
  rewrite smoothstep_high by lra.
  assert (Hsv : 0.78 <= lobe speaking_orb (Vec3 0 0.6 0.8) 4).
  { unfold lobe. pose proof halfDir_speaking_on_top_arc as [X0 X1].
    rewrite Rmax_right by lra. rewrite pow_4 by lra.
    set (X := dot3 _ _) in *.
    assert (0.8836 <= X * X) by nra. nra. }
  set (sv := lobe speaking_orb (Vec3 0 0.6 0.8) 4) in *. lra.
Qed.

Lemma shade_with_inside (reflect : Uniforms -> vec2 -> vec3 -> vec3)
  (u : Uniforms) (uv : vec2) :
  length2 uv <= 0.712 ->
  shade_with reflect u uv
  = let color := lit_color u uv in
    let color := if Rlt_dec 0 (u_reflections u) then reflect u uv color
                 else color in
    Vec4 (tone (v3x color)) (tone (v3y color)) (tone (v3z color)) 1.
Proof.
  intro H. unfold shade_with. cbv zeta. rewrite sphere_of_inside by exact H.
  destruct (Rlt_dec 1 0.001); [lra | reflexivity].
Qed.

(** In [src/HAL.tsx] a channel that reaches the reflections above 1 is
    lowered wherever a reflection shape is lit. *)
Lemma hal_overlay_darkens_above_white
  (u : Uniforms) (uv : vec2) (c3 : vec3 -> R) (c4 : vec4 -> R) :
  In (c3, c4) channels ->
  length2 uv <= 0.712 ->
  0 < u_reflections u <= 1 ->
  0 < ref_sum uv ->
  1 < c3 (lit_color u uv) ->
  c4 (shade u uv) < c4 (shade (with_reflections 0 u) uv).
Proof.
  intros Hin Hd [Hr0 Hr1] Hs Hc.
  unfold shade. rewrite !shade_with_inside by exact Hd. cbv zeta.
  rewrite lit_color_with_reflections. cbn [u_reflections with_reflections].
  destruct (Rlt_dec 0 (u_reflections u)); [|lra].
  destruct (Rlt_dec 0 0); [lra|].
  rewrite reflections_hal_channels.
  assert (W : 0 < Rmin (ref_sum uv) 1 * u_reflections u <= 1).
  { assert (0 < Rmin (ref_sum uv) 1 <= 1).
    { split; [apply Rmin_glb_lt; lra | apply Rmin_r]. }
    split; nra. }
  assert (G : forall c, 1 < c -> tone (hal_channel u uv c) < tone c).
  { intros c Hc1. apply tone_lt. unfold hal_channel, mix.
    set (w := Rmin (ref_sum uv) 1 * u_reflections u) in *. split; nra. }
  remember (lit_color u uv) as col eqn:Ecol. destruct col as [x y z].
  destruct Hin as [E|[E|[E|[]]]]; inversion E; subst;
    cbn [v3x v3y v3z v4x v4y v4z map3v] in *; apply G; exact Hc.
Qed.

(** C1, as the specification states it, fails for the shader of
    [src/HAL.tsx]: on the first frame of the default orb while speaking,
    with reflections at intensity 1, the fragment above the centre on the
    top arc lies inside the mask, reaches the reflections with a blue
    channel above 1, and the white overlay pulls it down: the blue output
    with the overlay is strictly below the blue output without it. *)
Lemma hal_overlay_darkens_speaking_orb :
  0 <= u_reflections speaking_orb <= 1
  /\ v4w (shade speaking_orb on_top_arc) = 1
  /\ v4z (shade speaking_orb on_top_arc)
     < v4z (shade (with_reflections 0 speaking_orb) on_top_arc).
Proof.
  destruct speaking_orb_fields as (_ & _ & _ & _ & Hr & _).
  assert (Hin : length2 on_top_arc <= 0.712)
    by (rewrite length2_on_top_arc; lra).
  split; [rewrite Hr; lra|].
  unfold shade. rewrite !shade_with_inside by exact Hin. cbv zeta.
  rewrite lit_color_with_reflections. cbn [u_reflections with_reflections].
  rewrite Hr.
  destruct (Rlt_dec 0 1); [|lra]. destruct (Rlt_dec 0 0); [lra|].
  cbn [v4w v4z]. split; [reflexivity|].
  rewrite reflections_hal_channels. cbn [map3v v3z].
  rewrite (hal_channel_on_top_arc _ _ Hr).
  apply tone_lt. split; [lra | apply blue_speaking_on_top_arc].
Qed.

(* ---------------------------------------------------------------------- *)
(** *** The sleeping orb stays below white *)

Lemma asleep_orb_fields :
  u_time asleep_orb = 0
  /\ u_highlightSize asleep_orb = 0.12
  /\ u_cloudIntensity asleep_orb = 0.15
  /\ u_reflections asleep_orb = 0.6
  /\ u_baseColor asleep_orb = Vec3 0.04 0.09 0.275
  /\ u_midColor asleep_orb = Vec3 0.075 0.175 0.375
  /\ u_highlight asleep_orb = Vec3 0.25 0.375 0.5.
Proof.
  unfold asleep_orb, Render.uniforms, Render.vec3_of_rgb.
  cbn -[Q2R Qmult]. rewrite !Qreals.Q2R_mult. unfold Q2R. cbn [Qnum Qden].
  repeat split; try f_equal; lra.
Qed.

(** The red channel of the sleeping orb reaches the reflections in
    [0, 1] at every fragment. *)
Lemma red_asleep (uv : vec2) : 0 <= v3x (lit_color asleep_orb uv) <= 1.
Proof.
  destruct asleep_orb_fields as (Ht & Hs & Hci & _ & Hb & Hm & Hh).
  destruct (at_time_zero _ Ht) as [Hchs Hpl]. rewrite Hs in Hchs.
  rewrite lit_color_channels. cbn [v3x]. rewrite Hb, Hm, Hh. cbn [v3x].
  pose proof (lit_channel_range asleep_orb uv 0.04 0.075 0.25) as G.
  rewrite Hci, Hchs, Hpl in G.
  specialize (G ltac:(lra) ltac:(lra) ltac:(lra) ltac:(lra) ltac:(lra)).
  lra.
Qed.

Lemma overlay_brightens_up_to_white_witness :
  v4x (shade (with_reflections 0 asleep_orb) on_top_arc)
  <= v4x (shade asleep_orb on_top_arc)
  /\ v4x (shade_lens (with_reflections 0 asleep_orb) on_top_arc)
     <= v4x (shade_lens asleep_orb on_top_arc).
Proof.
  apply (overlay_brightens_up_to_white asleep_orb on_top_arc v3x v4x).
  - left. reflexivity.
  - destruct asleep_orb_fields as (_ & _ & _ & Hr & _). rewrite Hr. lra.
  - apply red_asleep.
Defined.

(* ---------------------------------------------------------------------- *)
(** *** The lens overlay on an oversized highlight *)

Lemma one_minus_smoothstep_range (e0 e1 x : R) :
  0 <= 1 - smoothstep e0 e1 x <= 1.
Proof. pose proof (smoothstep_range e0 e1 x). lra. Qed.

Lemma Rmult_01 (a b : R) : 0 <= a <= 1 -> 0 <= b <= 1 -> 0 <= a * b <= 1.
Proof. intros [? ?] [? ?]. split; nra. Qed.

Lemma ringMask_range (u : Uniforms) (p c : vec2) (r hw s : R) :
  0 <= ringMask u p c r hw s <= 1.
Proof.
  unfold ringMask. cbv zeta.
  apply Rmult_01; apply one_minus_smoothstep_range.
Qed.

Lemma roundRectMask_range (u : Uniforms) (p hs : vec2) (r s : R) :
  0 <= roundRectMask u p hs r s <= 1.
Proof.
  unfold roundRectMask. cbv zeta.
  apply Rmult_01; apply one_minus_smoothstep_range.
Qed.

(** Inside the rectangle the distance is the larger of the two signed
    distances to its sides, minus the corner radius. *)
Lemma sdRoundRect_inside (p b : vec2) (r : R) :
  Rabs (v2x p) <= v2x b -> Rabs (v2y p) <= v2y b ->
  sdRoundRect p b r = Rmax (Rabs (v2x p) - v2x b) (Rabs (v2y p) - v2y b) - r.
Proof.
  intros Hx Hy. unfold sdRoundRect, sub2, zip2v, map2v, abs. cbv zeta.
  cbn [v2x v2y].
  rewrite (Rmax_right (Rabs (v2x p) - v2x b) 0) by lra.
  rewrite (Rmax_right (Rabs (v2y p) - v2y b) 0) by lra.
  rewrite (length2_axis_y 0) by lra.
  rewrite Rmin_left by (apply Rmax_lub; lra). lra.
Qed.

(** Deep inside a rounded rectangle its mask is 1. *)
Lemma roundRectMask_deep (u : Uniforms) (p hs : vec2) (r s : R) :
  0 < 2 / Rmin (v2x (u_resolution u)) (v2y (u_resolution u)) + s ->
  0 < Rmin (v2x hs) (v2y hs) ->
  sdRoundRect p hs r <= - (Rmin (v2x hs) (v2y hs) * 0.85) ->
  roundRectMask u p hs r s = 1.
Proof.
  intros Ha Hd Hs. unfold roundRectMask. cbv zeta.
  rewrite smoothstep_low by lra.
  rewrite smoothstep_low by lra. lra.
Qed.

(** The core of the lens reflections is at least its bottom dash. *)
Lemma refCore_ge_bottom_dash (u : Uniforms) (rp : vec2) :
  roundRectMask u (sub2 rp (Vec2 0 (-0.36))) (Vec2 0.050 0.016) 0.012
    (soft * 0.75) * 0.34
  <= refCore u rp.
Proof.
  unfold refCore. cbv zeta.
  match goal with
  | |- _ <= 0 + (?a * 1.10 + ?b * 0.85) + ?c * 0.55 + ?d * 0.55
            + (?e * 0.88 + ?f * 0.88 + ?g * 0.55) + (?h * 0.62 + ?i * 0.62)
            + (?j * 0.48 + ?k * 0.48) + _ =>
      assert (0 <= a /\ 0 <= b /\ 0 <= c /\ 0 <= d /\ 0 <= e /\ 0 <= f
              /\ 0 <= g /\ 0 <= h /\ 0 <= i /\ 0 <= j /\ 0 <= k) as N
  end.
  { repeat split;
      repeat first
        [ apply ringMask_range | apply roundRectMask_range
        | apply smoothstep_range | apply one_minus_smoothstep_range
        | apply Rmult_le_pos ]. }
  lra.
Qed.

Lemma length2_on_bottom_dash : length2 on_bottom_dash = 0.72 * 8 / 17.
Proof.
  unfold on_bottom_dash, length2, dot2. cbn [v2x v2y].
  apply sqrt_exact; lra.
Qed.

Lemma sphere_z_on_bottom_dash : sphere_z on_bottom_dash = 15 / 17.
Proof.
  unfold sphere_z, on_bottom_dash, sphereRadius. cbn [v2x v2y].
  rewrite Rmax_right by lra.
  apply sqrt_exact; lra.
Qed.

Lemma sphere_normal_on_bottom_dash :
  sphere_normal on_bottom_dash = Vec3 0 (- (8 / 17)) (15 / 17).
Proof.
  unfold sphere_normal. rewrite sphere_z_on_bottom_dash.
  unfold on_bottom_dash, sphereRadius, normalize3, length3, dot3, map3v.
  cbn [v2x v2y v3x v3y v3z].
  rewrite (sqrt_exact _ 1) by lra.
  f_equal; lra.
Qed.

(** The warped point stays on the vertical axis, 0.0073 above the centre
    of the bottom dash. *)
Lemma lens_point_on_bottom_dash :
  exists y, lens_point on_bottom_dash = Vec2 0 y /\ 0.0073 <= y + 0.36 <= 0.0074.
Proof.
  unfold lens_point. cbv zeta.
  rewrite sphere_normal_on_bottom_dash, sphere_z_on_bottom_dash.
  unfold on_bottom_dash, add2, zip2v. cbn [v2x v2y v3x v3y].
  eexists. split; [f_equal; lra | lra].
Qed.

Lemma oversized_orb_fields :
  u_time oversized_orb = 0
  /\ u_highlightDrift oversized_orb = 0
  /\ u_highlightSize oversized_orb = 30
  /\ u_cloudIntensity oversized_orb = 0.5
  /\ u_reflections oversized_orb = 0.6
  /\ u_resolution oversized_orb = Vec2 600 600
  /\ v3x (u_baseColor oversized_orb) = 0.6
  /\ v3x (u_midColor oversized_orb) = 0.85
  /\ v3x (u_highlight oversized_orb) = 1.
Proof.
  unfold oversized_orb, Render.uniforms, Render.vec3_of_rgb.
  cbn -[Q2R]. unfold Q2R. cbn [Qnum Qden].
  repeat split; try f_equal; lra.
Qed.

(** The bottom dash is fully lit at that fragment. *)
Lemma refCore_on_bottom_dash :
  0.34 <= refCore oversized_orb (lens_point on_bottom_dash).
Proof.
  destruct oversized_orb_fields as (_ & _ & _ & _ & _ & Hres & _).
  destruct lens_point_on_bottom_dash as (y & -> & Hy).
  eapply Rle_trans; [|apply refCore_ge_bottom_dash].
  rewrite roundRectMask_deep; [lra | | |].
  - rewrite Hres. cbn [v2x v2y]. rewrite Rmin_left by lra. unfold soft. lra.
  - cbn [v2x v2y]. rewrite Rmin_right by lra. lra.
  - assert (Px : Rabs (v2x (sub2 (Vec2 0 y) (Vec2 0 (-0.36)))) = 0).
    { unfold sub2, zip2v. cbn [v2x]. replace (0 - 0) with 0 by lra.
      apply Rabs_R0. }
    assert (Py : Rabs (v2y (sub2 (Vec2 0 y) (Vec2 0 (-0.36)))) = y + 0.36).
    { unfold sub2, zip2v. cbn [v2y]. rewrite Rabs_right; lra. }
    rewrite sdRoundRect_inside; rewrite ?Px, ?Py; cbn [v2x v2y]; try lra.
    rewrite Rmax_right by lra. rewrite Rmin_right by lra. lra.
Qed.

Lemma highlightCenter_oversized : highlightCenter oversized_orb = Vec2 0 0.15.
Proof.
  destruct oversized_orb_fields as (Ht & Hd & _).
  unfold highlightCenter. cbv zeta. rewrite Ht, Hd.
  rewrite !Rmult_0_l, sin_0, cos_0.
  rewrite Rmin_left by lra.
  unfold mix2, add2, zip2v, mix. cbn [v2x v2y].
  f_equal; lra.
Qed.

Lemma halfDir_oversized_on_bottom_dash :
  0.83 <= dot3 (Vec3 0 (- (8 / 17)) (15 / 17)) (halfDir oversized_orb) <= 1.
Proof.
  unfold halfDir, lightDir. rewrite highlightCenter_oversized.
  cbn [v2x v2y].
  unfold normalize3, map3v, add3, zip3v, viewDir, dot3. cbn [v3x v3y v3z].
  set (s := length3 (Vec3 0 0.15 0.85)).
  assert (Hs : 0.8631 <= s <= 0.8632).
  { unfold s, length3, dot3. cbn [v3x v3y v3z]. apply sqrt_between; lra. }
  assert (Hw : 1.1584 <= / s <= 1.1587)
    by (apply (Rinv_between s 0.8631 0.8632); lra).
  unfold Rdiv. set (w := / s) in *. clearbody w. clear s Hs.
  assert (W2 : 1.1584 * 1.1584 <= w * w <= 1.1587 * 1.1587) by (split; nra).
  set (q := length3 _).
  assert (Hq : 1.99 <= q <= 1.993).
  { unfold q, length3, dot3. cbn [v3x v3y v3z]. apply sqrt_between; lra. }
  assert (Hi : 0.5017 <= / q <= 0.5026)
    by (apply (Rinv_between q 1.99 1.993); lra).
  set (iq := / q) in *. clearbody iq. clear q Hq.
  split; nra.
Qed.

Lemma red_oversized_on_bottom_dash :
  7 <= v3x (lit_color oversized_orb on_bottom_dash).
Proof.
  destruct oversized_orb_fields as (Ht & _ & Hs & Hci & _ & _ & Hb & Hm & Hh).
  destruct (at_time_zero _ Ht) as [Hchs Hpl]. rewrite Hs in Hchs.
  rewrite lit_color_channels. cbn [v3x]. rewrite Hb, Hm, Hh.
  eapply Rle_trans; [|apply lit_channel_lower; rewrite ?Hci, ?Hchs, ?Hpl; lra].
  cbv zeta. rewrite sphere_normal_on_bottom_dash, Hchs, Hpl.
  pose proof (smoothstep_range sphereRadius (sphereRadius * 0.4)
                (length2 on_bottom_dash)) as Hao.
  pose proof (smoothstep_range (-0.7) 0.4 (v2y on_bottom_dash)) as Hbs.
  set (ao := smoothstep sphereRadius _ _) in *.
  set (bs := smoothstep (-0.7) _ _) in *.
  assert (Hsv : 0.47 <= lobe oversized_orb (Vec3 0 (- (8 / 17)) (15 / 17)) 4).
  { unfold lobe. pose proof halfDir_oversized_on_bottom_dash as [X0 X1].
    rewrite Rmax_right by lra. rewrite pow_4 by lra.
    set (X := dot3 _ _) in *.
    assert (0.6889 <= X * X) by nra. nra. }
  set (sv := lobe _ _ 4) in *.
  assert (F : 0.42 <= (ao * 0.4 + 0.6) * (bs * 0.3 + 0.7)) by nra.
  assert (K : 18 <= ((0.6 * 1 + 0.4) * 0.6 + 1 * 0.7) * (sv * 30) * 1) by lra.
  nra.
Qed.

(** In the second copy a channel that reaches the reflections at 7 or
    more is lowered wherever the core of the lens shapes is lit. *)
Lemma lens_channel_darkens (u : Uniforms) (uv : vec2) (c : R) :
  0 < u_reflections u <= 1 ->
  0 < refCore u (lens_point uv) ->
  7 <= c ->
  0 <= lens_channel u uv c < c.
Proof.
  intros [H0 H1] Hcore Hc. unfold lens_channel. cbv zeta.
  pose proof (clamp_range (fresnel (sphere_normal uv) * 2.4) 0 1 Rle_0_1) as Hf.
  pose proof (clamp_range (refGlow u (lens_point uv)) 0 1 Rle_0_1) as Hg.
  assert (Hm : 0 < clamp (refCore u (lens_point uv)) 0 1 <= 1).
  { split; [|apply clamp_range; lra].
    unfold clamp. apply Rmin_glb_lt; [|lra].
    apply Rlt_le_trans with (refCore u (lens_point uv)); [exact Hcore|].
    apply Rmax_l. }
  set (f := clamp (fresnel _ * 2.4) 0 1) in *.
  set (rm := clamp (refCore _ _) 0 1) in *.
  set (gm := clamp (refGlow _ _) 0 1) in *.
  unfold mix.
  set (e := 0.35 * (1 - f) + 1 * f).
  assert (He : 0.35 <= e <= 1) by (unfold e; lra).
  set (st := u_reflections u * e).
  assert (Hs : 0 < st <= 1) by (unfold st; split; nra).
  set (A := rm * 0.70 + gm * 0.26). set (K := rm * 0.12 + gm * 0.07).
  assert (HA : 0 <= A <= 6 * K) by (unfold A, K; lra).
  assert (HK : 0 < K <= 0.19) by (unfold K; lra).
  assert (HKs : 0 < K * st <= 0.19) by (split; nra).
  assert (HAs : 0 <= A * st <= 6 * (K * st)) by (split; nra).
  set (k := K * st) in *. set (a := A * st) in *.
  replace (1 * A * st) with a by (unfold a; lra).
  clearbody k a. clear - Hc HKs HAs.
  split; nra.
Qed.

(** The second copy lowers a channel as well, once the highlight is large
    enough: the listening orb with a highlight size of 30, at the bottom
    dash. *)
Lemma lens_overlay_darkens_oversized_orb :
  0 <= u_reflections oversized_orb <= 1
  /\ v4w (shade_lens oversized_orb on_bottom_dash) = 1
  /\ v4x (shade_lens oversized_orb on_bottom_dash)
     < v4x (shade_lens (with_reflections 0 oversized_orb) on_bottom_dash).
Proof.
  destruct oversized_orb_fields as (_ & _ & _ & _ & Hr & _).
  assert (Hin : length2 on_bottom_dash <= 0.712)
    by (rewrite length2_on_bottom_dash; lra).
  split; [rewrite Hr; lra|].
  unfold shade_lens. rewrite !shade_with_inside by exact Hin. cbv zeta.
  rewrite lit_color_with_reflections. cbn [u_reflections with_reflections].
  destruct (Rlt_dec 0 (u_reflections oversized_orb)); [|lra].
  destruct (Rlt_dec 0 0); [lra|].
  cbn [v4w v4x]. split; [reflexivity|].
  rewrite reflections_lens_channels. cbn [map3v v3x].
  pose proof red_oversized_on_bottom_dash as Hc.
  pose proof refCore_on_bottom_dash as Hm.
  destruct (lens_channel_darkens oversized_orb on_bottom_dash
              (v3x (lit_color oversized_orb on_bottom_dash))) as [L0 L1];
    try lra.
  apply tone_lt. split; assumption.
Qed.

End FragFacts.

(* ====================================================================== *)
(** ** Further properties of the TypeScript component *)
(* ====================================================================== *)

Section HalMore.

Import Hal Spec Loop Terms.
Local Open Scope Q_scope.

(* ---------------------------------------------------------------------- *)
(** *** More on [hexToRgb] *)

Lemma hex_digit_range (c : ascii) (v : Z) : hex_digit c v -> (0 <= v <= 15)%Z.
Proof.
  unfold hex_digit, hex_digits. simpl. intro H.
  repeat (destruct H as [H|H]; [inversion H; subst; Lia.lia|]).
  destruct H.
Qed.

Lemma hex_color_bytes (s : string) (r g b : Z) :
  hex_color s r g b ->
  (0 <= r <= 255)%Z /\ (0 <= g <= 255)%Z /\ (0 <= b <= 255)%Z.
Proof.
  induction 1 as [c1 c2 c3 c4 c5 c6 v1 v2 v3 v4 v5 v6 H1 H2 H3 H4 H5 H6|];
    [|assumption].
  apply hex_digit_range in H1, H2, H3, H4, H5, H6. Lia.lia.
Qed.

(** The result on a six-digit colour, with or without the sharp sign. *)
Lemma hexToRgb_of_hex_color (s : string) (r g b : Z) :
  hex_color s r g b ->
  hexToRgb s = (inject_Z r / 255, inject_Z g / 255, inject_Z b / 255).
Proof.
  intro H. destruct H as [c1 c2 c3 c4 c5 c6 v1 v2 v3 v4 v5 v6
                            H1 H2 H3 H4 H5 H6 | s r g b H L].
  - apply (hexToRgb_plain c1 c2 c3 c4 c5 c6); assumption.
  - destruct H as [c1 c2 c3 c4 c5 c6 v1 v2 v3 v4 v5 v6
                     H1 H2 H3 H4 H5 H6 | s r g b H L'].
    + apply (hexToRgb_plain c1 c2 c3 c4 c5 c6); assumption.
    + apply hex_color_length in H. simpl in L. Lia.lia.
Qed.

(** Every string is either a six-digit colour or gets the fallback. *)
Lemma hexToRgb_cases (s : string) :
  hexToRgb s = (0.15, 0.35, 0.75)
  \/ exists r g b, hex_color s r g b
       /\ hexToRgb s = (inject_Z r / 255, inject_Z g / 255, inject_Z b / 255).
Proof.
  destruct (regex_exec s) as [m|] eqn:E.
  - right. destruct (regex_exec_some _ _ E) as (r & g & b & Hc).
    exists r, g, b. split; [exact Hc | apply hexToRgb_of_hex_color; exact Hc].
  - left. unfold hexToRgb. rewrite E. reflexivity.
Qed.

Lemma byte_in_unit (n : Z) : (0 <= n <= 255)%Z -> 0 <= inject_Z n / 255 <= 1.
Proof.
  intros [H0 H1]. unfold Qdiv, Qle, inject_Z, Qmult, Qinv. simpl.
  split; Lia.lia.
Qed.

(** X1: whatever the string, [hexToRgb] returns a colour with its three
    channels in [0, 1]. *)
Theorem hexToRgb_in_unit (s : string) : in_unit (hexToRgb s).
Proof.
  destruct (hexToRgb_cases s) as [->|(r & g & b & Hc & ->)].
  - repeat split; vm_compute; congruence.
  - destruct (hex_color_bytes _ _ _ _ Hc) as (Hr & Hg & Hb).
    repeat split; cbv [idx0 idx1 idx2 fst snd]; apply byte_in_unit; assumption.
Qed.

(** X2: two six-digit colours on which [hexToRgb] agrees denote the same
    three bytes; each byte is the channel times 255. *)
Theorem hexToRgb_injective (s s' : string) (r g b r' g' b' : Z) :
  hex_color s r g b -> hex_color s' r' g' b' ->
  rgb_eq (hexToRgb s) (hexToRgb s') ->
  (r, g, b) = (r', g', b').
Proof.
  intros H H' (E0 & E1 & E2).
  rewrite (hexToRgb_of_hex_color _ _ _ _ H) in E0, E1, E2.
  rewrite (hexToRgb_of_hex_color _ _ _ _ H') in E0, E1, E2.
  cbv [idx0 idx1 idx2 fst snd] in E0, E1, E2.
  assert (K : forall x y : Z, inject_Z x / 255 == inject_Z y / 255 -> x = y).
  { intros x y E. unfold Qdiv, Qeq, inject_Z, Qmult, Qinv in E. simpl in E.
    Lia.lia. }
  apply K in E0, E1, E2. subst. reflexivity.
Qed.

Lemma hexToRgb_injective_witness :
  (37, 99, 235)%Z = (37, 99, 235)%Z.
Proof.
  apply (hexToRgb_injective "#2563eb"%string "2563EB"%string 37 99 235 37 99 235).
  - exact hex_color_2563eb.
  - apply (hex_plain "2" "5" "6" "3" "E" "B" 2 5 6 3 14 11)%Z;
      unfold hex_digit, hex_digits; simpl; tauto.
  - vm_compute. repeat split.
Defined.

(** X3: the sharp sign is optional: on every string that does not itself
    start with one, a sharp sign put in front changes nothing. *)
Theorem hexToRgb_sharp_optional (s : string) :
  (forall t, s <> String "#" t) ->
  hexToRgb (String "#" s) = hexToRgb s.
Proof.
  intro N. unfold hexToRgb.
  change (regex_exec (String "#" s))
    with (match groups_to_end s with
          | Some r => Some r
          | None => groups_to_end (String "#" s)
          end).
  assert (E : regex_exec s = groups_to_end s).
  { destruct s as [|c s']; [reflexivity|].
    apply regex_exec_not_sharp. intros ->. exact (N s' eq_refl). }
  rewrite E.
  destruct (groups_to_end s) as [m|] eqn:G; [reflexivity|].
  assert (G' : groups_to_end (String "#" s) = None).
  { destruct s as [|c s']; reflexivity. }
  rewrite G'. reflexivity.
Qed.

Lemma hexToRgb_sharp_optional_witness :
  hexToRgb "#2563eb"%string = hexToRgb "2563eb"%string.
Proof.
  apply (hexToRgb_sharp_optional "2563eb"%string). intros t H. discriminate H.
Defined.

Section Recasing.

(** A change of letters that keeps the class of the pattern, the value of
    the digits and the sharp sign. *)
Variable f : ascii -> ascii.
Hypothesis f_class : forall c, class_af_d (f c) = class_af_d c.
Hypothesis f_digit : forall c, digit16 (f c) = digit16 c.
Hypothesis f_sharp : forall c, f c = "#"%char <-> c = "#"%char.

Lemma group2_recased (s : string) :
  group2 (map_string f s)
  = match group2 s with
    | Some (g, rest) => Some (map_string f g, map_string f rest)
    | None => None
    end.
Proof.
  destruct s as [|c1 [|c2 rest]]; try reflexivity.
  simpl. rewrite !f_class.
  destruct (class_af_d c1 && class_af_d c2); reflexivity.
Qed.

Lemma groups_to_end_recased (s : string) :
  groups_to_end (map_string f s)
  = match groups_to_end s with
    | Some (g1, g2, g3) =>
        Some (map_string f g1, map_string f g2, map_string f g3)
    | None => None
    end.
Proof.
  unfold groups_to_end. rewrite group2_recased.
  destruct (group2 s) as [[g1 s1]|]; [|reflexivity].
  rewrite group2_recased.
  destruct (group2 s1) as [[g2 s2]|]; [|reflexivity].
  rewrite group2_recased.
  destruct (group2 s2) as [[g3 s3]|]; [|reflexivity].
  destruct s3; reflexivity.
Qed.

Lemma regex_exec_recased (s : string) :
  regex_exec (map_string f s)
  = match regex_exec s with
    | Some (g1, g2, g3) =>
        Some (map_string f g1, map_string f g2, map_string f g3)
    | None => None
    end.
Proof.
  destruct s as [|c s']; [reflexivity|].
  destruct (ascii_dec c "#") as [->|N].
  - assert (E : f "#"%char = "#"%char) by (apply f_sharp; reflexivity).
    cbn [map_string]. rewrite E.
    change (regex_exec (String "#" (map_string f s')))
      with (match groups_to_end (map_string f s') with
            | Some r => Some r
            | None => groups_to_end (String "#" (map_string f s'))
            end).
    change (regex_exec (String "#" s'))
      with (match groups_to_end s' with
            | Some r => Some r
            | None => groups_to_end (String "#" s')
            end).
    rewrite groups_to_end_recased.
    destruct (groups_to_end s') as [[[g1 g2] g3]|]; [reflexivity|].
    rewrite <- E at 1.
    change (String (f "#"%char) (map_string f s'))
      with (map_string f (String "#" s')).
    apply groups_to_end_recased.
  - assert (N' : f c <> "#"%char) by (intro K; apply N, f_sharp, K).
    cbn [map_string].
    rewrite (regex_exec_not_sharp _ _ N'), (regex_exec_not_sharp _ _ N).
    change (String (f c) (map_string f s')) with (map_string f (String c s')).
    apply groups_to_end_recased.
Qed.

Lemma parseInt16_from_recased (s : string) (acc : Z) :
  parseInt16_from acc (map_string f s) = parseInt16_from acc s.
Proof.
  revert acc. induction s as [|c s IH]; intro acc; [reflexivity|].
  simpl. rewrite f_digit. destruct (digit16 c); [apply IH | reflexivity].
Qed.

Lemma channel_recased (g : string) : channel (map_string f g) = channel g.
Proof.
  unfold channel, parseInt16. destruct g as [|c g]; [reflexivity|].
  cbn [map_string]. rewrite f_digit.
  destruct (digit16 c) eqn:D; [|reflexivity].
  change (String (f c) (map_string f g)) with (map_string f (String c g)).
  rewrite parseInt16_from_recased. reflexivity.
Qed.

Lemma hexToRgb_recased (s : string) : hexToRgb (map_string f s) = hexToRgb s.
Proof.
  unfold hexToRgb. rewrite regex_exec_recased.
  destruct (regex_exec s) as [[[g1 g2] g3]|]; [|reflexivity].
  rewrite !channel_recased. reflexivity.
Qed.

End Recasing.

Lemma upper_keeps :
  (forall c, class_af_d (upper c) = class_af_d c)
  /\ (forall c, digit16 (upper c) = digit16 c)
  /\ (forall c, upper c = "#"%char <-> c = "#"%char).
Proof.
  repeat split; destruct c as [[] [] [] [] [] [] [] []];
    try reflexivity; vm_compute; intro H; discriminate H.
Qed.

Lemma lower_keeps :
  (forall c, class_af_d (lower c) = class_af_d c)
  /\ (forall c, digit16 (lower c) = digit16 c)
  /\ (forall c, lower c = "#"%char <-> c = "#"%char).
Proof.
  repeat split; destruct c as [[] [] [] [] [] [] [] []];
    try reflexivity; vm_compute; intro H; discriminate H.
Qed.

(** X4: [hexToRgb] does not see the case of the letters: a string, its
    upper-case form and its lower-case form give the same colour, valid
    or not. *)
Theorem hexToRgb_case_insensitive (s : string) :
  hexToRgb (toUpperCase s) = hexToRgb s
  /\ hexToRgb (toLowerCase s) = hexToRgb s.
Proof.
  destruct upper_keeps as (U1 & U2 & U3), lower_keeps as (L1 & L2 & L3).
  split; apply hexToRgb_recased; assumption.
Qed.

(* ---------------------------------------------------------------------- *)
(** *** More on [generateColorScheme] *)

Lemma Qmin_one_range (x : Q) : 0 <= x -> 0 <= Qmin 1 x <= 1.
Proof.
  intro H. destruct (Q.min_spec 1 x) as [[? ->]|[? ->]]; split; Lqa.lra.
Qed.

Lemma Qmin_one_ge (x y : Q) : y <= 1 -> y <= x -> y <= Qmin 1 x.
Proof.
  intros H1 H2. destruct (Q.min_spec 1 x) as [[? ->]|[? ->]]; Lqa.lra.
Qed.

Lemma generateColorScheme_unit (c : rgb) :
  in_unit c -> scheme_in_unit (generateColorScheme c).
Proof.
  destruct c as [[r g] b]. intros (Hr & Hg & Hb).
  cbv [idx0 idx1 idx2 fst snd] in Hr, Hg, Hb.
  unfold generateColorScheme.
  destruct (Qltb _ 0.1).
  - set (l := 0.299 * r + 0.587 * g + 0.114 * b).
    assert (Hl : 0 <= l <= 1) by (unfold l; split; Lqa.lra).
    unfold scheme_in_unit, in_unit.
    cbv [idx0 idx1 idx2 fst snd base mid highlight].
    repeat split; Lqa.lra.
  - unfold scheme_in_unit, in_unit.
    cbv [idx0 idx1 idx2 fst snd base mid highlight].
    repeat split; first [apply Qmin_one_range; Lqa.lra | Lqa.lra].
Qed.

(** X5: on a colour with its channels in [0, 1], [generateColorScheme]
    returns three colours with their channels in [0, 1], and its base
    colour is channel-wise below its mid colour and its highlight. *)
Theorem generateColorScheme_in_unit (c : rgb) :
  in_unit c ->
  scheme_in_unit (generateColorScheme c)
  /\ rgb_le (base (generateColorScheme c)) (mid (generateColorScheme c))
  /\ rgb_le (base (generateColorScheme c)) (highlight (generateColorScheme c)).
Proof.
  intro H. split; [apply generateColorScheme_unit; exact H|].
  destruct c as [[r g] b]. destruct H as (Hr & Hg & Hb).
  cbv [idx0 idx1 idx2 fst snd] in Hr, Hg, Hb.
  unfold generateColorScheme.
  destruct (Qltb _ 0.1); unfold rgb_le;
    cbv [idx0 idx1 idx2 fst snd base mid highlight];
    repeat split; first [apply Qmin_one_ge; Lqa.lra | Lqa.lra].
Qed.

Lemma generateColorScheme_in_unit_witness :
  scheme_in_unit (generateColorScheme (0.8, 0.1, 0.1)).
Proof.
  apply (generateColorScheme_in_unit (0.8, 0.1, 0.1)).
  repeat split; vm_compute; congruence.
Defined.

(** X6: every gray input, black included (where the maximum is 0 and the
    saturation is taken as 0), gives the monochrome scheme: gray base and
    mid at 0.4 and 0.8 of the input, and the fixed highlight 0.95. *)
Theorem generateColorScheme_gray_input (v : Q) :
  scheme_eq (generateColorScheme (v, v, v))
    {| base := gray (0.4 * v); mid := gray (0.8 * v); highlight := gray 0.95 |}.
Proof.
  unfold generateColorScheme.
  pose proof (saturation_code v v v) as Hs.
  set (sat := if Qeqb0 (Qmax (Qmax v v) v) then 0
              else (Qmax (Qmax v v) v - Qmin (Qmin v v) v) / Qmax (Qmax v v) v)
    in *.
  assert (Z : saturation (v, v, v) == 0).
  { unfold saturation. cbv [idx0 idx1 idx2 fst snd].
    destruct (Qeq_bool (Qmax v (Qmax v v)) 0) eqn:E; [reflexivity|].
    apply Qeq_bool_neq in E.
    assert (M : Qmax v (Qmax v v) == v) by (rewrite !Q.max_id; reflexivity).
    assert (m : Qmin v (Qmin v v) == v) by (rewrite !Q.min_id; reflexivity).
    rewrite M, m. rewrite M in E. field. exact E. }
  assert (E : Qltb sat 0.1 = true).
  { apply Qltb_spec. rewrite Hs, Z. reflexivity. }
  rewrite E.
  repeat split; cbv [idx0 idx1 idx2 fst snd base mid highlight gray];
    Lqa.lra.
Qed.

(* ---------------------------------------------------------------------- *)
(** *** Precedence of the colour props *)

(** X7: an explicit [colorScheme] decides the three colours alone: preset
    (the red of listening, the dimming of asleep), [color] and
    [presetColors] play no part, and a field it leaves out is the field of
    the built-in blue scheme. *)
Theorem colorScheme_wins (props : HALProps) (cs : HALColorScheme) :
  colorScheme props = Some cs ->
  colors_of (targetState props)
  = {| base := or_default (o_base cs) (0.08, 0.18, 0.55);
       mid := or_default (o_mid cs) (0.15, 0.35, 0.75);
       highlight := or_default (o_highlight cs) (0.5, 0.75, 1.0) |}.
Proof.
  intro H. destruct props as [p c pc s an sp r]. simpl in H. subst s.
  unfold targetState, colors_of, dim_for_asleep, resolve_colors.
  cbn [colorScheme preset base mid highlight baseColor midColor p_highlight].
  rewrite andb_false_r. reflexivity.
Qed.

Lemma colorScheme_wins_witness :
  colors_of
    (targetState
       {| preset := asleep; color := Some "#ff0000"%string;
          presetColors := Some (fun _ => Some "#00ff00"%string);
          colorScheme := Some (mkSchemeOpt (Some (1, 0, 0)) None None);
          animation := None; transitionSpeed := 1;
          reflections := ReflBool false |})
  = {| base := (1, 0, 0); mid := (0.15, 0.35, 0.75);
       highlight := (0.5, 0.75, 1.0) |}.
Proof.
  apply (colorScheme_wins _ (mkSchemeOpt (Some (1, 0, 0)) None None)).
  reflexivity.
Defined.

(** X8: the prop [color] is read only as a last resort: it changes nothing
    when a [colorScheme] is given, when the preset is listening, or when
    [presetColors] has a non-empty entry for the preset. *)
Theorem color_ignored (props : HALProps) (c : option string) :
  colorScheme props <> None
  \/ preset props = listening
  \/ presetColor (presetColors props) (preset props) <> None ->
  targetState (with_color c props) = targetState props.
Proof.
  destruct props as [p c0 pc s an sp r].
  unfold with_color, targetState, dim_for_asleep, resolve_colors.
  cbn [colorScheme preset color presetColors animation].
  intros [H|[H|H]].
  - destruct s; [reflexivity | contradiction].
  - subst p. destruct s; reflexivity.
  - destruct s; [reflexivity|].
    destruct (HALPreset_eqb p listening); [reflexivity|].
    destruct (presetColor pc p); [reflexivity | contradiction].
Qed.

Lemma color_ignored_witness :
  targetState (with_color (Some "#00ff00"%string)
                 (bare listening 1 (ReflBool false)))
  = targetState (bare listening 1 (ReflBool false)).
Proof.
  apply (color_ignored (bare listening 1 (ReflBool false))).
  right. left. reflexivity.
Defined.

(** X9: an empty string is no colour: an empty [color] resolves like an
    absent [color], and a [presetColors] whose entries are all empty or
    absent resolves like an absent [presetColors]. *)
Theorem empty_string_is_absent
  (p : HALPreset) (c : option string) (m : HALPreset -> option string)
  (s : option HALColorScheme) (an : option HALAnimationParams)
  (sp : Q) (r : Reflections) :
  targetState (mkProps p (Some EmptyString) (Some m) s an sp r)
  = targetState (mkProps p None (Some m) s an sp r)
  /\ ((forall q, m q = Some EmptyString \/ m q = None) ->
      targetState (mkProps p c (Some m) s an sp r)
      = targetState (mkProps p c None s an sp r)).
Proof.
  split.
  - reflexivity.
  - intro H.
    assert (E : forall q, presetColor (Some m) q = None).
    { intro q. unfold presetColor. destruct (H q) as [-> | ->]; reflexivity. }
    unfold targetState, dim_for_asleep, resolve_colors.
    cbn [colorScheme preset color presetColors animation].
    rewrite !E. reflexivity.
Qed.

Lemma empty_string_is_absent_witness :
  targetState (mkProps listening None (Some (fun _ => Some EmptyString))
                 None None 1 (ReflBool false))
  = targetState (mkProps listening None None None None 1 (ReflBool false)).
Proof.
  apply (proj2 (empty_string_is_absent listening None
                  (fun _ => Some EmptyString) None None 1 (ReflBool false))).
  intro q. left. reflexivity.
Defined.




(* ---------------------------------------------------------------------- *)
(** *** The colours of the target stay in [0, 1] *)

Lemma in_unit_half (c : rgb) : in_unit c -> in_unit (map3 (fun x => x * 0.5) c).
Proof.
  destruct c as [[r g] b]. unfold in_unit.
  cbv [idx0 idx1 idx2 fst snd map3]. intros (Hr & Hg & Hb).
  repeat split; Lqa.lra.
Qed.

Lemma generated_in_unit (s : string) :
  scheme_in_unit (generateColorScheme (hexToRgb s)).
Proof.
  apply generateColorScheme_unit.
  destruct (hexToRgb_cases s) as [->|(r & g & b & Hc & ->)].
  - repeat split; vm_compute; congruence.
  - destruct (hex_color_bytes _ _ _ _ Hc) as (Hr & Hg & Hb).
    repeat split; cbv [idx0 idx1 idx2 fst snd]; apply byte_in_unit; assumption.
Qed.

Lemma presets_in_unit :
  scheme_in_unit PRESET_COLORS_blue /\ scheme_in_unit LISTENING_COLOR.
Proof. repeat split; vm_compute; congruence. Qed.

(** X11: whatever the strings in [color] and [presetColors] and whatever
    the preset, the three colours of the target state have every channel
    in [0, 1], provided the channels of an explicit [colorScheme] do. *)
Lemma targetState_colors_unit (props : HALProps) :
  (forall cs, colorScheme props = Some cs -> given_in_unit cs) ->
  scheme_in_unit (colors_of (targetState props)).
Proof.
  destruct presets_in_unit as [Hblue Hred].
  destruct props as [p c pc s an sp r].
  cbn [colorScheme]. intro G.
  assert (R : scheme_in_unit (resolve_colors (mkProps p c pc s an sp r))).
  { unfold resolve_colors. cbn [colorScheme preset color presetColors].
    destruct s as [cs|].
    - destruct (G cs eq_refl) as (Gb & Gm & Gh).
      destruct Hblue as (Bb & Bm & Bh).
      split; [|split]; cbn [base mid highlight].
      * destruct (o_base cs) as [x|] eqn:E; cbn [or_default];
          [apply (Gb x eq_refl) | assumption].
      * destruct (o_mid cs) as [x|] eqn:E; cbn [or_default];
          [apply (Gm x eq_refl) | assumption].
      * destruct (o_highlight cs) as [x|] eqn:E; cbn [or_default];
          [apply (Gh x eq_refl) | assumption].
    - destruct (HALPreset_eqb p listening).
      + destruct (presetColor pc listening);
          [apply generated_in_unit | exact Hred].
      + destruct (presetColor pc p); [apply generated_in_unit|].
        destruct c as [x|]; [|exact Hblue].
        destruct (truthy x); [apply generated_in_unit | exact Hblue]. }
  unfold targetState, colors_of, dim_for_asleep.
  cbn [baseColor midColor p_highlight].
  destruct (HALPreset_eqb _ asleep && _).
  - destruct R as (Rb & Rm & Rh).
    split; [|split]; cbn [base mid highlight]; apply in_unit_half; assumption.
  - destruct R as (Rb & Rm & Rh). split; [|split]; assumption.
Qed.

Theorem targetState_in_unit (props : HALProps) :
  (forall cs, colorScheme props = Some cs -> given_in_unit cs) ->
  scheme_in_unit (colors_of (targetState props)).
Proof. exact (targetState_colors_unit props). Qed.

Lemma targetState_in_unit_witness :
  scheme_in_unit
    (colors_of (targetState (mkProps asleep (Some "notacolor"%string) None None
                               None 1 (ReflBool false)))).
Proof.
  apply (targetState_in_unit
           (mkProps asleep (Some "notacolor"%string) None None None 1
              (ReflBool false))).
  intros cs H. discriminate H.
Defined.

(* ---------------------------------------------------------------------- *)
(** *** Many frames toward a fixed target *)

Lemma advance_smoothed (f : Params -> Q) (c g : Params) (m : Q) :
  In f smoothed -> f (advance c g m) = lerp (f c) (f g) (render_t m).
Proof.
  unfold smoothed, color_channels, smoothed_scalars. simpl. intro H.
  repeat (destruct H as [H|H]; [subst f; reflexivity|]).
  destruct H.
Qed.

Lemma advance_snapped (f : Params -> Q) (c g : Params) (m : Q) :
  In f snapped -> f (advance c g m) = f g.
Proof.
  unfold snapped. simpl. intro H.
  repeat (destruct H as [H|H]; [subst f; reflexivity|]).
  destruct H.
Qed.

Lemma frames_snapped (f : Params -> Q) (n : nat) (c g : Params) (m : Q) :
  In f snapped -> f (frames (S n) c g m) = f g.
Proof.
  intro H. revert c. induction n as [|n IH]; intro c.
  - apply advance_snapped. exact H.
  - change (frames (S (S n)) c g m) with (frames (S n) (advance c g m) g m).
    apply IH.
Qed.

Lemma frames_smoothed_closed (f : Params -> Q) (n : nat) (cur tgt : Params)
  (m : Q) :
  In f smoothed ->
  f (frames n cur tgt m) - f tgt == qpow (1 - render_t m) n * (f cur - f tgt).
Proof.
  intro H. revert cur. induction n as [|n IH]; intro cur.
  - simpl. Lqa.lra.
  - change (frames (S n) cur tgt m) with (frames n (advance cur tgt m) tgt m).
    rewrite IH. rewrite (advance_smoothed f cur tgt m H).
    unfold lerp. cbn [qpow]. ring.
Qed.

(** X12: after [n] frames toward a fixed target, every smoothed field is
    away from the target by the initial distance times [(1 - t)] to the
    power [n], with [t] the step of a frame; every copied field equals the
    target from the first frame on. *)
Theorem frames_closed_form (n : nat) (cur tgt : Params) (m : Q) (f : Params -> Q) :
  (In f smoothed ->
   f (frames n cur tgt m) - f tgt
   == qpow (1 - render_t m) n * (f cur - f tgt))
  /\ (In f snapped -> (0 < n)%nat -> f (frames n cur tgt m) = f tgt).
Proof.
  split.
  - apply frames_smoothed_closed.
  - intros H Hn. destruct n as [|n]; [Lia.lia|].
    apply frames_snapped. exact H.
Qed.

Lemma frames_closed_form_witness :
  highlightSize (anim (frames 2 (targetState (bare idle 1 (ReflBool false)))
                         (targetState (bare speaking 1 (ReflBool false))) 1))
  - 1.2
  == qpow (1 - render_t 1) 2 * (0.35 - 1.2)
  /\ pulseSpeed (anim (frames 2 (targetState (bare idle 1 (ReflBool false)))
                         (targetState (bare speaking 1 (ReflBool false))) 1))
     = 6.0.
Proof.
  split.
  - apply (proj1 (frames_closed_form 2
                    (targetState (bare idle 1 (ReflBool false)))
                    (targetState (bare speaking 1 (ReflBool false))) 1
                    (fun p => highlightSize (anim p)))).
    unfold smoothed. apply in_or_app. right. left. reflexivity.
  - apply (proj2 (frames_closed_form 2
                    (targetState (bare idle 1 (ReflBool false)))
                    (targetState (bare speaking 1 (ReflBool false))) 1
                    (fun p => pulseSpeed (anim p)))).
    + left. reflexivity.
    + Lia.lia.
Defined.

(** X13: one frame multiplies the distance of a smoothed field to its
    target by [|1 - t|]: the field comes strictly closer when
    [0 < t < 2] and moves strictly away when [t > 2], that is for a
    [transitionSpeed] above 400/3. *)
Theorem advance_distance (cur tgt : Params) (m : Q) (f : Params -> Q) :
  In f smoothed ->
  Qabs (f (advance cur tgt m) - f tgt)
  == Qabs (1 - render_t m) * Qabs (f cur - f tgt)
  /\ (~ f cur == f tgt -> 0 < render_t m -> render_t m < 2 ->
      Qabs (f (advance cur tgt m) - f tgt) < Qabs (f cur - f tgt))
  /\ (~ f cur == f tgt -> 2 < render_t m ->
      Qabs (f cur - f tgt) < Qabs (f (advance cur tgt m) - f tgt)).
Proof.
  intro H. rewrite (advance_smoothed f cur tgt m H).
  set (t := render_t m). set (a := f cur). set (b := f tgt).
  assert (E : Qabs (lerp a b t - b) == Qabs (1 - t) * Qabs (a - b)).
  { rewrite <- Qabs_Qmult. apply Qabs_wd. unfold lerp. ring. }
  split; [exact E|].
  assert (P : ~ a == b -> 0 < Qabs (a - b)).
  { intro N. apply Qabs_case; intro K;
      destruct (Qlt_le_dec 0 (a - b)); destruct (Qlt_le_dec (a - b) 0);
      try Lqa.lra; exfalso; apply N; Lqa.lra. }
  split.
  - intros N H0 H2. rewrite E. specialize (P N).
    assert (K : Qabs (1 - t) < 1).
    { apply Qabs_case; intros; Lqa.lra. }
    set (x := Qabs (1 - t)) in *. set (d := Qabs (a - b)) in *.
    assert (0 <= x) by apply Qabs_nonneg.
    setoid_replace d with (1 * d) at 2 by ring.
    apply Qmult_lt_compat_r; assumption.
  - intros N H2. rewrite E. specialize (P N).
    assert (K : 1 < Qabs (1 - t)).
    { apply Qabs_case; intros; Lqa.lra. }
    set (x := Qabs (1 - t)) in *. set (d := Qabs (a - b)) in *.
    setoid_replace d with (1 * d) at 1 by ring.
    apply Qmult_lt_compat_r; assumption.
Qed.

Lemma advance_distance_witness :
  let idle_state := targetState (bare idle 1 (ReflBool false)) in
  let speaking_state := targetState (bare speaking 1 (ReflBool false)) in
  Qabs (highlightSize (anim (advance idle_state speaking_state 1)) - 1.2)
  < Qabs (0.35 - 1.2)
  /\ Qabs (0.35 - 1.2)
     < Qabs (highlightSize (anim (advance idle_state speaking_state 200)) - 1.2).
Proof.
  intros idle_state speaking_state.
  assert (I : In (fun p => highlightSize (anim p)) smoothed).
  { unfold smoothed. apply in_or_app. right. left. reflexivity. }
  destruct (advance_distance idle_state speaking_state 1 _ I) as (_ & A & _).
  destruct (advance_distance idle_state speaking_state 200 _ I) as (_ & _ & B).
  split.
  - apply A; vm_compute; congruence.
  - apply B; vm_compute; congruence.
Defined.

Lemma lerp_in_unit (a b t : Q) :
  0 <= t <= 1 -> 0 <= a <= 1 -> 0 <= b <= 1 -> 0 <= lerp a b t <= 1.
Proof.
  intros [T0 T1] [A0 A1] [B0 B1]. unfold lerp.
  assert (E : a + (b - a) * t == a * (1 - t) + b * t) by ring.
  rewrite E.
  assert (0 <= a * (1 - t)) by (apply Qmult_le_0_compat; Lqa.lra).
  assert (0 <= b * t) by (apply Qmult_le_0_compat; Lqa.lra).
  assert (0 <= (1 - a) * (1 - t)) by (apply Qmult_le_0_compat; Lqa.lra).
  assert (0 <= (1 - b) * t) by (apply Qmult_le_0_compat; Lqa.lra).
  split; Lqa.lra.
Qed.

Lemma lerpColor_in_unit (a b : rgb) (t : Q) :
  0 <= t <= 1 -> in_unit a -> in_unit b -> in_unit (lerpColor a b t).
Proof.
  intros T (A0 & A1 & A2) (B0 & B1 & B2). unfold lerpColor, in_unit.
  cbv [idx0 idx1 idx2 fst snd] in *.
  repeat split; apply lerp_in_unit; assumption.
Qed.

Lemma lerp_between (lo hi a b t : Q) :
  0 <= t <= 1 -> lo <= a <= hi -> lo <= b <= hi -> lo <= lerp a b t <= hi.
Proof.
  intros [T0 T1] [A0 A1] [B0 B1]. unfold lerp.
  assert (E : a + (b - a) * t == a * (1 - t) + b * t) by ring.
  rewrite E.
  assert (0 <= (a - lo) * (1 - t)) by (apply Qmult_le_0_compat; Lqa.lra).
  assert (0 <= (b - lo) * t) by (apply Qmult_le_0_compat; Lqa.lra).
  assert (0 <= (hi - a) * (1 - t)) by (apply Qmult_le_0_compat; Lqa.lra).
  assert (0 <= (hi - b) * t) by (apply Qmult_le_0_compat; Lqa.lra).
  split; Lqa.lra.
Qed.

Lemma lerp_nonneg (a b t : Q) :
  0 <= t <= 1 -> 0 <= a -> 0 <= b -> 0 <= lerp a b t.
Proof.
  intros [T0 T1] A0 B0. unfold lerp.
  assert (E : a + (b - a) * t == a * (1 - t) + b * t) by ring.
  rewrite E.
  assert (0 <= a * (1 - t)) by (apply Qmult_le_0_compat; Lqa.lra).
  assert (0 <= b * t) by (apply Qmult_le_0_compat; Lqa.lra).
  Lqa.lra.
Qed.

Lemma advance_in_range (cur tgt : Params) (m : Q) :
  0 <= render_t m <= 1 ->
  params_in_range cur -> params_in_range tgt ->
  params_in_range (advance cur tgt m).
Proof.
  intros T [(Cb & Cm & Ch) (Cc & Cs & Cp & Ca)] [(Tb & Tm & Th) (Tc & Ts & Tp & Ta)].
  cbn [colors_of base mid highlight] in *.
  split.
  - split; [|split]; cbn [colors_of base mid highlight advance baseColor
                          midColor p_highlight];
      apply lerpColor_in_unit; assumption.
  - unfold anim_in_range.
    cbn [advance anim cloudIntensity highlightSize highlightPulse pulseAmount].
    split; [|split; [|split]].
    + apply lerp_between; assumption.
    + apply lerp_nonneg; assumption.
    + apply lerp_between; assumption.
    + apply lerp_between; assumption.
Qed.

Lemma frames_in_range_all (n : nat) (cur tgt : Params) (m : Q) :
  0 <= render_t m <= 1 ->
  params_in_range cur -> params_in_range tgt ->
  params_in_range (frames n cur tgt m).
Proof.
  intros T Hc Ht. revert cur Hc. induction n as [|n IH]; intros cur Hc.
  - exact Hc.
  - change (frames (S n) cur tgt m) with (frames n (advance cur tgt m) tgt m).
    apply IH, advance_in_range; assumption.
Qed.

(** X14: while the step of a frame lies in [0, 1], that is for a
    [transitionSpeed] between 0 and 200/3, a state that starts with its
    colours in [0, 1] and its smoothed scalars in range, and moves toward
    such a target, is such a state on every frame. *)
Theorem frames_in_range (n : nat) (cur tgt : Params) (m : Q) :
  0 <= m <= 200 # 3 ->
  params_in_range cur -> params_in_range tgt ->
  params_in_range (frames n cur tgt m).
Proof.
  intros [M0 M1]. apply frames_in_range_all.
  unfold render_t. split; Lqa.lra.
Qed.

Lemma anim_in_range_presets (p : HALPreset) : anim_in_range (PRESET_ANIMATIONS p).
Proof.
  destruct p; unfold anim_in_range; cbn; repeat split; Lqa.lra.
Qed.

Lemma targetState_in_range_bare (p : HALPreset) (m : Q) (r : Reflections) :
  params_in_range (targetState (bare p m r)).
Proof.
  split.
  - destruct p; repeat split; vm_compute; congruence.
  - apply anim_in_range_presets.
Qed.

Lemma frames_in_range_witness :
  params_in_range
    (frames 3 (targetState (bare idle 1 (ReflBool false)))
       (targetState (bare listening 1 (ReflBool false))) 1).
Proof.
  apply (frames_in_range 3 (targetState (bare idle 1 (ReflBool false)))
           (targetState (bare listening 1 (ReflBool false))) 1).
  - split; vm_compute; congruence.
  - apply targetState_in_range_bare.
  - apply targetState_in_range_bare.
Defined.

(* ---------------------------------------------------------------------- *)
(** *** Overshoot and convergence *)

(** X15: with a step in [0, 1] a smoothed field lands between its old
    value and the target; with a step above 1 it lands beyond the target. *)
Theorem advance_overshoot (cur tgt : Params) (m : Q) (f : Params -> Q) :
  In f smoothed ->
  (0 <= render_t m <= 1 ->
   Qmin (f cur) (f tgt) <= f (advance cur tgt m) <= Qmax (f cur) (f tgt))
  /\ (1 < render_t m -> f cur < f tgt -> f tgt < f (advance cur tgt m))
  /\ (1 < render_t m -> f tgt < f cur -> f (advance cur tgt m) < f tgt).
Proof.
  intro H. rewrite (advance_smoothed f cur tgt m H).
  set (t := render_t m). set (a := f cur). set (b := f tgt).
  clearbody t a b. unfold lerp.
  split; [|split].
  - intros [T0 T1].
    assert (E : a + (b - a) * t == a * (1 - t) + b * t) by ring.
    rewrite E.
    destruct (Qlt_le_dec a b) as [L|L].
    + rewrite Q.min_l, Q.max_r by Lqa.lra.
      assert (0 <= (b - a) * t) by (apply Qmult_le_0_compat; Lqa.lra).
      assert (0 <= (b - a) * (1 - t)) by (apply Qmult_le_0_compat; Lqa.lra).
      split; Lqa.lra.
    + rewrite Q.min_r, Q.max_l by Lqa.lra.
      assert (0 <= (a - b) * t) by (apply Qmult_le_0_compat; Lqa.lra).
      assert (0 <= (a - b) * (1 - t)) by (apply Qmult_le_0_compat; Lqa.lra).
      split; Lqa.lra.
  - intros T L.
    assert (0 < (b - a) * (t - 1)) by (apply Qmult_lt_0_compat; Lqa.lra).
    Lqa.lra.
  - intros T L.
    assert (0 < (a - b) * (t - 1)) by (apply Qmult_lt_0_compat; Lqa.lra).
    Lqa.lra.
Qed.

Lemma advance_overshoot_witness :
  let idle_state := targetState (bare idle 1 (ReflBool false)) in
  let speaking_state := targetState (bare speaking 1 (ReflBool false)) in
  0.35 <= highlightSize (anim (advance idle_state speaking_state 1)) <= 1.2
  /\ 1.2 < highlightSize (anim (advance idle_state speaking_state 100)).
Proof.
  intros idle_state speaking_state.
  assert (I : In (fun p => highlightSize (anim p)) smoothed).
  { unfold smoothed. apply in_or_app. right. left. reflexivity. }
  destruct (advance_overshoot idle_state speaking_state 1 _ I) as (A & _ & _).
  destruct (advance_overshoot idle_state speaking_state 100 _ I) as (_ & B & _).
  split.
  - apply A. split; vm_compute; congruence.
  - apply B; vm_compute; congruence.
Defined.

Lemma qpow_nonneg (r : Q) (n : nat) : 0 <= r -> 0 <= qpow r n.
Proof.
  intro H. induction n as [|n IH]; cbn [qpow]; [Lqa.lra|].
  apply Qmult_le_0_compat; assumption.
Qed.

Lemma qpow_abs (r : Q) (n : nat) : Qabs (qpow r n) == qpow (Qabs r) n.
Proof.
  induction n as [|n IH]; cbn [qpow]; [reflexivity|].
  rewrite Qabs_Qmult, IH. reflexivity.
Qed.

Lemma inject_nat_S (n : nat) :
  inject_Z (Z.of_nat (S n)) == inject_Z (Z.of_nat n) + 1.
Proof.
  rewrite Nat2Z.inj_succ. unfold Z.succ. rewrite inject_Z_plus. reflexivity.
Qed.

(** Bernoulli: [r^n (1 + n (1 - r)) <= 1] for [0 <= r <= 1]. *)
Lemma qpow_decay (r : Q) (n : nat) :
  0 <= r <= 1 -> qpow r n * (1 + inject_Z (Z.of_nat n) * (1 - r)) <= 1.
Proof.
  intros [R0 R1]. induction n as [|n IH].
  - cbn [qpow]. change (inject_Z (Z.of_nat 0)) with 0.
    assert (E : 1 * (1 + 0 * (1 - r)) == 1) by ring.
    rewrite E. Lqa.lra.
  - cbn [qpow]. rewrite inject_nat_S.
    set (k := inject_Z (Z.of_nat n)) in *.
    assert (K : 0 <= k).
    { unfold k. change 0 with (inject_Z 0). rewrite <- Zle_Qle. Lia.lia. }
    pose proof (qpow_nonneg r n R0) as P.
    set (q := qpow r n) in *. clearbody q k.
    assert (E : r * q * (1 + (k + 1) * (1 - r))
                == q * (1 + k * (1 - r))
                   - q * ((k + 1) * ((1 - r) * (1 - r)))) by ring.
    rewrite E.
    assert (0 <= q * ((k + 1) * ((1 - r) * (1 - r)))).
    { apply Qmult_le_0_compat; [exact P|].
      apply Qmult_le_0_compat; [Lqa.lra|].
      apply Qmult_le_0_compat; Lqa.lra. }
    Lqa.lra.
Qed.

(** X16: with a step strictly between 0 and 2, that is for a
    [transitionSpeed] strictly between 0 and 400/3, every smoothed field
    converges to its target: for every tolerance there is a number of
    frames from which on the field stays within it. *)
Theorem frames_converge (cur tgt : Params) (m : Q) (f : Params -> Q) (eps : Q) :
  In f smoothed -> 0 < render_t m -> render_t m < 2 -> 0 < eps ->
  exists N : nat, forall n : nat,
    (N <= n)%nat -> Qabs (f (frames n cur tgt m) - f tgt) <= eps.
Proof.
  intros H T0 T2 He.
  set (r := Qabs (1 - render_t m)).
  assert (R : 0 <= r < 1).
  { unfold r. split; [apply Qabs_nonneg|]. apply Qabs_case; intros; Lqa.lra. }
  set (s := 1 - r). assert (S0 : 0 < s) by (unfold s; Lqa.lra).
  set (D := Qabs (f cur - f tgt)).
  assert (D0 : 0 <= D) by apply Qabs_nonneg.
  set (bound := D / (eps * s)).
  exists (Z.to_nat (Qceiling bound)).
  intros n Hn.
  rewrite (frames_smoothed_closed f n cur tgt m H).
  rewrite Qabs_Qmult, qpow_abs. fold r D.
  pose proof (qpow_decay r n ltac:(Lqa.lra)) as B. fold s in B.
  pose proof (qpow_nonneg r n (proj1 R)) as P.
  set (k := inject_Z (Z.of_nat n)) in *.
  assert (K : bound <= k).
  { eapply Qle_trans; [apply Qle_ceiling|].
    unfold k. rewrite <- Zle_Qle. Lia.lia. }
  assert (ES : 0 < eps * s) by (apply Qmult_lt_0_compat; assumption).
  assert (DK : D <= k * (eps * s)).
  { assert (E : D == bound * (eps * s)).
    { unfold bound. field. Lqa.lra. }
    rewrite E. apply Qmult_le_compat_r; Lqa.lra. }
  set (q := qpow r n) in *. clearbody q k.
  (* q * D <= q * k * s * eps <= eps *)
  assert (A1 : q * D <= q * (k * (eps * s))).
  { rewrite !(Qmult_comm q). apply Qmult_le_compat_r; assumption. }
  assert (A2 : q * (k * s) <= 1).
  { assert (E : q * (1 + k * s) == q + q * (k * s)) by ring.
    rewrite E in B. Lqa.lra. }
  assert (A3 : (q * (k * s)) * eps <= 1 * eps).
  { apply Qmult_le_compat_r; Lqa.lra. }
  assert (E3 : q * (k * (eps * s)) == (q * (k * s)) * eps) by ring.
  Lqa.lra.
Qed.

Lemma frames_converge_witness :
  exists N : nat, forall n : nat,
    (N <= n)%nat ->
    Qabs (highlightSize
            (anim (frames n (targetState (bare idle 1 (ReflBool false)))
                     (targetState (bare speaking 1 (ReflBool false))) 1))
          - highlightSize (anim (targetState (bare speaking 1 (ReflBool false)))))
    <= 0.01.
Proof.
  apply (frames_converge (targetState (bare idle 1 (ReflBool false)))
           (targetState (bare speaking 1 (ReflBool false))) 1
           (fun p => highlightSize (anim p)) 0.01).
  - unfold smoothed. apply in_or_app. right. left. reflexivity.
  - vm_compute. congruence.
  - vm_compute. congruence.
  - vm_compute. congruence.
Defined.

End HalMore.

(* ====================================================================== *)
(** ** Further properties of the shaders and of the frame loop *)
(* ====================================================================== *)

Section FragMore.

Import Glsl Frag Spec Terms.
Import Lra.
Local Open Scope R_scope.

(* ---------------------------------------------------------------------- *)
(** *** The two shaders together *)

Lemma uv_round_trip (a : vec2) :
  map2v (fun c => c * 2 - 1) (Vertex.v_uv (Vertex.main a)) = a.
Proof.
  destruct a as [x y]. unfold Vertex.main, map2v. cbn.
  f_equal; lra.
Qed.

(** X17: the fragment shader undoes the scaling of the vertex shader: at
    the clip-space position [a] the colour is [shade] at [a] itself, so a
    fragment at distance 0.72 or more from the centre of the canvas, and
    each of the four corners of the quad, is transparent black. *)
Theorem vertex_then_fragment (u : Uniforms) (a : vec2) :
  main u (Vertex.v_uv (Vertex.main a)) = shade u a
  /\ main_lens u (Vertex.v_uv (Vertex.main a)) = shade_lens u a
  /\ (0.72 <= length2 a ->
      main u (Vertex.v_uv (Vertex.main a)) = Vec4 0 0 0 0
      /\ main_lens u (Vertex.v_uv (Vertex.main a)) = Vec4 0 0 0 0)
  /\ (In a Vertex.quad -> main u (Vertex.v_uv (Vertex.main a)) = Vec4 0 0 0 0).
Proof.
  unfold main, main_lens. rewrite uv_round_trip.
  split; [reflexivity|]. split; [reflexivity|]. split.
  - intro H. split; apply shade_outside; exact H.
  - intro H. apply shade_outside.
    assert (L : length2 a = sqrt 2).
    { simpl in H.
      destruct H as [<-|[<-|[<-|[<-|[]]]]]; unfold length2, dot2; cbn;
        f_equal; lra. }
    rewrite L.
    apply (sqrt_between 2 0.72 2); lra.
Qed.

Lemma vertex_then_fragment_witness :
  main speaking_orb (Vertex.v_uv (Vertex.main (Vec2 1 (-1)))) = Vec4 0 0 0 0
  /\ main_lens speaking_orb (Vertex.v_uv (Vertex.main (Vec2 0 1))) = Vec4 0 0 0 0.
Proof.
  split.
  - apply (proj2 (proj2 (proj2
             (vertex_then_fragment speaking_orb (Vec2 1 (-1)))))).
    simpl. right. left. reflexivity.
  - apply (proj1 (proj2 (proj2
             (vertex_then_fragment speaking_orb (Vec2 0 1))))).
    rewrite length2_axis_y; lra.
Defined.

(* ---------------------------------------------------------------------- *)
(** *** [mod289] *)

Lemma floor_spec (x : R) : floor x <= x < floor x + 1.
Proof.
  unfold floor. destruct (base_Int_part x) as [A B]. lra.
Qed.

Lemma floor_unique (x : R) (k : Z) : IZR k <= x < IZR k + 1 -> floor x = IZR k.
Proof.
  intros [A B]. unfold floor. f_equal.
  destruct (base_Int_part x) as [C D].
  assert (E : (Int_part x < k + 1)%Z).
  { apply lt_IZR. rewrite plus_IZR. lra. }
  assert (F : (k < Int_part x + 1)%Z).
  { apply lt_IZR. rewrite plus_IZR. lra. }
  Lia.lia.
Qed.

(** X18: [mod289] brings every number into [0, 289), leaves the numbers
    of that interval unchanged, and has period 289. *)
Theorem mod289_spec (x : R) :
  0 <= mod289 x < 289
  /\ mod289 (mod289 x) = mod289 x
  /\ mod289 (x + 289) = mod289 x.
Proof.
  assert (R0 : forall y, 0 <= mod289 y < 289).
  { intro y. unfold mod289. destruct (floor_spec (y * (1 / 289))). lra. }
  assert (Id : forall y, 0 <= y < 289 -> mod289 y = y).
  { intros y Hy. unfold mod289.
    rewrite (floor_unique (y * (1 / 289)) 0); simpl; lra. }
  split; [apply R0|]. split; [apply Id, R0|].
  unfold mod289.
  assert (E : floor ((x + 289) * (1 / 289)) = floor (x * (1 / 289)) + 1).
  { unfold floor at 2. rewrite <- plus_IZR. apply floor_unique.
    rewrite plus_IZR. destruct (floor_spec (x * (1 / 289))).
    unfold floor in *. lra. }
  rewrite E. lra.
Qed.

(* ---------------------------------------------------------------------- *)
(** *** Pulses *)

Lemma sin_times (x k : R) : 0 <= k -> - k <= sin x * k <= k.
Proof. intro K. pose proof (SIN_bound x). nra. Qed.

Lemma cos_times (x k : R) : 0 <= k -> - k <= cos x * k <= k.
Proof. intro K. pose proof (COS_bound x). nra. Qed.

(** X19: the global pulse stays within [u_pulseAmount] of 1, and the
    pulsing highlight size within a factor [1 +- 1.5 u_highlightPulse] of
    [u_highlightSize], at every time and pulse speed. *)
Theorem pulse_bounds (u : Uniforms) :
  0 <= u_pulseAmount u -> 0 <= u_highlightPulse u -> 0 <= u_highlightSize u ->
  1 - u_pulseAmount u <= pulse u <= 1 + u_pulseAmount u
  /\ u_highlightSize u * (1 - 1.5 * u_highlightPulse u)
     <= currentHighlightSize u
     <= u_highlightSize u * (1 + 1.5 * u_highlightPulse u).
Proof.
  intros Pa Hp Hs. split.
  - unfold pulse.
    pose proof (sin_times (u_time u * u_pulseSpeed u) (u_pulseAmount u) Pa). lra.
  - unfold currentHighlightSize.
    pose proof (sin_times (u_time u * u_pulseSpeed u * 1.8) (u_highlightPulse u) Hp)
      as A.
    pose proof (sin_times (u_time u * u_pulseSpeed u * 0.7) (u_highlightPulse u) Hp)
      as B.
    set (a := sin (u_time u * u_pulseSpeed u * 1.8) * u_highlightPulse u) in *.
    set (b := sin (u_time u * u_pulseSpeed u * 0.7) * u_highlightPulse u) in *.
    clearbody a b. split; nra.
Qed.

Lemma speaking_orb_in_range : in_range speaking_orb.
Proof.
  destruct speaking_orb_fields as (_ & _ & Hs & Hc & Hr & Hb & Hm & Hh).
  unfold in_range, vec3_nonneg. rewrite Hs, Hc, Hr, Hb, Hm, Hh. cbn [v3x v3y v3z].
  assert (u_highlightPulse speaking_orb = 0.2) as ->.
  { unfold speaking_orb, Render.uniforms. cbn. unfold Q2R. cbn. lra. }
  assert (u_pulseAmount speaking_orb = 0.08) as ->.
  { unfold speaking_orb, Render.uniforms. cbn. unfold Q2R. cbn. lra. }
  repeat split; lra.
Qed.

Lemma pulse_bounds_witness :
  0.92 <= pulse speaking_orb <= 1.08
  /\ 1.2 * 0.7 <= currentHighlightSize speaking_orb <= 1.2 * 1.3.
Proof.
  destruct speaking_orb_in_range as (_ & _ & _ & _ & Hs & [Hp _] & [Pa _] & _).
  pose proof (pulse_bounds speaking_orb Pa Hp Hs) as H.
  destruct speaking_orb_fields as (_ & _ & Es & _).
  assert (Ep : u_highlightPulse speaking_orb = 0.2).
  { unfold speaking_orb, Render.uniforms. cbn. unfold Q2R. cbn. lra. }
  assert (Ea : u_pulseAmount speaking_orb = 0.08).
  { unfold speaking_orb, Render.uniforms. cbn. unfold Q2R. cbn. lra. }
  rewrite Es, Ep, Ea in H. lra.
Defined.

(* ---------------------------------------------------------------------- *)
(** *** The range of the output *)

Lemma in_range_pulse (u : Uniforms) :
  in_range u -> 0 <= pulse u /\ 0 <= currentHighlightSize u.
Proof.
  intros (_ & _ & _ & _ & Hs & [Hp Hp'] & [Pa Pa'] & _).
  split.
  - unfold pulse.
    pose proof (sin_times (u_time u * u_pulseSpeed u) (u_pulseAmount u) Pa). lra.
  - unfold currentHighlightSize.
    pose proof (sin_times (u_time u * u_pulseSpeed u * 1.8) (u_highlightPulse u) Hp)
      as A.
    pose proof (sin_times (u_time u * u_pulseSpeed u * 0.7) (u_highlightPulse u) Hp)
      as B.
    apply Rmult_le_pos; [exact Hs|]. lra.
Qed.

Lemma lit_channel_nonneg (u : Uniforms) (uv : vec2) (b m h : R) :
  in_range u -> 0 <= b -> 0 <= m -> 0 <= h -> 0 <= lit_channel u uv b m h.
Proof.
  intros Hu Hb Hm Hh.
  destruct (in_range_pulse u Hu) as [Pp Pc].
  destruct Hu as (_ & _ & _ & Hci & _).
  pose proof (lit_channel_lower u uv b m h Hb Hm Hh Hci Pc Pp) as L.
  cbv zeta in L.
  eapply Rle_trans; [|exact L].
  pose proof (lobe_range u (sphere_normal uv) 4 (sphere_normal_length uv)) as Hl.
  assert (0 <= 4) as H4 by lra. specialize (Hl H4).
  pose proof (smoothstep_range sphereRadius (sphereRadius * 0.4) (length2 uv)) as Ha.
  pose proof (smoothstep_range (-0.7) 0.4 (v2y uv)) as Hs.
  apply Rmult_le_pos; [apply Rmult_le_pos; [apply Rmult_le_pos;
    [apply Rmult_le_pos; [|apply Rmult_le_pos]|]|]|]; lra.
Qed.

Lemma tone_range (c : R) : 0 <= c -> 0 <= tone c < 1.35.
Proof.
  intro H. unfold tone.
  assert (P : 0 < c + 0.45) by lra.
  assert (I : 0 < / (c + 0.45)) by (apply Rinv_0_lt_compat; exact P).
  assert (E : (c + 0.45) * / (c + 0.45) = 1) by (apply Rinv_r; lra).
  unfold Rdiv. split.
  - apply Rmult_le_pos; [apply Rmult_le_pos|]; lra.
  - assert (c * / (c + 0.45) < 1) by nra. lra.
Qed.

Lemma sphere_of_range (d : R) : 0 <= sphere_of d <= 1.
Proof.
  unfold sphere_of.
  pose proof (smoothstep_range (sphereRadius - edgeSoftness) sphereRadius d). lra.
Qed.

Lemma hal_channel_nonneg (u : Uniforms) (uv : vec2) (c : R) :
  0 <= u_reflections u <= 1 -> 0 <= c -> 0 <= hal_channel u uv c.
Proof.
  intros Hr Hc. unfold hal_channel.
  apply mix_nonneg; [exact Hc|lra|apply hal_weight_range; exact Hr].
Qed.

Lemma lens_weights (u : Uniforms) (uv : vec2) :
  0 <= u_reflections u <= 1 ->
  let rp := lens_point uv in
  let edgeBoost := mix 0.35 1 (clamp (fresnel (sphere_normal uv) * 2.4) 0 1) in
  let refMask := clamp (refCore u rp) 0 1 in
  let glowMask := clamp (refGlow u rp) 0 1 in
  let strength := u_reflections u * edgeBoost in
  0 <= (refMask * 0.70 + glowMask * 0.26) * strength
  /\ 0 <= (refMask * 0.12 + glowMask * 0.07) * strength <= 1.
Proof.
  intros Hr rp edgeBoost refMask glowMask strength.
  assert (Hm : 0 <= refMask <= 1) by (apply clamp_range; lra).
  assert (Hg : 0 <= glowMask <= 1) by (apply clamp_range; lra).
  assert (He : 0 <= edgeBoost <= 1).
  { assert (K : 0 <= clamp (fresnel (sphere_normal uv) * 2.4) 0 1 <= 1)
      by (apply clamp_range; lra).
    pose proof (mix_range 0.35 _ K). unfold edgeBoost. lra. }
  assert (Hs : 0 <= strength <= 1) by (unfold strength; nra).
  clearbody refMask glowMask strength. split; nra.
Qed.

Lemma lens_channel_nonneg (u : Uniforms) (uv : vec2) (c : R) :
  0 <= u_reflections u <= 1 -> 0 <= c -> 0 <= lens_channel u uv c.
Proof.
  intros Hr Hc. unfold lens_channel.
  destruct (lens_weights u uv Hr) as [A B]. cbv zeta in A, B.
  apply mix_nonneg; [lra|lra|exact B].
Qed.

Lemma shade_with_range
  (reflect : Uniforms -> vec2 -> vec3 -> vec3) (chan : Uniforms -> vec2 -> R -> R) :
  (forall u uv col, reflect u uv col = map3v (chan u uv) col) ->
  (forall u uv c, 0 <= u_reflections u <= 1 -> 0 <= c -> 0 <= chan u uv c) ->
  forall u uv c4,
    In c4 [v4x; v4y; v4z] ->
    in_range u ->
    0 <= c4 (shade_with reflect u uv) < 1.35
    /\ 0 <= v4w (shade_with reflect u uv) <= 1.
Proof.
  intros Hchan Hpos u uv c4 Hin Hu.
  pose proof Hu as (Bn & Mn & Hn & _ & _ & _ & _ & Hr).
  unfold shade_with.
  destruct (Rlt_dec (sphere_of (length2 uv)) 0.001) as [Hs|Hs].
  - simpl in Hin. destruct Hin as [<-|[<-|[<-|[]]]]; cbn; lra.
  - cbv zeta. rewrite lit_color_channels.
    destruct Bn as (B0 & B1 & B2), Mn as (M0 & M1 & M2), Hn as (H0 & H1 & H2).
    pose proof (lit_channel_nonneg u uv _ _ _ Hu B0 M0 H0) as L0.
    pose proof (lit_channel_nonneg u uv _ _ _ Hu B1 M1 H1) as L1.
    pose proof (lit_channel_nonneg u uv _ _ _ Hu B2 M2 H2) as L2.
    split; [|cbn; apply sphere_of_range].
    destruct (Rlt_dec 0 (u_reflections u)).
    + rewrite Hchan. simpl in Hin.
      destruct Hin as [<-|[<-|[<-|[]]]]; cbn; apply tone_range, Hpos; assumption.
    + simpl in Hin.
      destruct Hin as [<-|[<-|[<-|[]]]]; cbn; apply tone_range; assumption.
Qed.

(** X20: with non-negative colours, cloud intensity and reflections in
    [0, 1], highlight pulse at most 2/3 and pulse amount at most 1, every
    colour channel either shader writes lies in [0, 1.35) and the alpha in
    [0, 1], at every fragment and time. *)
Theorem shade_range (u : Uniforms) (uv : vec2) (c4 : vec4 -> R) :
  In c4 [v4x; v4y; v4z] ->
  in_range u ->
  (0 <= c4 (shade u uv) < 1.35 /\ 0 <= v4w (shade u uv) <= 1)
  /\ (0 <= c4 (shade_lens u uv) < 1.35 /\ 0 <= v4w (shade_lens u uv) <= 1).
Proof.
  intros Hin Hu. split.
  - apply (shade_with_range reflections_hal hal_channel
             reflections_hal_channels hal_channel_nonneg); assumption.
  - apply (shade_with_range reflections_lens lens_channel
             reflections_lens_channels lens_channel_nonneg); assumption.
Qed.

Lemma shade_range_witness :
  (0 <= v4z (shade speaking_orb on_top_arc) < 1.35
   /\ 0 <= v4w (shade speaking_orb on_top_arc) <= 1)
  /\ (0 <= v4z (shade_lens speaking_orb on_top_arc) < 1.35
      /\ 0 <= v4w (shade_lens speaking_orb on_top_arc) <= 1).
Proof.
  apply (shade_range speaking_orb on_top_arc v4z).
  - simpl. right. right. left. reflexivity.
  - exact speaking_orb_in_range.
Defined.

(* ---------------------------------------------------------------------- *)
(** *** From the props to the pixels *)

Lemma Q2R_between (q lo hi : Q) (a b : R) :
  (lo <= q <= hi)%Q -> Q2R lo = a -> Q2R hi = b -> a <= Q2R q <= b.
Proof.
  intros [L H] <- <-. split; apply Qle_Rle; assumption.
Qed.

Lemma Q2R_nonneg (q : Q) : (0 <= q)%Q -> 0 <= Q2R q.
Proof.
  intro H. apply Qle_Rle in H. unfold Q2R at 1 in H. cbn in H. lra.
Qed.

Lemma Q2R_unit (q : Q) : (0 <= q <= 1)%Q -> 0 <= Q2R q <= 1.
Proof.
  intro H. apply (Q2R_between q 0 1); [exact H| |]; unfold Q2R; cbn; lra.
Qed.

Lemma uniforms_in_range (p : Hal.Params) (t : R) (res : vec2) (rv : Q) :
  params_in_range p -> (0 <= rv <= 1)%Q ->
  in_range (Render.uniforms p t res rv).
Proof.
  intros [(Cb & Cm & Ch) (Cc & Cs & Cp & Ca)] Hr.
  cbn [colors_of Hal.base Hal.mid Hal.highlight] in *.
  unfold in_range, Render.uniforms, vec3_nonneg, Render.vec3_of_rgb.
  cbn [u_baseColor u_midColor u_highlight u_cloudIntensity u_highlightSize
       u_highlightPulse u_pulseAmount u_reflections v3x v3y v3z].
  destruct Cb as (B0 & B1 & B2), Cm as (M0 & M1 & M2), Ch as (H0 & H1 & H2).
  pose proof (Q2R_unit _ Hr).
  pose proof (Q2R_unit _ Cc).
  pose proof (Q2R_unit _ Ca).
  pose proof (Q2R_nonneg _ Cs).
  pose proof (Q2R_between _ 0 (2 # 3) 0 (2 / 3) Cp) as P.
  assert (0 <= Q2R (Hal.highlightPulse (Hal.anim p)) <= 2 / 3)
    by (apply P; unfold Q2R; cbn; lra).
  repeat split; try (apply Q2R_nonneg; tauto); tauto.
Qed.

(** X21: from the props to the pixels.  If the channels of an explicit
    [colorScheme] are in [0, 1], the animation parameters of the target are
    in range, [transitionSpeed] is between 0 and 200/3 and the reflection
    intensity between 0 and 1, then on every frame, starting from any state
    in range, each colour channel that either shader writes is in
    [0, 1.35) and the alpha in [0, 1]. *)
Theorem drawn_in_range (props : Hal.HALProps) (canvas : vec2)
  (cur : Hal.Params) (n : nat) (time : R) (uv : vec2) (c4 : vec4 -> R) :
  (forall cs, Hal.colorScheme props = Some cs -> given_in_unit cs) ->
  anim_in_range (Hal.anim (Hal.targetState props)) ->
  (0 <= Hal.transitionSpeed props <= 200 # 3)%Q ->
  (0 <= Hal.reflectionValue (Hal.reflections props) <= 1)%Q ->
  params_in_range cur ->
  In c4 [v4x; v4y; v4z] ->
  let u :=
    snd (Loop.render props canvas
           (Loop.frames n cur (Hal.targetState props) (Hal.transitionSpeed props))
           time) in
  (0 <= c4 (shade u uv) < 1.35 /\ 0 <= v4w (shade u uv) <= 1)
  /\ (0 <= c4 (shade_lens u uv) < 1.35 /\ 0 <= v4w (shade_lens u uv) <= 1).
Proof.
  intros Hcs Han Hm Hr Hcur Hin u.
  assert (T : (0 <= Hal.render_t (Hal.transitionSpeed props) <= 1)%Q).
  { unfold Hal.render_t. destruct Hm. split; Lqa.lra. }
  assert (Ht : params_in_range (Hal.targetState props)).
  { split; [apply targetState_colors_unit; exact Hcs | exact Han]. }
  assert (Hu : in_range u).
  { unfold u, Loop.render. cbn [snd].
    apply uniforms_in_range; [|exact Hr].
    apply advance_in_range; [exact T| |exact Ht].
    apply frames_in_range_all; assumption. }
  split.
  - apply (shade_with_range reflections_hal hal_channel
             reflections_hal_channels hal_channel_nonneg); assumption.
  - apply (shade_with_range reflections_lens lens_channel
             reflections_lens_channels lens_channel_nonneg); assumption.
Qed.

Lemma drawn_in_range_witness :
  let u :=
    snd (Loop.render (bare Hal.speaking 1 (Hal.ReflBool true)) (Vec2 600 600)
           (Loop.frames 2 (Hal.targetState (bare Hal.idle 1 (Hal.ReflBool true)))
              (Hal.targetState (bare Hal.speaking 1 (Hal.ReflBool true))) 1)
           16) in
  (0 <= v4x (shade u on_top_arc) < 1.35 /\ 0 <= v4w (shade u on_top_arc) <= 1)
  /\ (0 <= v4x (shade_lens u on_top_arc) < 1.35
      /\ 0 <= v4w (shade_lens u on_top_arc) <= 1).
Proof.
  apply (drawn_in_range (bare Hal.speaking 1 (Hal.ReflBool true))
           (Vec2 600 600)
           (Hal.targetState (bare Hal.idle 1 (Hal.ReflBool true))) 2 16
           on_top_arc v4x).
  - intros cs H. discriminate H.
  - apply anim_in_range_presets.
  - split; vm_compute; congruence.
  - split; vm_compute; congruence.
  - apply targetState_in_range_bare.
  - simpl. left. reflexivity.
Defined.

(* ---------------------------------------------------------------------- *)
(** *** A settled orb *)

Lemma frames_settled (f : Hal.Params -> Q) (n : nat) (p : Hal.Params) (m : Q) :
  In f (smoothed ++ snapped) -> (f (Loop.frames n p p m) == f p)%Q.
Proof.
  intro H. apply in_app_or in H. destruct H as [H|H].
  - pose proof (frames_smoothed_closed f n p p m H) as E. Lqa.lra.
  - destruct n as [|n]; [reflexivity|].
    rewrite (frames_snapped f n p p m H). reflexivity.
Qed.

(** X22: a settled orb stays settled.  When the current state is the
    target, the uniforms after any number of frames are those of the target,
    whatever [transitionSpeed]; in particular the first frame after mounting
    draws the target state, at the time in seconds. *)
Theorem settled_uniforms (n : nat) (p : Hal.Params) (m : Q) (t : R) (res : vec2)
  (rv : Q) (props : Hal.HALProps) (canvas : vec2) (time : R) :
  Render.uniforms (Loop.frames n p p m) t res rv = Render.uniforms p t res rv
  /\ snd (Loop.render props canvas (Hal.targetState props) time)
     = Render.uniforms (Hal.targetState props) (time * 0.001) canvas
         (Hal.reflectionValue (Hal.reflections props)).
Proof.
  assert (G : forall k q s t' res' rv',
             Render.uniforms (Loop.frames k q q s) t' res' rv'
             = Render.uniforms q t' res' rv').
  { intros k q s t' res' rv'.
    assert (E : forall f, In f (smoothed ++ snapped) ->
                          Q2R (f (Loop.frames k q q s)) = Q2R (f q)).
    { intros f Hf. apply Qeq_eqR, frames_settled, Hf. }
    unfold Render.uniforms, Render.vec3_of_rgb.
    rewrite (E (fun p => Hal.idx0 (Hal.baseColor p))) by (simpl; tauto).
    rewrite (E (fun p => Hal.idx1 (Hal.baseColor p))) by (simpl; tauto).
    rewrite (E (fun p => Hal.idx2 (Hal.baseColor p))) by (simpl; tauto).
    rewrite (E (fun p => Hal.idx0 (Hal.midColor p))) by (simpl; tauto).
    rewrite (E (fun p => Hal.idx1 (Hal.midColor p))) by (simpl; tauto).
    rewrite (E (fun p => Hal.idx2 (Hal.midColor p))) by (simpl; tauto).
    rewrite (E (fun p => Hal.idx0 (Hal.p_highlight p))) by (simpl; tauto).
    rewrite (E (fun p => Hal.idx1 (Hal.p_highlight p))) by (simpl; tauto).
    rewrite (E (fun p => Hal.idx2 (Hal.p_highlight p))) by (simpl; tauto).
    rewrite (E (fun p => Hal.highlightSize (Hal.anim p))) by (simpl; tauto).
    rewrite (E (fun p => Hal.highlightPulse (Hal.anim p))) by (simpl; tauto).
    rewrite (E (fun p => Hal.cloudIntensity (Hal.anim p))) by (simpl; tauto).
    rewrite (E (fun p => Hal.pulseAmount (Hal.anim p))) by (simpl; tauto).
    rewrite (E (fun p => Hal.pulseSpeed (Hal.anim p))) by (simpl; tauto).
    rewrite (E (fun p => Hal.cloudSpeed (Hal.anim p))) by (simpl; tauto).
    rewrite (E (fun p => Hal.highlightDrift (Hal.anim p))) by (simpl; tauto).
    reflexivity. }
  split; [apply G|].
  unfold Loop.render. cbn [snd].
  change (Hal.advance (Hal.targetState props) (Hal.targetState props)
            (Hal.transitionSpeed props))
    with (Loop.frames 1 (Hal.targetState props) (Hal.targetState props)
            (Hal.transitionSpeed props)).
  apply G.
Qed.

(* ---------------------------------------------------------------------- *)
(** *** Reflections switched off *)

Lemma shade_with_off (reflect : Uniforms -> vec2 -> vec3 -> vec3)
  (u : Uniforms) (uv : vec2) :
  u_reflections u <= 0 -> shade_with reflect u uv = shade_plain u uv.
Proof.
  intro H. unfold shade_plain, shade_with.
  destruct (Rlt_dec (sphere_of (length2 uv)) 0.001); [reflexivity|].
  cbv zeta. destruct (Rlt_dec 0 (u_reflections u)); [lra|reflexivity].
Qed.

(** X23: every way of not asking for reflections ([false], an options
    object whose [enabled] is absent or false, with or without an
    [intensity]) gives the value 0, [{ enabled: true }] gives the same 0.6
    as [true], and with a value of 0 or less both shaders draw exactly what
    the shader without a reflections block draws. *)
Theorem reflections_disabled (r : Hal.Reflections) (p : Hal.Params) (t : R)
  (res : vec2) (uv : vec2) :
  (reflections_off r -> Hal.reflectionValue r = 0%Q)
  /\ Hal.reflectionValue (Hal.ReflOptions (Some true) None)
     = Hal.reflectionValue (Hal.ReflBool true)
  /\ ((Hal.reflectionValue r <= 0)%Q ->
      let u := Render.uniforms p t res (Hal.reflectionValue r) in
      shade u uv = shade_plain u uv /\ shade_lens u uv = shade_plain u uv).
Proof.
  split; [|split].
  - destruct r as [[|]|[[|]|] i]; cbn; intro H; try reflexivity;
      try discriminate H; exfalso; apply H; reflexivity.
  - reflexivity.
  - intros H u.
    assert (K : u_reflections u <= 0).
    { unfold u, Render.uniforms. cbn [u_reflections].
      apply Qle_Rle in H. unfold Q2R at 2 in H. cbn in H. lra. }
    split; apply shade_with_off; exact K.
Qed.

Lemma reflections_disabled_witness :
  let u := Render.uniforms (Hal.targetState (bare Hal.idle 1 (Hal.ReflBool false)))
             0 (Vec2 600 600)
             (Hal.reflectionValue (Hal.ReflOptions None (Some 0.9%Q))) in
  Hal.reflectionValue (Hal.ReflOptions None (Some 0.9%Q)) = 0%Q
  /\ shade u on_top_arc = shade_plain u on_top_arc
  /\ shade_lens u on_top_arc = shade_plain u on_top_arc.
Proof.
  intro u.
  destruct (reflections_disabled (Hal.ReflOptions None (Some 0.9%Q))
              (Hal.targetState (bare Hal.idle 1 (Hal.ReflBool false)))
              0 (Vec2 600 600) on_top_arc) as (A & _ & B).
  split.
  - apply A. cbn. discriminate.
  - apply B. cbn. discriminate.
Defined.

(* ---------------------------------------------------------------------- *)
(** *** The highlight *)

(** X24: with a drift of 0 the highlight sits at (0, 0.15) at every time;
    with any drift that is not negative it stays in the box
    [-0.73, 0.33] x [-0.16, 0.66]. *)
Theorem highlightCenter_box (u : Uniforms) :
  (u_highlightDrift u = 0 -> highlightCenter u = Vec2 0 0.15)
  /\ (0 <= u_highlightDrift u ->
      -0.73 <= v2x (highlightCenter u) <= 0.33
      /\ -0.16 <= v2y (highlightCenter u) <= 0.66).
Proof.
  split.
  - intro H. unfold highlightCenter, mix2, add2, zip2v, mix. rewrite H.
    cbn [v2x v2y]. rewrite Rmin_left by lra. f_equal; lra.
  - intro H. unfold highlightCenter, mix2, add2, zip2v, mix. cbn [v2x v2y].
    set (d := u_time u * u_highlightDrift u).
    assert (K : 0 <= Rmin (u_highlightDrift u) 1 <= 1).
    { split; [apply Rmin_glb; lra | apply Rmin_r]. }
    set (k := Rmin (u_highlightDrift u) 1) in *. clearbody k.
    assert (A1 := sin_times (d * 0.8) 0.3 ltac:(lra)).
    assert (A2 := sin_times (d * 1.4) 0.15 ltac:(lra)).
    assert (A3 := sin_times (d * 2.1) 0.08 ltac:(lra)).
    assert (B1 := cos_times (d * 0.6) 0.25 ltac:(lra)).
    assert (B2 := cos_times (d * 1.2) 0.1 ltac:(lra)).
    assert (B3 := cos_times (d * 1.9) 0.06 ltac:(lra)).
    set (sx := sin (d * 0.8) * 0.3 + sin (d * 1.4) * 0.15 + sin (d * 2.1) * 0.08).
    set (cy := cos (d * 0.6) * 0.25 + cos (d * 1.2) * 0.1 + cos (d * 1.9) * 0.06).
    assert (Sx : -0.53 <= sx <= 0.53) by (unfold sx; lra).
    assert (Cy : -0.41 <= cy <= 0.41) by (unfold cy; lra).
    clearbody sx cy. split; split; nra.
Qed.

Lemma highlightCenter_box_witness :
  highlightCenter oversized_orb = Vec2 0 0.15
  /\ -0.73 <= v2x (highlightCenter speaking_orb) <= 0.33.
Proof.
  split.
  - apply (proj1 (highlightCenter_box oversized_orb)).
    destruct oversized_orb_fields as (_ & H & _). exact H.
  - apply (proj2 (highlightCenter_box speaking_orb)).
    destruct speaking_orb_fields as (_ & H & _). rewrite H. lra.
Defined.

(* ---------------------------------------------------------------------- *)
(** *** The sphere normal *)

Lemma dot2_self (uv : vec2) : dot2 uv uv = v2x uv * v2x uv + v2y uv * v2y uv.
Proof. reflexivity. Qed.

Lemma length2_sq (uv : vec2) : length2 uv * length2 uv = dot2 uv uv.
Proof.
  unfold length2. apply sqrt_sqrt. unfold dot2.
  pose proof (Rle_0_sqr (v2x uv)). pose proof (Rle_0_sqr (v2y uv)).
  unfold Rsqr in *. lra.
Qed.

(** X25: inside the disc of radius 0.72 the vector handed to [normalize]
    already has length 1, so the normal is (x / 0.72, y / 0.72, z) with
    z = sqrt(1 - (x^2 + y^2) / 0.72^2), a unit vector that faces the viewer
    at the centre and lies in the plane of the canvas on the rim. *)
Theorem sphere_normal_unit (uv : vec2) :
  length2 uv <= 0.72 ->
  sphere_normal uv = Vec3 (v2x uv / 0.72) (v2y uv / 0.72) (sphere_z uv)
  /\ dot3 (sphere_normal uv) (sphere_normal uv) = 1
  /\ sphere_z uv * sphere_z uv = 1 - (length2 uv / 0.72) * (length2 uv / 0.72).
Proof.
  intro H.
  pose proof (length2_nonneg uv) as L0.
  pose proof (length2_sq uv) as Lq. rewrite dot2_self in Lq.
  set (x := v2x uv) in *. set (y := v2y uv) in *.
  assert (D : x * x + y * y <= 0.72 * 0.72) by nra.
  assert (Z : sphere_z uv * sphere_z uv = 1 - (x * x + y * y) / (0.72 * 0.72)).
  { unfold sphere_z, sphereRadius. fold x y.
    rewrite Rmax_right by (unfold Rdiv; lra).
    apply sqrt_sqrt. unfold Rdiv. lra. }
  assert (U : length3 (Vec3 (x / sphereRadius) (y / sphereRadius) (sphere_z uv)) = 1).
  { unfold length3, dot3, sphereRadius. cbn [v3x v3y v3z].
    rewrite Z. apply sqrt_exact; [lra|]. unfold Rdiv. lra. }
  assert (N : sphere_normal uv = Vec3 (x / 0.72) (y / 0.72) (sphere_z uv)).
  { unfold sphere_normal, normalize3, map3v. fold x y. rewrite U.
    unfold sphereRadius. cbn [v3x v3y v3z]. f_equal; lra. }
  split; [exact N|]. split.
  - rewrite N. unfold dot3. cbn [v3x v3y v3z]. rewrite Z. unfold Rdiv. lra.
  - rewrite Z. rewrite <- Lq. unfold Rdiv. lra.
Qed.

Lemma sphere_normal_unit_witness :
  sphere_normal on_top_arc
  = Vec3 (v2x on_top_arc / 0.72) (v2y on_top_arc / 0.72) (sphere_z on_top_arc).
Proof.
  apply (proj1 (sphere_normal_unit on_top_arc
                  ltac:(rewrite length2_on_top_arc; lra))).
Defined.

(* ---------------------------------------------------------------------- *)
(** *** The alpha falls with the distance *)

Lemma clamp_mono (x y lo hi : R) : x <= y -> clamp x lo hi <= clamp y lo hi.
Proof.
  intro H. unfold clamp.
  apply Rle_min_compat_r. apply Rle_max_compat_r. exact H.
Qed.

Lemma smoothstep_mono (e0 e1 x y : R) :
  e0 < e1 -> x <= y -> smoothstep e0 e1 x <= smoothstep e0 e1 y.
Proof.
  intros He H. unfold smoothstep.
  assert (I : 0 < / (e1 - e0)) by (apply Rinv_0_lt_compat; lra).
  assert (K : (x - e0) / (e1 - e0) <= (y - e0) / (e1 - e0)).
  { unfold Rdiv. apply Rmult_le_compat_r; lra. }
  pose proof (clamp_mono _ _ 0 1 K) as M.
  pose proof (clamp_range ((x - e0) / (e1 - e0)) 0 1 ltac:(lra)) as A.
  pose proof (clamp_range ((y - e0) / (e1 - e0)) 0 1 ltac:(lra)) as B.
  set (a := clamp ((x - e0) / (e1 - e0)) 0 1) in *.
  set (b := clamp ((y - e0) / (e1 - e0)) 0 1) in *.
  clearbody a b.
  assert (P : 0 <= (b - a) * (3 * (a + b) - 2 * (a * a + a * b + b * b))).
  { apply Rmult_le_pos; [lra|]. nra. }
  nra.
Qed.

Lemma mask_mono (d1 d2 : R) : d1 <= d2 -> mask d2 <= mask d1.
Proof.
  intro H. unfold mask.
  assert (S : sphere_of d2 <= sphere_of d1).
  { unfold sphere_of.
    pose proof (smoothstep_mono (sphereRadius - edgeSoftness) sphereRadius d1 d2)
      as M.
    unfold sphereRadius, edgeSoftness in *. specialize (M ltac:(lra) H). lra. }
  pose proof (sphere_of_range d1). pose proof (sphere_of_range d2).
  destruct (Rlt_dec (sphere_of d2) 0.001), (Rlt_dec (sphere_of d1) 0.001); lra.
Qed.

(** X26: the alpha never grows with the distance from the centre: of two
    fragments, the one farther out is at most as opaque, whatever the
    uniforms of either and in both shaders. *)
Theorem alpha_falls_outward (u1 u2 : Uniforms) (uv1 uv2 : vec2) :
  length2 uv1 <= length2 uv2 ->
  v4w (shade u2 uv2) <= v4w (shade u1 uv1)
  /\ v4w (shade_lens u2 uv2) <= v4w (shade_lens u1 uv1).
Proof.
  intro H. unfold shade, shade_lens. rewrite !shade_with_alpha.
  split; apply mask_mono; exact H.
Qed.

Lemma alpha_falls_outward_witness :
  v4w (shade asleep_orb (Vec2 0 0.715)) <= v4w (shade speaking_orb on_top_arc)
  /\ v4w (shade_lens asleep_orb (Vec2 0 0.715))
     <= v4w (shade_lens speaking_orb on_top_arc).
Proof.
  apply (alpha_falls_outward speaking_orb asleep_orb on_top_arc (Vec2 0 0.715)).
  rewrite length2_on_top_arc, length2_axis_y; lra.
Defined.

(* ---------------------------------------------------------------------- *)
(** *** The hard shapes *)

Lemma ref_sum_centre : ref_sum (Vec2 0 0) = 0.
Proof.
  unfold ref_sum, topArc, leftArc, rightArc, dash, sub2, zip2v, map2v, abs.
  cbn [v2x v2y].
  assert (E1 : step 0.28 0 = 0) by (unfold step; destruct Rlt_dec; lra).
  assert (E2 : step 0 (-0.18) = 0) by (unfold step; destruct Rlt_dec; lra).
  assert (E3 : step 0.18 0 = 0) by (unfold step; destruct Rlt_dec; lra).
  assert (A : forall c w, w < Rabs c -> step (Rabs c) w = 0).
  { intros c w Hc. unfold step. destruct Rlt_dec; lra. }
  rewrite E1, E2, E3.
  rewrite (A (0 - -0.22) 0.06) by (rewrite Rabs_right; lra).
  rewrite (A (0 - 0.22) 0.06) by (rewrite Rabs_left; lra).
  rewrite (A (0 - -0.38) 0.035) by (rewrite Rabs_right; lra).
  rewrite (A (0 - 0.38) 0.035) by (rewrite Rabs_left; lra).
  rewrite (A (0 - -0.28) 0.025) by (rewrite Rabs_right; lra).
  rewrite (A (0 - 0.28) 0.025) by (rewrite Rabs_left; lra).
  rewrite (A (0 - -0.35) 0.015) by (rewrite Rabs_right; lra).
  lra.
Qed.

Lemma shade_with_kept (reflect : Uniforms -> vec2 -> vec3 -> vec3)
  (u : Uniforms) (uv : vec2) :
  ~ sphere_of (length2 uv) < 0.001 ->
  0 < u_reflections u ->
  shade_with reflect u uv
  = Vec4 (tone (v3x (reflect u uv (lit_color u uv))))
         (tone (v3y (reflect u uv (lit_color u uv))))
         (tone (v3z (reflect u uv (lit_color u uv))))
         (sphere_of (length2 uv)).
Proof.
  intros Hs Hr. unfold shade_with.
  destruct (Rlt_dec (sphere_of (length2 uv)) 0.001); [contradiction|].
  cbv zeta. destruct (Rlt_dec 0 (u_reflections u)); [|contradiction].
  reflexivity.
Qed.

(** X27: where no hard shape covers the fragment the overlay of
    [src/HAL.tsx] changes nothing, and where the shapes add up to 1 or more
    an intensity of 1 hides the orb: the colour is the tone-mapped white
    27/29 on every channel, for every state and time. *)
Theorem hard_shapes_extremes (u : Uniforms) (uv : vec2) :
  (ref_sum uv = 0 -> shade u uv = shade_plain u uv)
  /\ (1 <= ref_sum uv -> u_reflections u = 1 ->
      ~ sphere_of (length2 uv) < 0.001 ->
      shade u uv
      = Vec4 (27 / 29) (27 / 29) (27 / 29) (sphere_of (length2 uv))).
Proof.
  split.
  - intro H. unfold shade, shade_plain, shade_with.
    destruct (Rlt_dec (sphere_of (length2 uv)) 0.001); [reflexivity|].
    cbv zeta. destruct (Rlt_dec 0 (u_reflections u)); [|reflexivity].
    rewrite reflections_hal_channels.
    assert (E : forall c, hal_channel u uv c = c).
    { intro c. unfold hal_channel, mix. rewrite H.
      rewrite Rmin_left by lra. lra. }
    unfold map3v. cbn [v3x v3y v3z]. rewrite !E. reflexivity.
  - intros H Hr Hs. unfold shade.
    rewrite shade_with_kept by (try assumption; lra).
    rewrite reflections_hal_channels.
    assert (E : forall c, hal_channel u uv c = 1).
    { intro c. unfold hal_channel, mix. rewrite Hr.
      rewrite Rmin_right by lra. lra. }
    unfold map3v. cbn [v3x v3y v3z]. rewrite !E.
    assert (T : tone 1 = 27 / 29) by (unfold tone; lra).
    rewrite T. reflexivity.
Qed.

Lemma hard_shapes_extremes_witness :
  shade speaking_orb (Vec2 0 0) = shade_plain speaking_orb (Vec2 0 0)
  /\ shade speaking_orb on_top_arc
     = Vec4 (27 / 29) (27 / 29) (27 / 29) (sphere_of (length2 on_top_arc)).
Proof.
  split.
  - apply (proj1 (hard_shapes_extremes speaking_orb (Vec2 0 0))).
    exact ref_sum_centre.
  - apply (proj2 (hard_shapes_extremes speaking_orb on_top_arc)).
    + pose proof (ref_sum_ge_topArc on_top_arc) as H.
      rewrite topArc_on_top_arc in H. exact H.
    + destruct speaking_orb_fields as (_ & _ & _ & _ & H & _). exact H.
    + rewrite length2_on_top_arc. rewrite sphere_of_inside by lra. lra.
Defined.

(* ---------------------------------------------------------------------- *)
(** *** Left and right *)

Lemma step_window_mirror (a b c d x : R) :
  a = - d -> b = - c ->
  step a (- x) * step (- x) b = step c x * step x d.
Proof.
  intros -> ->. unfold step.
  destruct (Rlt_dec (- x) (- d)), (Rlt_dec (- c) (- x)),
           (Rlt_dec x c), (Rlt_dec d x); lra.
Qed.

Lemma length2_mirror (uv : vec2) (cx cx' cy : R) :
  cx' = - cx ->
  length2 (sub2 (mirror uv) (Vec2 cx cy)) = length2 (sub2 uv (Vec2 cx' cy)).
Proof.
  intros ->. unfold length2, dot2, sub2, zip2v, mirror. cbn [v2x v2y].
  f_equal. lra.
Qed.

Lemma dash_mirror (uv : vec2) (cx cx' cy w h : R) :
  cx' = - cx ->
  dash (mirror uv) (Vec2 cx cy) w h = dash uv (Vec2 cx' cy) w h.
Proof.
  intros ->. unfold dash, sub2, zip2v, map2v, mirror, abs. cbn [v2x v2y].
  replace (- v2x uv - cx) with (- (v2x uv - - cx)) by lra.
  rewrite Rabs_Ropp. reflexivity.
Qed.

Lemma topArc_mirror (uv : vec2) : topArc (mirror uv) = topArc uv.
Proof.
  unfold topArc. cbv zeta.
  rewrite (length2_mirror uv 0 0) by lra.
  change (v2x (mirror uv)) with (- v2x uv).
  change (v2y (mirror uv)) with (v2y uv).
  rewrite (step_window_mirror (-0.38) 0.38 (-0.38) 0.38) by lra.
  reflexivity.
Qed.

Lemma leftArc_mirror (uv : vec2) : leftArc (mirror uv) = rightArc uv.
Proof.
  unfold leftArc, rightArc. cbv zeta.
  rewrite (length2_mirror uv 0.15 (-0.15)) by lra.
  change (v2x (mirror uv)) with (- v2x uv).
  change (v2y (mirror uv)) with (v2y uv).
  rewrite (step_window_mirror (-0.42) (-0.18) 0.18 0.42) by lra.
  reflexivity.
Qed.

Lemma rightArc_mirror (uv : vec2) : rightArc (mirror uv) = leftArc uv.
Proof.
  unfold leftArc, rightArc. cbv zeta.
  rewrite (length2_mirror uv (-0.15) 0.15) by lra.
  change (v2x (mirror uv)) with (- v2x uv).
  change (v2y (mirror uv)) with (v2y uv).
  rewrite (step_window_mirror 0.18 0.42 (-0.42) (-0.18)) by lra.
  reflexivity.
Qed.

Lemma ref_sum_mirror (uv : vec2) : ref_sum (mirror uv) = ref_sum uv.
Proof.
  unfold ref_sum. cbv zeta.
  rewrite topArc_mirror, leftArc_mirror, rightArc_mirror.
  rewrite (dash_mirror uv (-0.22) 0.22) by lra.
  rewrite (dash_mirror uv 0.22 (-0.22)) by lra.
  rewrite (dash_mirror uv (-0.38) 0.38) by lra.
  rewrite (dash_mirror uv 0.38 (-0.38)) by lra.
  rewrite (dash_mirror uv (-0.28) 0.28) by lra.
  rewrite (dash_mirror uv 0.28 (-0.28)) by lra.
  rewrite (dash_mirror uv 0 0) by lra.
  lra.
Qed.

(* The lens shapes. *)

Lemma clamp_flip (r : R) : clamp (1 - r) 0 1 = 1 - clamp r 0 1.
Proof.
  unfold clamp, Rmin, Rmax.
  repeat (destruct Rle_dec; try lra).
Qed.

Lemma smoothstep_mirror (a b a' b' x : R) :
  a' = - b -> b' = - a -> a <> b ->
  smoothstep a b (- x) = 1 - smoothstep a' b' x.
Proof.
  intros -> -> N. unfold smoothstep.
  replace ((- x - a) / (b - a)) with (1 - (x - - b) / (- a - - b))
    by (field; lra).
  rewrite clamp_flip.
  set (t := clamp ((x - - b) / (- a - - b)) 0 1). clearbody t. lra.
Qed.

Lemma sphere_z_mirror (uv : vec2) : sphere_z (mirror uv) = sphere_z uv.
Proof.
  unfold sphere_z, mirror. cbn [v2x v2y].
  replace (- v2x uv * - v2x uv) with (v2x uv * v2x uv) by lra.
  reflexivity.
Qed.

Lemma sphere_normal_mirror (uv : vec2) :
  sphere_normal (mirror uv)
  = Vec3 (- v3x (sphere_normal uv)) (v3y (sphere_normal uv))
         (v3z (sphere_normal uv)).
Proof.
  unfold sphere_normal. rewrite sphere_z_mirror.
  unfold normalize3, map3v, mirror. cbn [v2x v2y v3x v3y v3z].
  assert (L : length3 (Vec3 (- v2x uv / sphereRadius) (v2y uv / sphereRadius)
                         (sphere_z uv))
              = length3 (Vec3 (v2x uv / sphereRadius) (v2y uv / sphereRadius)
                           (sphere_z uv))).
  { unfold length3, dot3. cbn [v3x v3y v3z]. f_equal. unfold Rdiv. lra. }
  rewrite L. f_equal. unfold Rdiv. lra.
Qed.

Lemma lens_point_mirror (uv : vec2) :
  lens_point (mirror uv) = mirror (lens_point uv).
Proof.
  unfold lens_point. cbv zeta.
  rewrite sphere_normal_mirror, sphere_z_mirror.
  unfold add2, zip2v, mirror. cbn [v2x v2y v3x v3y v3z].
  f_equal. lra.
Qed.

Lemma fresnel_mirror (uv : vec2) :
  fresnel (sphere_normal (mirror uv)) = fresnel (sphere_normal uv).
Proof.
  rewrite sphere_normal_mirror. unfold fresnel, dot3, viewDir.
  cbn [v3x v3y v3z].
  replace (- v3x (sphere_normal uv) * 0) with (v3x (sphere_normal uv) * 0) by lra.
  reflexivity.
Qed.

Lemma ringMask_mirror (u : Uniforms) (rp : vec2) (cx cx' cy r hw s : R) :
  cx' = - cx ->
  ringMask u (mirror rp) (Vec2 cx cy) r hw s = ringMask u rp (Vec2 cx' cy) r hw s.
Proof.
  intro H. unfold ringMask. rewrite (length2_mirror rp cx cx' cy H). reflexivity.
Qed.

Lemma roundRectMask_mirror (u : Uniforms) (rp : vec2) (cx cx' cy : R)
  (hs : vec2) (r s : R) :
  cx' = - cx ->
  roundRectMask u (sub2 (mirror rp) (Vec2 cx cy)) hs r s
  = roundRectMask u (sub2 rp (Vec2 cx' cy)) hs r s.
Proof.
  intros ->. unfold roundRectMask, sdRoundRect, sub2, zip2v, map2v, mirror, abs.
  cbn [v2x v2y].
  replace (- v2x rp - cx) with (- (v2x rp - - cx)) by lra.
  rewrite Rabs_Ropp. reflexivity.
Qed.

Lemma sideL_mirror (x : R) :
  smoothstep (-0.56) (-0.38) (- x) * (1 - smoothstep (-0.18) (-0.04) (- x))
  = smoothstep 0.04 0.18 x * (1 - smoothstep 0.38 0.56 x).
Proof.
  rewrite (smoothstep_mirror (-0.56) (-0.38) 0.38 0.56) by lra.
  rewrite (smoothstep_mirror (-0.18) (-0.04) 0.04 0.18) by lra.
  lra.
Qed.

Lemma sideR_mirror (x : R) :
  smoothstep 0.04 0.18 (- x) * (1 - smoothstep 0.38 0.56 (- x))
  = smoothstep (-0.56) (-0.38) x * (1 - smoothstep (-0.18) (-0.04) x).
Proof.
  rewrite (smoothstep_mirror 0.04 0.18 (-0.18) (-0.04)) by lra.
  rewrite (smoothstep_mirror 0.38 0.56 (-0.56) (-0.38)) by lra.
  lra.
Qed.

Lemma refCore_mirror (u : Uniforms) (rp : vec2) :
  refCore u (mirror rp) = refCore u rp.
Proof.
  unfold refCore. cbv zeta.
  rewrite !(ringMask_mirror u rp 0 0) by lra.
  rewrite !(ringMask_mirror u rp 0.20 (-0.20)) by lra.
  rewrite !(ringMask_mirror u rp (-0.20) 0.20) by lra.
  rewrite !(roundRectMask_mirror u rp (-0.25) 0.25) by lra.
  rewrite !(roundRectMask_mirror u rp 0.25 (-0.25)) by lra.
  rewrite !(roundRectMask_mirror u rp 0 0) by lra.
  rewrite !(roundRectMask_mirror u rp (-0.40) 0.40) by lra.
  rewrite !(roundRectMask_mirror u rp 0.40 (-0.40)) by lra.
  rewrite !(roundRectMask_mirror u rp (-0.30) 0.30) by lra.
  rewrite !(roundRectMask_mirror u rp 0.30 (-0.30)) by lra.
  change (v2x (mirror rp)) with (- v2x rp).
  change (v2y (mirror rp)) with (v2y rp).
  unfold abs. rewrite Rabs_Ropp.
  rewrite sideL_mirror, sideR_mirror.
  lra.
Qed.

Lemma refGlow_mirror (u : Uniforms) (rp : vec2) :
  refGlow u (mirror rp) = refGlow u rp.
Proof.
  unfold refGlow. cbv zeta.
  rewrite !(ringMask_mirror u rp 0 0) by lra.
  rewrite !(ringMask_mirror u rp 0.20 (-0.20)) by lra.
  rewrite !(ringMask_mirror u rp (-0.20) 0.20) by lra.
  rewrite !(roundRectMask_mirror u rp (-0.25) 0.25) by lra.
  rewrite !(roundRectMask_mirror u rp 0.25 (-0.25)) by lra.
  rewrite !(roundRectMask_mirror u rp 0 0) by lra.
  change (v2x (mirror rp)) with (- v2x rp).
  change (v2y (mirror rp)) with (v2y rp).
  unfold abs. rewrite Rabs_Ropp.
  rewrite sideL_mirror, sideR_mirror.
  lra.
Qed.

(** X28: both reflection overlays are symmetric in the vertical axis:
    applied to the same colour, the block gives the same result at a
    fragment and at its mirror image, for every uniform. *)
Theorem reflections_mirror (u : Uniforms) (uv : vec2) (color : vec3) :
  reflections_hal u (mirror uv) color = reflections_hal u uv color
  /\ reflections_lens u (mirror uv) color = reflections_lens u uv color.
Proof.
  split.
  - unfold reflections_hal. rewrite ref_sum_mirror. reflexivity.
  - unfold reflections_lens. cbv zeta.
    rewrite lens_point_mirror, fresnel_mirror, refCore_mirror, refGlow_mirror.
    reflexivity.
Qed.

End FragMore.
